(** * osgbuild.utils: subprocess, pipeline, directory and text helpers

    A shallow embedding of [osgbuild/utils.py].  Python values are a small
    inductive type, dictionaries are [gmap]s keyed by strings, text is a
    [string] whose characters are the code points 0..255 (all that the
    decoders used here can produce), and captured bytes are [list byte].
    Effects (the working directory, the directory stack, the store of
    keyword dictionaries, the table of spawned processes) are threaded
    through an explicit state-and-exception monad; the operating system
    is a record of oracles over which every theorem is quantified.
    The helpers that only look at the file system or talk to the user
    take what they see as arguments: predicates on paths, the text of a
    file, the lines still to be typed.  The patterns the module hands
    to [re] are built from a few combinators that match as [re] does,
    longest repetition first. *)

From Stdlib Require Import ZArith Ascii String.
From Stdlib.Strings Require Import Byte.
From stdpp Require Import gmap strings list.

Set Warnings "-register-all,-clear-no-such-hyp".
Local Open Scope list_scope.

(** ** Python values *)

Inductive pyval :=
| PNone
| PBool (b : bool)
| PInt (n : Z)
| PStr (s : string)
| PBytes (bs : list byte)
| PList (l : list pyval)
| PTuple (l : list pyval)
| PDict (d : gmap string pyval)
| PFile (fd : nat)
| PPipe (pid : nat).

(** [subprocess.PIPE], [subprocess.STDOUT] are the integers -1 and -2. *)
Definition subprocess_PIPE : pyval := PInt (-1).
Definition subprocess_STDOUT : pyval := PInt (-2).
Definition is_PIPE (v : option pyval) : bool :=
  match v with Some (PInt n) => (n =? -1)%Z | _ => false end.

(** Truth value testing, as [if x:] does it. *)
Definition truthy (v : pyval) : bool :=
  match v with
  | PNone => false
  | PBool b => b
  | PInt n => negb (n =? 0)%Z
  | PStr s => negb (String.eqb s "")
  | PBytes bs => match bs with [] => false | _ => true end
  | PList l | PTuple l => match l with [] => false | _ => true end
  | PDict d => negb (bool_decide (d = ∅))
  | PFile _ | PPipe _ => true
  end.

(** ** Exceptions *)

Inductive exn :=
| CalledProcessError (process : list pyval) (returncode : Z) (output : pyval)
| OSError (what : string)
| TypeError (what : string)
| ValueError (what : string)
| IndexError (what : string)
| AttributeError (what : string)
| UnicodeDecodeError
| TimeoutExpired
| OtherError (name : string).

(** [except OSError], [except TypeError], [except IndexError] and
    [except CalledProcessError] clauses: which exceptions they catch. *)
Definition is_OSError (e : exn) : bool :=
  match e with OSError _ => true | _ => false end.
Definition is_TypeError (e : exn) : bool :=
  match e with TypeError _ => true | _ => false end.
Definition is_IndexError (e : exn) : bool :=
  match e with IndexError _ => true | _ => false end.
Definition is_CalledProcessError (e : exn) : bool :=
  match e with CalledProcessError _ _ _ => true | _ => false end.

(** ** Text *)

Definition ord (c : ascii) : N := N_of_ascii c.

(** The code points below 256 for which [str.isspace] holds. *)
Definition isspace (c : ascii) : bool :=
  let n := ord c in
  ((9 <=? n) && (n <=? 13) || (28 <=? n) && (n <=? 32)
   || (n =? 133) || (n =? 160))%N.

Fixpoint lstrip (s : string) : string :=
  match s with
  | String c s' => if isspace c then lstrip s' else s
  | EmptyString => EmptyString
  end.

Fixpoint rstrip (s : string) : string :=
  match s with
  | String c s' =>
      match rstrip s' with
      | EmptyString => if isspace c then EmptyString else String c EmptyString
      | r => String c r
      end
  | EmptyString => EmptyString
  end.

(** [str.strip()] *)
Definition strip (s : string) : string := rstrip (lstrip s).

(** [str.split()]: the maximal runs of non-whitespace, in order.
    [cur] is the field being read, reversed. *)
Fixpoint split_ws_go (cur : list ascii) (s : string) : list string :=
  let flush := match cur with
               | [] => []
               | _ => [string_of_list_ascii (rev cur)]
               end in
  match s with
  | EmptyString => flush
  | String c s' =>
      if isspace c then flush ++ split_ws_go [] s'
      else split_ws_go (c :: cur) s'
  end.

Definition split_ws (s : string) : list string := split_ws_go [] s.

(** *** Decoding bytes *)

Inductive codec := Latin1 | AsciiCodec.
Inductive error_handler := Strict | Ignore | Backslashreplace.

(** Which bytes a codec maps to a character: latin-1 maps every byte
    to the code point of the same number, ascii only those below 128. *)
Definition decodable (enc : codec) (b : byte) : bool :=
  match enc with
  | Latin1 => true
  | AsciiCodec => (Byte.to_N b <? 128)%N
  end.

Definition hex_digit (n : N) : ascii :=
  ascii_of_N (if (n <? 10)%N then 48 + n else 87 + n).

(** What [backslashreplace] writes for an undecodable byte: a backslash,
    an x and two lower-case hexadecimal digits. *)
Definition backslash_escape (b : byte) : string :=
  let n := Byte.to_N b in
  String "\" (String "x" (String (hex_digit (n / 16))
                            (String (hex_digit (n mod 16)) EmptyString))).

(** [bytes.decode(encoding, errors)] *)
Fixpoint bytes_decode (bs : list byte) (encoding : codec)
    (errors : error_handler) : exn + string :=
  match bs with
  | [] => inr EmptyString
  | b :: bs' =>
      if decodable encoding b then
        match bytes_decode bs' encoding errors with
        | inr s => inr (String (ascii_of_byte b) s)
        | inl e => inl e
        end
      else
        match errors with
        | Strict => inl UnicodeDecodeError
        | Ignore => bytes_decode bs' encoding errors
        | Backslashreplace =>
            match bytes_decode bs' encoding errors with
            | inr s => inr (backslash_escape b ++ s)%string
            | inl e => inl e
            end
        end
  end.

(** The defaults of [to_str] and [maybe_to_str]:
    [encoding="latin-1", errors="backslashreplace"]. *)
Definition default_encoding : codec := Latin1.
Definition default_errors : error_handler := Backslashreplace.

Section to_str.
(** The builtin [str()] on values that are not bytes. *)
Variable builtin_str : pyval -> string.

Definition to_str (strlike : pyval) (encoding : codec)
    (errors : error_handler) : exn + string :=
  match strlike with
  | PBytes bs => bytes_decode bs encoding errors
  | other => inr (builtin_str other)
  end.

End to_str.

Definition maybe_to_str (strlike : pyval) (encoding : codec)
    (errors : error_handler) : exn + pyval :=
  match strlike with
  | PBytes bs =>
      match bytes_decode bs encoding errors with
      | inr s => inr (PStr s)
      | inl e => inl e
      end
  | other => inr other
  end.

(** Whether a text shows a backslash, the mark of an escaped byte. *)
Definition has_backslash (s : string) : bool :=
  existsb (fun c => (ord c =? 92)%N) (list_ascii_of_string s).

(** Well-formed UTF-8 (the byte ranges of the Unicode standard, table
    3-7), used to say which captured byte sequences are valid text. *)
Definition cont (lo hi : N) (b : byte) : bool :=
  ((lo <=? Byte.to_N b) && (Byte.to_N b <=? hi))%N.

Fixpoint utf8_valid (bs : list byte) : bool :=
  match bs with
  | [] => true
  | b0 :: t0 =>
      let n := Byte.to_N b0 in
      if (n <=? 127)%N then utf8_valid t0 else
      match t0 with
      | [] => false
      | b1 :: t1 =>
          if cont 194 223 b0 then cont 128 191 b1 && utf8_valid t1 else
          match t1 with
          | [] => false
          | b2 :: t2 =>
              if cont 224 239 b0 then
                (if (n =? 224)%N then cont 160 191 b1
                 else if (n =? 237)%N then cont 128 159 b1
                 else cont 128 191 b1)
                && cont 128 191 b2 && utf8_valid t2
              else
              match t2 with
              | [] => false
              | b3 :: t3 =>
                  cont 240 244 b0
                  && (if (n =? 240)%N then cont 144 191 b1
                      else if (n =? 244)%N then cont 128 143 b1
                      else cont 128 191 b1)
                  && cont 128 191 b2 && cont 128 191 b3 && utf8_valid t3
              end
          end
      end
  end.

(** [int(s)] on text: leading whitespace, one optional sign, then
    decimal digits, single underscores allowed between digits, then
    trailing whitespace.  The whitespace [int] passes over is not that
    of [str.strip]: below 128 it is the six characters of C's
    [isspace], above it the two of [str.isspace]; the separators
    U+001C..U+001F are not among them.  A number of more than 4300
    digits is refused, the underscores and the sign not counted, and
    that before what follows the digits is looked at. *)
Definition is_digit (c : ascii) : bool := ((48 <=? ord c) && (ord c <=? 57))%N.

Definition int_space (c : ascii) : bool :=
  let n := ord c in
  ((9 <=? n) && (n <=? 13) || (n =? 32) || (n =? 133) || (n =? 160))%N.

Fixpoint int_lstrip (s : string) : string :=
  match s with
  | String c s' => if int_space c then int_lstrip s' else s
  | EmptyString => EmptyString
  end.

(** The digits read so far give [acc] and number [count]; the result
    is the value, the number of digits and the text after them. *)
Fixpoint int_digits (acc : Z) (count : N) (after_digit : bool) (s : string)
    : option (Z * N * string) :=
  match s with
  | EmptyString => if after_digit then Some (acc, count, EmptyString) else None
  | String c s' =>
      if is_digit c then
        int_digits (10 * acc + (Z.of_N (ord c) - 48))%Z (count + 1)%N true s'
      else if (ord c =? 95)%N then
        if after_digit then int_digits acc count false s' else None
      else if after_digit then Some (acc, count, s) else None
  end.

Definition int_max_str_digits : N := 4300.

Definition int_of_str (s : string) : exn + Z :=
  let invalid := inl (ValueError "invalid literal for int() with base 10") in
  let number (negative : bool) (body : string) :=
    match int_digits 0 0 false body with
    | Some (n, count, rest) =>
        if (int_max_str_digits <? count)%N then
          inl (ValueError "Exceeds the limit (4300 digits) for integer string conversion")
        else
          match int_lstrip rest with
          | EmptyString => inr (if negative then (- n)%Z else n)
          | _ => invalid
          end
    | None => invalid
    end in
  match int_lstrip s with
  | String c r =>
      if (ord c =? 43)%N then number false r
      else if (ord c =? 45)%N then number true r
      else number false (String c r)
  | EmptyString => invalid
  end.

(** ** shlex.split

    The tokenizer of the standard library's [shlex] in the configuration
    [shlex.split] sets up: POSIX mode, [whitespace_split] on, no comment
    characters, no punctuation characters.  One pass over the input
    plays the successive [read_token] calls: where [read_token] breaks
    out of its loop with a token, the token is emitted and the per-call
    variables [token], [quoted] and [escapedstate] start afresh, while
    the lexer state carries over. *)

Inductive lex_state :=
| InWhitespace           (* state ' ' *)
| InWord                 (* state 'a' *)
| InQuote (q : ascii)    (* state is the opening quote character *)
| InEscape (e : ascii).  (* state is the escape character *)

Definition shlex_whitespace (c : ascii) : bool :=
  ((ord c =? 32) || (ord c =? 9) || (ord c =? 13) || (ord c =? 10))%N.
Definition shlex_quotes (c : ascii) : bool :=
  ((ord c =? 39) || (ord c =? 34))%N.
Definition shlex_escape (c : ascii) : bool := (ord c =? 92)%N.
Definition shlex_escapedquotes (c : ascii) : bool := (ord c =? 34)%N.
Definition shlex_wordchars (c : ascii) : bool :=
  let n := ord c in
  ((97 <=? n) && (n <=? 122) || (65 <=? n) && (n <=? 90)
   || (48 <=? n) && (n <=? 57) || (n =? 95)
   || (192 <=? n) && negb (n =? 215) && negb (n =? 247))%N.

Definition in_quotes (st : lex_state) : bool :=
  match st with InQuote _ => true | _ => false end.

Definition state_char_is (st : lex_state) (c : ascii) : bool :=
  match st with
  | InQuote q => (ord q =? ord c)%N
  | InEscape e => (ord e =? ord c)%N
  | _ => false
  end.

Definition add_char (token : string) (c : ascii) : string :=
  (token ++ String c EmptyString)%string.

Definition emits (token : string) (quoted : bool) : bool :=
  negb (String.eqb token "") || quoted.

Fixpoint shlex_tokens (state escapedstate : lex_state) (token : string)
    (quoted : bool) (input : string) : exn + list string :=
  let emit_then (k : exn + list string) :=
    match k with inr toks => inr (token :: toks) | inl e => inl e end in
  match input with
  | EmptyString =>
      match state with
      | InWhitespace | InWord =>
          inr (if emits token quoted then [token] else [])
      | InQuote _ => inl (ValueError "No closing quotation")
      | InEscape _ => inl (ValueError "No escaped character")
      end
  | String c rest =>
      match state with
      | InWhitespace =>
          if shlex_whitespace c then
            if emits token quoted
            then emit_then (shlex_tokens InWhitespace InWhitespace "" false rest)
            else shlex_tokens InWhitespace escapedstate token quoted rest
          else if shlex_escape c then
            shlex_tokens (InEscape c) InWord token quoted rest
          else if shlex_wordchars c then
            shlex_tokens InWord escapedstate (String c "") quoted rest
          else if shlex_quotes c then
            shlex_tokens (InQuote c) escapedstate token quoted rest
          else
            shlex_tokens InWord escapedstate (String c "") quoted rest
      | InQuote q =>
          if (ord c =? ord q)%N then
            shlex_tokens InWord escapedstate token true rest
          else if shlex_escape c && shlex_escapedquotes q then
            shlex_tokens (InEscape c) (InQuote q) token true rest
          else
            shlex_tokens (InQuote q) escapedstate (add_char token c) true rest
      | InEscape e =>
          let token' :=
            if in_quotes escapedstate && negb (ord c =? ord e)%N
               && negb (state_char_is escapedstate c)
            then add_char token e else token in
          shlex_tokens escapedstate escapedstate (add_char token' c) quoted rest
      | InWord =>
          if shlex_whitespace c then
            if emits token quoted
            then emit_then (shlex_tokens InWhitespace InWhitespace "" false rest)
            else shlex_tokens InWhitespace escapedstate token quoted rest
          else if shlex_quotes c then
            shlex_tokens (InQuote c) escapedstate token quoted rest
          else if shlex_escape c then
            shlex_tokens (InEscape c) InWord token quoted rest
          else
            shlex_tokens InWord escapedstate (add_char token c) quoted rest
      end
  end.

Definition shlex_split (s : string) : exn + list string :=
  shlex_tokens InWhitespace InWhitespace "" false s.

(** ** The world: processes, directories, dictionaries *)

(** What the operating system makes of a spawned child: its exit
    status, the instant it terminates, and what it writes to its
    standard output and standard error when those are captured. *)
Record child := Child {
  exit_status : Z;
  finish_time : nat;
  child_stdout : pyval;
  child_stderr : pyval;
}.

(** A [subprocess.Popen] object: the parameters it was created with
    (after binding), the child behind it, and its [stdout] attribute. *)
Record popen := PopenObj {
  po_params : gmap string pyval;
  po_child : child;
  po_stdout : pyval;
}.

Record world := World {
  cwd : string;                       (* the process working directory *)
  dir_stack : list string;            (* the module global __dir_stack *)
  environ : gmap string string;       (* os.environ *)
  dicts : list (gmap string pyval);   (* dict objects, by reference *)
  procs : list popen;                 (* Popen objects, by pid *)
  open_pipes : gset nat;              (* pipe read ends open in the parent *)
  requests : list (gmap string pyval);(* every spawn asked of the OS *)
  clock : nat;
}.

Definition set_cwd (c : string) (w : world) : world :=
  World c (dir_stack w) (environ w) (dicts w) (procs w) (open_pipes w)
    (requests w) (clock w).
Definition set_dir_stack (s : list string) (w : world) : world :=
  World (cwd w) s (environ w) (dicts w) (procs w) (open_pipes w)
    (requests w) (clock w).
Definition set_dicts (d : list (gmap string pyval)) (w : world) : world :=
  World (cwd w) (dir_stack w) (environ w) d (procs w) (open_pipes w)
    (requests w) (clock w).
Definition set_procs (p : list popen) (w : world) : world :=
  World (cwd w) (dir_stack w) (environ w) (dicts w) p (open_pipes w)
    (requests w) (clock w).
Definition set_open_pipes (o : gset nat) (w : world) : world :=
  World (cwd w) (dir_stack w) (environ w) (dicts w) (procs w) o
    (requests w) (clock w).
Definition set_requests (r : list (gmap string pyval)) (w : world) : world :=
  World (cwd w) (dir_stack w) (environ w) (dicts w) (procs w) (open_pipes w)
    r (clock w).
Definition set_clock (t : nat) (w : world) : world :=
  World (cwd w) (dir_stack w) (environ w) (dicts w) (procs w) (open_pipes w)
    (requests w) t.

(** The operating system, as far as this module sees it: what becomes
    of a spawn request, and where a [chdir] from a given directory
    leads (the new working directory as [getcwd] reports it). *)
Record os_model := OS {
  os_spawn : world -> gmap string pyval -> exn + child;
  os_chdir : string -> string -> option string;
}.

(** ** Computations: state, and exceptions that keep the state *)

Inductive outcome (A : Type) :=
| Return (a : A)
| Raise (e : exn).
Arguments Return {A} a.
Arguments Raise {A} e.

Definition M (A : Type) : Type := world -> outcome A * world.

Definition ret {A} (a : A) : M A := fun w => (Return a, w).
Definition raise {A} (e : exn) : M A := fun w => (Raise e, w).
Definition bind {A B} (m : M A) (k : A -> M B) : M B :=
  fun w => match m w with
           | (Return a, w') => k a w'
           | (Raise e, w') => (Raise e, w')
           end.
(** [try: m  except <catches>: handler] *)
Definition try_except {A} (m : M A) (catches : exn -> bool)
    (handler : exn -> M A) : M A :=
  fun w => match m w with
           | (Raise e, w') => if catches e then handler e w' else (Raise e, w')
           | r => r
           end.
Definition get_world : M world := fun w => (Return w, w).
Definition modify_world (f : world -> world) : M unit :=
  fun w => (Return tt, f w).
Definition lift_sum {A} (r : exn + A) : M A :=
  match r with inr a => ret a | inl e => raise e end.

Declare Scope py_scope.
Delimit Scope py_scope with py.
Notation "x <- m ;; k" := (bind m (fun x => k))
  (at level 100, m at next level, right associativity) : py_scope.
Notation "m ;; k" := (bind m (fun _ => k))
  (at level 100, right associativity) : py_scope.
Local Open Scope py_scope.

Fixpoint mapM {A B} (f : A -> M B) (l : list A) : M (list B) :=
  match l with
  | [] => ret []
  | a :: l' => b <- f a ;; bs <- mapM f l' ;; ret (b :: bs)
  end.

(** *** Dictionary objects *)

Definition dict_new (d : gmap string pyval) : M nat :=
  w <- get_world ;;
  modify_world (set_dicts (dicts w ++ [d])) ;;
  ret (length (dicts w)).

Definition dict_load (r : nat) : M (gmap string pyval) :=
  w <- get_world ;;
  match dicts w !! r with
  | Some d => ret d
  | None => raise (OtherError "dangling dict reference")
  end.

Definition dict_store (r : nat) (d : gmap string pyval) : M unit :=
  modify_world (fun w => set_dicts (<[r := d]> (dicts w)) w).

(** [d.copy()] *)
Definition dict_copy (r : nat) : M nat := d <- dict_load r ;; dict_new d.

(** [d.pop(key, default)] *)
Definition dict_pop (r : nat) (key : string) (default : pyval) : M pyval :=
  d <- dict_load r ;;
  match d !! key with
  | Some v => dict_store r (delete key d) ;; ret v
  | None => ret default
  end.

(** [d[key] = v] *)
Definition dict_setitem (r : nat) (key : string) (v : pyval) : M unit :=
  d <- dict_load r ;; dict_store r (<[key := v]> d).

(** ** Calling conventions

    How Python binds the positional and keyword arguments of a call to
    a function's parameters: positional arguments fill the leading
    parameters, a keyword must name a parameter that no positional
    argument filled, the defaults supply the rest, and [required]
    parameters must end up bound. *)
Definition bind_arguments (positional kwonly required : list string)
    (defaults : gmap string pyval) (args : list pyval)
    (kwargs : gmap string pyval) : exn + gmap string pyval :=
  if bool_decide (length positional < length args) then
    inl (TypeError "too many positional arguments")
  else
    let by_position : gmap string pyval := list_to_map (zip positional args) in
    if bool_decide (dom kwargs ∩ dom by_position ≠ ∅) then
      inl (TypeError "got multiple values for argument")
    else if bool_decide (dom kwargs ⊈ list_to_set (positional ++ kwonly)) then
      inl (TypeError "got an unexpected keyword argument")
    else
      let bound := by_position ∪ kwargs ∪ defaults in
      if bool_decide (list_to_set required ⊈ dom bound) then
        inl (TypeError "missing a required positional argument")
      else inr bound.

(** The signature of [subprocess.Popen.__init__] (CPython 3.11). *)
Definition Popen_positional : list string :=
  ["args"; "bufsize"; "executable"; "stdin"; "stdout"; "stderr";
   "preexec_fn"; "close_fds"; "shell"; "cwd"; "env"; "universal_newlines";
   "startupinfo"; "creationflags"; "restore_signals"; "start_new_session";
   "pass_fds"].
Definition Popen_kwonly : list string :=
  ["user"; "group"; "extra_groups"; "encoding"; "errors"; "text"; "umask";
   "pipesize"; "process_group"].
Definition Popen_defaults : gmap string pyval :=
  list_to_map
    [("bufsize", PInt (-1)); ("executable", PNone); ("stdin", PNone);
     ("stdout", PNone); ("stderr", PNone); ("preexec_fn", PNone);
     ("close_fds", PBool true); ("shell", PBool false); ("cwd", PNone);
     ("env", PNone); ("universal_newlines", PNone); ("startupinfo", PNone);
     ("creationflags", PInt 0); ("restore_signals", PBool true);
     ("start_new_session", PBool false); ("pass_fds", PTuple []);
     ("user", PNone); ("group", PNone); ("extra_groups", PNone);
     ("encoding", PNone); ("errors", PNone); ("text", PNone);
     ("umask", PInt (-1)); ("pipesize", PInt (-1)); ("process_group", PNone)].

Definition Popen_bind (args : list pyval) (kwargs : gmap string pyval)
    : exn + gmap string pyval :=
  bind_arguments Popen_positional Popen_kwonly ["args"] Popen_defaults
    args kwargs.

(** The environment the child runs in: the [env] mapping when one is
    given, the parent's own environment otherwise. *)
Definition environ_value (w : world) : pyval := PDict (PStr <$> environ w).

Definition child_environment (w : world) (params : gmap string pyval) : pyval :=
  match params !! "env" with
  | Some PNone | None => environ_value w
  | Some e => e
  end.

Section subprocess.
Variable os : os_model.

(** ** The subprocess module *)

(** [subprocess.Popen]: bind the parameters, ask the operating system
    to spawn the child, and record the new object.  Its
    [stdout] attribute is a pipe exactly when [stdout=PIPE] was asked. *)
Definition Popen (args : list pyval) (kwargs : gmap string pyval) : M nat :=
  params <- lift_sum (Popen_bind args kwargs) ;;
  modify_world (fun w => set_requests (requests w ++ [params]) w) ;;
  w <- get_world ;;
  c <- lift_sum (os_spawn os w params) ;;
  let pid := length (procs w) in
  let piped := is_PIPE (params !! "stdout") in
  modify_world (fun w =>
    set_open_pipes (if piped then {[pid]} ∪ open_pipes w else open_pipes w)
      (set_procs (procs w ++ [PopenObj params c
                                (if piped then PPipe pid else PNone)]) w)) ;;
  ret pid.

Definition Popen_object (p : nat) : M popen :=
  w <- get_world ;;
  match procs w !! p with
  | Some po => ret po
  | None => raise (OtherError "dangling Popen reference")
  end.

(** [p.stdout] and [p.stdout = v] *)
Definition Popen_get_stdout (p : nat) : M pyval :=
  po <- Popen_object p ;; ret (po_stdout po).
Definition Popen_set_stdout (p : nat) (v : pyval) : M unit :=
  po <- Popen_object p ;;
  modify_world (fun w =>
    set_procs (<[p := PopenObj (po_params po) (po_child po) v]> (procs w)) w).

(** [f.close()] on what a [stdout] attribute holds. *)
Definition file_close (f : pyval) : M unit :=
  match f with
  | PPipe pid =>
      modify_world (fun w => set_open_pipes (open_pipes w ∖ {[pid]}) w)
  | PFile _ => ret tt
  | _ => raise (AttributeError "object has no attribute 'close'")
  end.

(** [p.wait(timeout)]: block until the child has terminated and return
    its exit status; with a timeout, give up when the child would
    terminate later than that. *)
Definition Popen_wait (p : nat) (timeout : pyval) : M Z :=
  po <- Popen_object p ;;
  w <- get_world ;;
  let fin := finish_time (po_child po) in
  match timeout with
  | PNone =>
      modify_world (set_clock (clock w `max` fin)) ;;
      ret (exit_status (po_child po))
  | PInt t =>
      if bool_decide (fin ≤ clock w + Z.to_nat t) then
        modify_world (set_clock (clock w `max` fin)) ;;
        ret (exit_status (po_child po))
      else
        modify_world (set_clock (clock w + Z.to_nat t)) ;;
        raise TimeoutExpired
  | _ => raise (TypeError "timeout must be a number")
  end.

(** [p.communicate()]: read what the child wrote to the captured
    streams, close them, wait for the child. *)
Definition Popen_communicate (p : nat) : M (pyval * pyval) :=
  po <- Popen_object p ;;
  let out := match po_stdout po with
             | PPipe _ => child_stdout (po_child po)
             | _ => PNone
             end in
  let err := if is_PIPE (po_params po !! "stderr")
             then child_stderr (po_child po) else PNone in
  match po_stdout po with PPipe _ => file_close (po_stdout po) | _ => ret tt end ;;
  Popen_wait p PNone ;;
  ret (out, err).

(** [p.returncode] once the child has been waited for. *)
Definition Popen_returncode (p : nat) : M Z :=
  po <- Popen_object p ;; ret (exit_status (po_child po)).

(** [subprocess.call], whose own keyword [timeout] is not passed on: the context
    manager of the Popen object closes its streams on the way out. *)
Definition subprocess_call (popenargs : list pyval)
    (kwargs : gmap string pyval) : M Z :=
  let timeout := default PNone (kwargs !! "timeout") in
  p <- Popen popenargs (delete "timeout" kwargs) ;;
  let on_exit := (f <- Popen_get_stdout p ;;
                  match f with PNone => ret tt | _ => file_close f end) in
  try_except
    (r <- Popen_wait p timeout ;; on_exit ;; ret r)
    (fun _ => true)
    (fun e => on_exit ;; raise e).

(** ** Builtins used by the module *)

(** ["...%s..." % v]: a tuple on the right is the whole argument list,
    so it must hold exactly one value for the single [%s]. *)
Definition percent_s (v : pyval) : M unit :=
  match v with
  | PTuple l =>
      if bool_decide (length l = 1) then ret tt
      else raise (TypeError "wrong number of arguments for format string")
  | _ => ret tt
  end.

(** [dict(v, **overrides)].  Keys are text throughout this model; a
    pair whose key is not text is outside it and is made to raise. *)
Definition as_pair (item : pyval) : exn + (string * pyval) :=
  match item with
  | PList [PStr k; v] | PTuple [PStr k; v] => inr (k, v)
  | PStr (String a (String b EmptyString)) =>
      inr (String a EmptyString, PStr (String b EmptyString))
  | _ => inl (TypeError "cannot convert dictionary update sequence element")
  end.

Fixpoint dict_of_pairs (acc : gmap string pyval) (items : list pyval)
    : exn + gmap string pyval :=
  match items with
  | [] => inr acc
  | item :: items' =>
      match as_pair item with
      | inr (k, v) => dict_of_pairs (<[k := v]> acc) items'
      | inl e => inl e
      end
  end.

Definition dict_from (v : pyval) (overrides : list (string * pyval))
    : exn + gmap string pyval :=
  let base :=
    match v with
    | PDict d => inr d
    | PList l | PTuple l => dict_of_pairs ∅ l
    | PStr EmptyString | PBytes [] => inr ∅
    | PStr _ => inl (ValueError "dictionary update sequence element has length 1")
    | _ => inl (TypeError "object is not iterable")
    end in
  match base with
  | inr d => inr (foldl (fun d kv => <[kv.1 := kv.2]> d) d overrides)
  | inl e => inl e
  end.

(** [s.strip()] and [s.split()] on a value that should be text. *)
Definition py_strip (v : pyval) : M pyval :=
  match v with
  | PStr s => ret (PStr (strip s))
  | _ => raise (AttributeError "object has no attribute 'strip'")
  end.
Definition py_split (v : pyval) : M (list string) :=
  match v with
  | PStr s => ret (split_ws s)
  | _ => raise (AttributeError "object has no attribute 'split'")
  end.

(** [l[i]] for [i >= 0] and [l[-k]] for [k >= 1]. *)
Definition index {A} (l : list A) (i : nat) : M A :=
  match l !! i with
  | Some a => ret a
  | None => raise (IndexError "list index out of range")
  end.
Definition index_from_end {A} (l : list A) (k : nat) : M A :=
  index (rev l) (pred k).

(** [os.getcwd()] and [os.chdir(path)].  The working directory is
    taken to exist, so that [os.getcwd] answers; a process whose
    working directory has been removed is outside the model. *)
Definition os_getcwd : M string := w <- get_world ;; ret (cwd w).
Definition os_chdir_to (path : string) : M unit :=
  w <- get_world ;;
  match os_chdir os (cwd w) path with
  | Some c => modify_world (set_cwd c)
  | None => raise (OSError "chdir")
  end.

(** ** osgbuild.utils *)

Definition unchecked_call (args : list pyval) (kwargs : gmap string pyval)
    : M Z :=
  err <- subprocess_call args kwargs ;;
  ret err.

Definition checked_call (args : list pyval) (kwargs : gmap string pyval)
    : M unit :=
  err <- unchecked_call args kwargs ;;
  if negb (err =? 0)%Z then
    raise (CalledProcessError [PTuple args; PDict kwargs] err PNone)
  else ret tt.

(** The loop of [unchecked_pipeline]: [i] counts the commands spawned
    so far and [pipes] holds their Popen objects. *)
Fixpoint spawn_pipeline (final : Z) (stdin stdout : pyval)
    (kw : gmap string pyval) (i : nat) (pipes : list nat)
    (cmds : list pyval) : M (list nat) :=
  match cmds with
  | [] => ret pipes
  | cmd :: cmds' =>
      _stdin <- (if bool_decide (i = 0) then ret stdin
                 else p <- index_from_end pipes 1 ;; Popen_get_stdout p) ;;
      let _stdout := if bool_decide (Z.of_nat i = final) then stdout
                     else subprocess_PIPE in
      p <- Popen [cmd] (<["stdin" := _stdin]> (<["stdout" := _stdout]> kw)) ;;
      let pipes := pipes ++ [p] in
      (if bool_decide (0 < i) then
         prev <- index_from_end pipes 2 ;;
         f <- Popen_get_stdout prev ;;
         file_close f ;;
         Popen_set_stdout prev PNone
       else ret tt) ;;
      spawn_pipeline final stdin stdout kw (S i) pipes cmds'
  end.

(** [list(filter(None, rets))[0] if any(rets) else 0] *)
Definition nonzero (n : Z) : bool := negb (n =? 0)%Z.
Definition first_failure (rets : list Z) : M Z :=
  if existsb nonzero rets then index (List.filter nonzero rets) 0
  else ret 0%Z.

Definition unchecked_pipeline (cmds : list pyval) (stdin stdout : pyval)
    (kw : gmap string pyval) : M Z :=
  let final := (Z.of_nat (length cmds) - 1)%Z in
  pipes <- spawn_pipeline final stdin stdout kw 0 [] cmds ;;
  rets <- mapM (fun p => Popen_wait p PNone) pipes ;;
  first_failure rets.

Definition checked_pipeline (cmds : list pyval) (stdin stdout : pyval)
    (kw : gmap string pyval) : M unit :=
  err <- unchecked_pipeline cmds stdin stdout kw ;;
  if negb (err =? 0)%Z then
    raise (CalledProcessError [PList cmds; PDict kw] err PNone)
  else ret tt.

(** [checked_backtick]: [kwargs] is the dictionary object the function
    receives; [sp_kwargs] is its copy, and only the copy is changed. *)
Definition checked_backtick (args : list pyval) (kwargs : nat) : M pyval :=
  cmd <- index args 0 ;;
  kw <- dict_load kwargs ;;
  cmd <- match cmd with
         | PStr s =>
             if bool_decide ("shell" ∉ dom kw)
             then toks <- lift_sum (shlex_split s) ;; ret (PList (PStr <$> toks))
             else ret cmd
         | _ => ret cmd
         end ;;
  sp_kwargs <- dict_copy kwargs ;;
  nostrip <- dict_pop sp_kwargs "nostrip" (PBool false) ;;
  dict_setitem sp_kwargs "stdout" subprocess_PIPE ;;
  err2out <- dict_pop sp_kwargs "err2out" (PBool false) ;;
  (if truthy err2out then dict_setitem sp_kwargs "stderr" subprocess_STDOUT
   else ret tt) ;;
  clocale <- dict_pop sp_kwargs "clocale" (PBool true) ;;
  (if truthy clocale then
     w <- get_world ;;
     base <- dict_pop sp_kwargs "env" (environ_value w) ;;
     env <- lift_sum (dict_from base [("LC_ALL", PStr "C"); ("LANG", PStr "C")]) ;;
     dict_setitem sp_kwargs "env" (PDict env)
   else ret tt) ;;
  percent_s cmd ;;
  sp <- dict_load sp_kwargs ;;
  proc <- Popen (cmd :: tail args) sp ;;
  out <- Popen_communicate proc ;;
  output <- lift_sum (maybe_to_str out.1 default_encoding default_errors) ;;
  output <- (if negb (truthy nostrip) then py_strip output else ret output) ;;
  err <- Popen_returncode proc ;;
  if negb (err =? 0)%Z then
    kw <- dict_load kwargs ;;
    raise (CalledProcessError [PTuple args; PDict kw] err output)
  else ret output.

(** [backtick] and [sbacktick] pass their arguments on; the call hands
    the callee a dictionary object of its own. *)
Definition backtick (args : list pyval) (kwargs : gmap string pyval)
    : M pyval :=
  try_except
    (k <- dict_new kwargs ;; checked_backtick args k)
    is_CalledProcessError
    (fun e => match e with
              | CalledProcessError _ _ output => ret output
              | _ => raise e
              end).

Definition sbacktick (args : list pyval) (kwargs : gmap string pyval)
    : M (pyval * Z) :=
  try_except
    (k <- dict_new kwargs ;;
     output <- checked_backtick args k ;;
     ret (output, 0%Z))
    is_CalledProcessError
    (fun e => match e with
              | CalledProcessError _ returncode output =>
                  ret (output, returncode)
              | _ => raise e
              end).

Definition get_screen_columns : M Z :=
  let default := 80%Z in
  try_except
    (out <- backtick [PStr "stty size"] ∅ ;;
     fields <- py_split out ;;
     field <- index fields 1 ;;
     w <- get_world ;;
     columns <- lift_sum (int_of_str (from_option id field (environ w !! "COLUMNS"))) ;;
     if (columns <? 10)%Z then ret default else ret columns)
    (fun e => is_TypeError e || is_OSError e)
    (fun _ => ret default).

(** *** The directory stack *)

Definition pushd (new_dir : string) : M unit :=
  old_dir <- os_getcwd ;;
  os_chdir_to new_dir ;;
  modify_world (fun w => set_dir_stack (dir_stack w ++ [old_dir]) w).

(** [__dir_stack.pop()] *)
Definition dir_stack_pop : M string :=
  w <- get_world ;;
  match rev (dir_stack w) with
  | top :: below =>
      modify_world (set_dir_stack (rev below)) ;; ret top
  | [] => raise (IndexError "pop from empty list")
  end.

Definition popd : M unit :=
  try_except
    (d <- dir_stack_pop ;; os_chdir_to d)
    is_IndexError
    (fun _ => raise (IndexError "Directory stack empty")).

(** *** Context managers made from generators

    A generator function under [contextlib.contextmanager] whose body
    is straight-line code around one bare [yield]: [before_yield] runs
    on entry and its result is what the generator frame keeps,
    [after_yield] runs when the generator is resumed.  The [with]
    statement resumes it when the block ends normally; when the block
    raises, the exception is thrown into the generator at the [yield],
    where no handler waits, so it leaves the generator at once and the
    [with] statement raises it again. *)
Record generator_cm (S : Type) := GeneratorCM {
  before_yield : M S;
  after_yield : S -> M unit;
}.
Arguments before_yield {S} g.
Arguments after_yield {S} g.

Definition with_ {S A} (cm : generator_cm S) (block : M A) : M A :=
  frame <- before_yield cm ;;
  fun w => match block w with
           | (Return a, w') => (after_yield cm frame ;; ret a) w'
           | (Raise e, w') => (Raise e, w')
           end.

Definition chdir (directory : string) : generator_cm string :=
  {| before_yield := (olddir <- os_getcwd ;;
                      os_chdir_to directory ;;
                      ret olddir);
     after_yield := fun olddir => os_chdir_to olddir |}.

End subprocess.

(** ** Texts: every character in a class *)

Definition all_chars (cls : ascii -> bool) (s : string) : bool :=
  forallb cls (list_ascii_of_string s).

(** ** Regular expressions

    The few forms the module's patterns are built from, matched the
    way [re] matches them: a repetition takes as much as it can and
    gives back one character at a time when what follows fails.  The
    continuation [k] stands for the rest of the pattern; it receives
    the text the repetition matched and the text still to be read. *)

(** [[cls]+] *)
Fixpoint re_plus {A} (cls : ascii -> bool) (k : string -> string -> option A)
    (matched : string) (s : string) : option A :=
  match s with
  | String c r =>
      if cls c then
        match re_plus cls k (add_char matched c) r with
        | Some x => Some x
        | None => k (add_char matched c) r
        end
      else None
  | EmptyString => None
  end.

(** a literal text *)
Fixpoint re_lit {A} (lit : string) (k : string -> option A) (s : string)
    : option A :=
  match lit with
  | EmptyString => k s
  | String c lit' =>
      match s with
      | String d r => if (ord c =? ord d)%N then re_lit lit' k r else None
      | EmptyString => None
      end
  end.

(** [$]: the end of the text, or just before a newline that ends it *)
Definition re_at_end (s : string) : bool :=
  match s with
  | EmptyString => true
  | String c EmptyString => (ord c =? 10)%N
  | _ => false
  end.

(** [re.search] for [[cls]+]: the first position where it matches *)
Fixpoint re_search_plus (cls : ascii -> bool) (s : string) : option string :=
  match re_plus cls (fun m _ => Some m) EmptyString s with
  | Some m => Some m
  | None =>
      match s with
      | String _ r => re_search_plus cls r
      | EmptyString => None
      end
  end.

(** [re.split] on a class of single characters: the pieces between
    the separators, empty ones included. *)
Fixpoint re_split_class (cls : ascii -> bool) (piece : string) (s : string)
    : list string :=
  match s with
  | EmptyString => [piece]
  | String c r =>
      if cls c then piece :: re_split_class cls EmptyString r
      else re_split_class cls (add_char piece c) r
  end.

(** [IniConfiguration._parse_list_str] *)
Definition list_separator (c : ascii) : bool :=
  ((ord c =? 32) || (ord c =? 44) || (ord c =? 9) || (ord c =? 10))%N.
Definition nonempty (s : string) : bool := negb (String.eqb s "").
Definition _parse_list_str (list_str : string) : list string :=
  List.filter nonempty (re_split_class list_separator EmptyString list_str).

(** [is_url]: whether the pattern [[-a-z+]+://] matches at the start
    of what [to_str] makes of the location.  The match object [re.match]
    returns is wanted for its truth value only; [true] stands for it
    and [false] for None. *)
Definition url_scheme_char (c : ascii) : bool :=
  ((ord c =? 45) || (97 <=? ord c) && (ord c <=? 122) || (ord c =? 43))%N.
Definition url_pattern (text : string) : bool :=
  match re_plus url_scheme_char
          (fun _ rest => re_lit "://" (fun _ => Some tt) rest)
          EmptyString text with
  | Some _ => true
  | None => false
  end.
Definition is_url (builtin_str : pyval -> string) (location : pyval)
    : exn + bool :=
  match to_str builtin_str location default_encoding default_errors with
  | inr text => inr (url_pattern text)
  | inl e => inl e
  end.

(** [split_nvr]: the pattern is
    [(?P<name>.+)-(?P<version>[^-]+)-(?P<release>[^-]+)$]. *)
Definition not_newline (c : ascii) : bool := negb (ord c =? 10)%N.
Definition not_dash (c : ascii) : bool := negb (ord c =? 45)%N.
Definition split_nvr (build : string) : string * string * string :=
  let pattern :=
    re_plus not_newline (fun name =>
      re_lit "-" (
        re_plus not_dash (fun version =>
          re_lit "-" (
            re_plus not_dash (fun release rest =>
              if re_at_end rest then Some (name, version, release) else None)
              EmptyString))
          EmptyString))
      EmptyString in
  match pattern build with
  | Some groups => groups
  | None => (EmptyString, EmptyString, EmptyString)
  end.

(** ** Texts: prefixes, suffixes, replacement, formatting *)

Definition chars (s : string) : list ascii := list_ascii_of_string s.

(** [s.startswith(prefix)] and [s.endswith(suffix)] *)
Definition startswith (s prefix : string) : bool :=
  bool_decide (chars prefix `prefix_of` chars s).
Definition endswith (s suffix : string) : bool :=
  bool_decide (chars suffix `suffix_of` chars s).

(** [s.replace(old, new)] for an [old] of one character *)
Fixpoint str_replace_char (old : ascii) (new : string) (s : string) : string :=
  match s with
  | EmptyString => EmptyString
  | String c r =>
      if (ord c =? ord old)%N
      then (new ++ str_replace_char old new r)%string
      else String c (str_replace_char old new r)
  end.

(** [fmt % arg] for one text argument: [%s] takes the argument, [%%]
    is a percent sign; exactly one [%s] must be there.  Other
    conversions are outside this model and made to raise. *)
Fixpoint percent_format_go (fmt : string) (arg : option string)
    : exn + string :=
  match fmt with
  | EmptyString =>
      match arg with
      | Some _ => inl (TypeError "not all arguments converted during string formatting")
      | None => inr EmptyString
      end
  | String c r =>
      if (ord c =? 37)%N then
        match r with
        | String d r' =>
            if (ord d =? 115)%N then
              match arg with
              | Some a =>
                  match percent_format_go r' None with
                  | inr t => inr (a ++ t)%string
                  | inl e => inl e
                  end
              | None => inl (TypeError "not enough arguments for format string")
              end
            else if (ord d =? 37)%N then
              match percent_format_go r' arg with
              | inr t => inr (String d t)
              | inl e => inl e
              end
            else inl (OtherError "conversion outside the model")
        | EmptyString => inl (ValueError "incomplete format")
        end
      else
        match percent_format_go r arg with
        | inr t => inr (String c t)
        | inl e => inl e
        end
  end.
Definition percent_format (fmt arg : string) : exn + string :=
  percent_format_go fmt (Some arg).

(** ** shell_quote

    [shlex.quote]: the empty text becomes a pair of single quotes, a
    text of safe characters only ([[A-Za-z0-9_@%+=:,./-]]) is left
    alone, any other is put in single quotes, each single quote of its
    own leaving them for a pair of double quotes. *)
Definition shell_safe (c : ascii) : bool :=
  let n := ord c in
  ((97 <=? n) && (n <=? 122) || (65 <=? n) && (n <=? 90)
   || (48 <=? n) && (n <=? 57) || (n =? 95)
   || (n =? 64) || (n =? 37) || (n =? 43) || (n =? 61) || (n =? 58)
   || (n =? 44) || (n =? 46) || (n =? 47) || (n =? 45))%N.

Definition single_quote : ascii := ascii_of_N 39.
Definition double_quote : ascii := ascii_of_N 34.
Definition quoted_single_quote : string :=
  String single_quote (String double_quote (String single_quote
    (String double_quote (String single_quote EmptyString)))).

Definition shell_quote (s : string) : string :=
  if String.eqb s "" then "''"
  else if all_chars shell_safe s then s
  else (String single_quote
          (str_replace_char single_quote quoted_single_quote s)
        ++ String single_quote EmptyString)%string.

(** ** super_unpack *)

Definition handlers : list (string * string) :=
  [(".tar.bz2", "tar xjf %s");
   (".tar.gz",  "tar xzf %s");
   (".bz2",     "bunzip2 %s");
   (".rar",     "unrar x %s");
   (".gz",      "gunzip %s");
   (".tar",     "tar xf %s");
   (".tbz2",    "tar xjf %s");
   (".tgz",     "tar xzf %s");
   (".zip",     "unzip %s");
   (".Z",       "uncompress %s");
   (".7z",      "7z x %s");
   (".tar.xz",  "xz -d %s -c | tar xf -");
   (".xz",      "xz -d %s");
   (".rpm",     "rpm2cpio %s | cpio -id")]%string.

Section super_unpack.
Variable os : os_model.

(** The inner loop: the first handler whose extension the file name
    ends with is run, through the shell, and the search stops; its
    exit status is dropped. *)
Fixpoint unpack_with (handlers : list (string * string)) (cf : string)
    : M unit :=
  match handlers with
  | [] => ret tt
  | (ext, cmd) :: handlers' =>
      if endswith cf ext then
        command <- lift_sum (percent_format cmd (shell_quote cf)) ;;
        subprocess_call os [PStr command] {["shell" := PBool true]} ;;
        ret tt
      else unpack_with handlers' cf
  end.

Fixpoint super_unpack (compressed_files : list string) : M unit :=
  match compressed_files with
  | [] => ret tt
  | cf :: rest => unpack_with handlers cf ;; super_unpack rest
  end.

End super_unpack.

(** ** Lists

    Indexing a list by an integer: a negative index counts from the
    end.  [list.pop] takes its index as a machine integer and
    complains otherwise with OverflowError. *)
Definition as_index (v : pyval) : exn + Z :=
  match v with
  | PInt i => inr i
  | PBool b => inr (if b then 1 else 0)%Z
  | _ => inl (TypeError "object cannot be interpreted as an integer")
  end.

Definition fits_ssize_t (i : Z) : bool :=
  ((- 2 ^ 63 <=? i) && (i <? 2 ^ 63))%Z.

Definition normal_index (n : nat) (i : Z) : option nat :=
  let j := (if i <? 0 then i + Z.of_nat n else i)%Z in
  if ((0 <=? j) && (j <? Z.of_nat n))%Z then Some (Z.to_nat j) else None.

Definition list_getitem (l : list pyval) (idx : pyval) : exn + pyval :=
  match as_index idx with
  | inl _ => inl (TypeError "list indices must be integers or slices")
  | inr i =>
      if fits_ssize_t i then
        match normal_index (length l) i with
        | Some k =>
            match l !! k with
            | Some v => inr v
            | None => inl (IndexError "list index out of range")
            end
        | None => inl (IndexError "list index out of range")
        end
      else inl (IndexError "cannot fit 'int' into an index-sized integer")
  end.

(** [list.pop(l, idx)]: the outcome and the list afterwards *)
Definition list_pop (l : list pyval) (idx : pyval)
    : (exn + pyval) * list pyval :=
  match as_index idx with
  | inl e => (inl e, l)
  | inr i =>
      if fits_ssize_t i then
        match l with
        | [] => (inl (IndexError "pop from empty list"), l)
        | _ =>
            match normal_index (length l) i with
            | Some k =>
                match l !! k with
                | Some v => (inr v, delete k l)
                | None => (inl (IndexError "pop index out of range"), l)
                end
            | None => (inl (IndexError "pop index out of range"), l)
            end
        end
      else (inl (OtherError "OverflowError"), l)
  end.

(** ** safelist *)

Definition safelist_get (self : list pyval) (idx : pyval) (default : pyval)
    : exn + pyval :=
  match list_getitem self idx with
  | inl e => if is_IndexError e then inr default else inl e
  | inr v => inr v
  end.

(** [pop] with the tuple of its arguments: [args[0]] is looked up
    inside the [try], so an empty tuple ends in the handler too. *)
Definition safelist_pop (self : list pyval) (args : list pyval)
    : (exn + pyval) * list pyval :=
  let attempt :=
    match args !! 0 with
    | Some idx => list_pop self idx
    | None => (inl (IndexError "tuple index out of range"), self)
    end in
  match attempt with
  | (inl e, self') =>
      if is_IndexError e then
        if bool_decide (length args < 2) then (inl e, self')
        else
          match args !! 1 with
          | Some default => (inr default, self')
          | None => (inl (IndexError "tuple index out of range"), self')
          end
      else (inl e, self')
  | r => r
  end.

(** ** Paths

    [os.path.join] of two components and [os.path.split], as
    [posixpath] defines them; [s.split(sep)] for a separator of one
    character. *)
Definition is_sep (c : ascii) : bool := (ord c =? 47)%N.

Definition path_join (a b : string) : string :=
  if startswith b "/" then b
  else if String.eqb a "" || endswith a "/" then (a ++ b)%string
  else (a ++ "/" ++ b)%string.

(** [p[:i], p[i:]] for [i = p.rfind('/') + 1] *)
Fixpoint split_after_last_sep (p : string) : string * string :=
  match p with
  | EmptyString => (EmptyString, EmptyString)
  | String c r =>
      let (head, tail) := split_after_last_sep r in
      if negb (String.eqb head "") then (String c head, tail)
      else if is_sep c then (String c EmptyString, r)
      else (EmptyString, String c r)
  end.

Fixpoint rstrip_sep (s : string) : string :=
  match s with
  | EmptyString => EmptyString
  | String c r =>
      match rstrip_sep r with
      | EmptyString => if is_sep c then EmptyString else String c EmptyString
      | r' => String c r'
      end
  end.

Definition path_split (p : string) : string * string :=
  let (head, tail) := split_after_last_sep p in
  if negb (String.eqb head "") && negb (all_chars is_sep head)
  then (rstrip_sep head, tail)
  else (head, tail).

Definition str_split (sep : ascii) (s : string) : list string :=
  re_split_class (fun c => (ord c =? ord sep)%N) EmptyString s.

(** ** find_files, find_file, which

    The file system answers two questions here: whether a path names
    a regular file, and whether the process may execute it. *)
Section files.
Variable isfile : string -> bool.
Variable access_X_OK : string -> bool.
Variable DATA_FILE_SEARCH_PATH : list string.

Fixpoint find_files_loop (filename : string) (paths : list string)
    (matches : list string) : list string :=
  match paths with
  | [] => matches
  | p :: paths' =>
      let j := path_join p filename in
      find_files_loop filename paths'
        (if isfile j then matches ++ [j] else matches)
  end.

Definition find_files (filename : string) (paths : option (list string))
    (strict : bool) : exn + list string :=
  let paths := match paths with
               | None => DATA_FILE_SEARCH_PATH
               | Some paths => paths
               end in
  let matches := find_files_loop filename paths [] in
  if match matches with [] => true | _ => false end && strict
  then inl (OtherError "FileNotFoundInSearchPathError")
  else inr matches.

Definition find_file (filename : string) (paths : option (list string))
    (strict : bool) : exn + option string :=
  match find_files filename paths strict with
  | inl e => inl e
  | inr matches =>
      match matches with
      | m :: _ => inr (Some m)
      | [] => inr None
      end
  end.

Definition is_exe (f_path : string) : bool :=
  isfile f_path && access_X_OK f_path.

Fixpoint which_loop (program : string) (paths : list string)
    : option string :=
  match paths with
  | [] => None
  | path :: paths' =>
      let exe_file := path_join path program in
      if is_exe exe_file then Some exe_file else which_loop program paths'
  end.

Definition which (program : string) : M (option string) :=
  let (fpath, _) := path_split program in
  if negb (String.eqb fpath "") then
    if is_exe program then ret (Some program) else ret None
  else
    w <- get_world ;;
    match environ w !! "PATH" with
    | None => raise (OtherError "KeyError")
    | Some PATH => ret (which_loop program (str_split ":" PATH))
    end.

End files.

(** ** The console

    What the user will type, line by line, and what has been shown
    so far.  [print] adds its text and a newline; [input] shows the
    prompt and takes the next line, or raises EOFError when there is
    none. *)
Record console := Console {
  pending : list string;
  shown : list string;
}.

Definition newline : string := String (ascii_of_N 10) EmptyString.

(** [str.lower] on the code points below 256 *)
Definition lower_char (c : ascii) : ascii :=
  let n := ord c in
  if ((65 <=? n) && (n <=? 90)
      || (192 <=? n) && (n <=? 222) && negb (n =? 215))%N
  then ascii_of_N (n + 32) else c.
Fixpoint lower (s : string) : string :=
  match s with
  | EmptyString => EmptyString
  | String c r => String (lower_char c) (lower r)
  end.

Definition is_None (v : pyval) : bool :=
  match v with PNone => true | _ => false end.

(** ** ask, ask_yn *)

(** One round of the loop per line typed: the question and the prompt
    are shown, the answer is stripped and lower-cased; an empty answer
    with a default returns the default; an answer that begins a
    choice, or that a choice begins, is returned; any other answer
    leads to the next round. *)
Fixpoint ask_loop (question prompt : string) (choices_lc : list string)
    (default : pyval) (lines : list string) (out : list string)
    : (exn + pyval) * console :=
  let out' := out ++ [(question ++ newline)%string; prompt] in
  match lines with
  | [] => (inl (OtherError "EOFError"), Console [] out')
  | line :: rest =>
      let user_choice := lower (strip line) in
      if String.eqb user_choice "" && negb (is_None default) then
        (inr default, Console rest out')
      else if existsb (fun choice => startswith user_choice choice
                                     || startswith choice user_choice)
                choices_lc then
        (inr (PStr user_choice), Console rest out')
      else ask_loop question prompt choices_lc default rest out'
  end.

Definition ask (question : string) (choices : list string) (default : pyval)
    (con : console) : (exn + pyval) * console :=
  let choices_lc := lower <$> choices in
  ask_loop question ("[" ++ String.concat "/" choices ++ "] ? ")%string
    choices_lc default (pending con) (shown con).

Definition ask_yn (question : string) (con : console)
    : (exn + bool) * console :=
  match ask question ["y"; "n"]%string PNone con with
  | (inr (PStr user_choice), con') =>
      (inr (if startswith user_choice "y" then true else false), con')
  | (inr _, con') =>
      (inl (AttributeError "object has no attribute 'startswith'"), con')
  | (inl e, con') => (inl e, con')
  end.

(** ** Texts: membership, splitting once, stripping given characters *)

(** [needle in hay] *)
Fixpoint str_contains (needle hay : string) : bool :=
  startswith hay needle ||
  match hay with
  | EmptyString => false
  | String _ r => str_contains needle r
  end.

(** [s.split(sep, 1)] for an [s] that holds [sep]: what is before the
    first separator and what is after it. *)
Fixpoint split_once (sep : ascii) (s : string) : string * string :=
  match s with
  | EmptyString => (EmptyString, EmptyString)
  | String c r =>
      if (ord c =? ord sep)%N then (EmptyString, r)
      else let (key, value) := split_once sep r in (String c key, value)
  end.

(** [s.strip(chars)] *)
Fixpoint lstrip_chars (cls : ascii -> bool) (s : string) : string :=
  match s with
  | String c r => if cls c then lstrip_chars cls r else s
  | EmptyString => EmptyString
  end.
Fixpoint rstrip_chars (cls : ascii -> bool) (s : string) : string :=
  match s with
  | String c r =>
      match rstrip_chars cls r with
      | EmptyString => if cls c then EmptyString else String c EmptyString
      | r' => String c r'
      end
  | EmptyString => EmptyString
  end.
Definition strip_chars (cls : ascii -> bool) (s : string) : string :=
  rstrip_chars cls (lstrip_chars cls s).

Definition is_double_quote (c : ascii) : bool := (ord c =? 34)%N.

(** ** get_local_machine_dver, get_local_machine_release

    [read_file] is what opening a file for reading and reading it to
    the end gives: its text, or the error raised. *)
Section os_release.
Variable read_file : string -> exn + string.

Definition slurp (filename : string) : exn + string := read_file filename.

Fixpoint os_release_loop (lines : list string) (os_release : gmap string string)
    : gmap string string :=
  match lines with
  | [] => os_release
  | line :: lines' =>
      if str_contains "=" line then
        let (key, value) := split_once "=" line in
        os_release_loop lines' (<[key := strip_chars is_double_quote value]> os_release)
      else os_release_loop lines' os_release
  end.

Definition get_local_machine_dver : exn + string :=
  match slurp "/etc/os-release" with
  | inl e => if is_OSError e then inr EmptyString else inl e
  | inr os_release_contents =>
      if String.eqb os_release_contents "" then inr EmptyString
      else
        let os_release :=
          os_release_loop (str_split (ascii_of_N 10) os_release_contents) ∅ in
        let version_id := default EmptyString (os_release !! "VERSION_ID") in
        if String.eqb version_id "" then inr EmptyString
        else
          match str_split "." version_id with
          | major_version :: _ =>
              if str_contains "rhel"
                   (default EmptyString (os_release !! "ID_LIKE"))
              then percent_format "el%s" major_version
              else if bool_decide (os_release !! "ID" = Some "fedora"%string)
              then percent_format "fc%s" major_version
              else inr EmptyString
          | [] => inl (IndexError "list index out of range")
          end
  end.

Definition get_local_machine_release : exn + Z :=
  match get_local_machine_dver with
  | inl e => inl e
  | inr dver =>
      match re_search_plus is_digit dver with
      | Some digits => int_of_str digits
      | None => inr 0%Z
      end
  end.

End os_release.

(** * Vocabulary of the statements *)

(** The status of a pipeline in the specification's words: zero when
    every status is zero, otherwise the first nonzero status met when
    scanning from the left. *)
Fixpoint pipeline_status (statuses : list Z) : Z :=
  match statuses with
  | [] => 0
  | s :: rest => if (s =? 0)%Z then pipeline_status rest else s
  end.

(** The keyword options the spawn primitive accepts. *)
Definition Popen_keywords : gset string :=
  list_to_set (Popen_positional ++ Popen_kwonly).
Definition popen_options (kw : gmap string pyval) : Prop :=
  dom kw ⊆ Popen_keywords ∖ {["args"]}.

(** The world after a successful [Popen] with bound parameters
    [params] that the operating system answered with child [c]. *)
Definition spawned (params : gmap string pyval) (c : child) (w : world)
    : world :=
  let pid := length (procs w) in
  let piped := is_PIPE (params !! "stdout") in
  set_open_pipes (if piped then {[pid]} ∪ open_pipes w else open_pipes w)
    (set_procs (procs w ++ [PopenObj params c
                              (if piped then PPipe pid else PNone)])
       (set_requests (requests w ++ [params]) w)).

(** The process table holds, from pid [p0] on, [n] objects whose
    children are the ones [children] names. *)
Definition tracked (children : nat -> child) (p0 n : nat) (w : world) : Prop :=
  length (procs w) = p0 + n
  /\ forall j, j < n ->
       exists po, procs w !! (p0 + j) = Some po
                  /\ po_child po = children (p0 + j).

(** Machines for the examples: the i-th child spawned exits with the
    i-th status of a list and terminates at the i-th instant of
    another; every directory can be entered by its name. *)
Definition scripted_child (statuses : list Z) (finish : list nat)
    (out : pyval) (i : nat) : child :=
  Child (nth i statuses 0%Z) (nth i finish 0) out PNone.
Definition scripted_os (children : nat -> child) : os_model :=
  OS (fun w _ => inr (children (length (procs w)))) (fun _ path => Some path).
Definition world0 : world := World "/home" [] ∅ [] [] ∅ [] 0.

(** The child terminates before the timeout given to [wait], if any. *)
Definition completes (timeout : option pyval) (w : world) (c : child) : Prop :=
  match timeout with
  | None | Some PNone => True
  | Some (PInt t) => finish_time c ≤ clock w + Z.to_nat t
  | Some _ => False
  end.

(** The world after [subprocess.call] has spawned the child, waited
    for it and closed the pipe it may have been asked to open. *)
Definition after_call (params : gmap string pyval) (c : child) (w : world)
    : world :=
  let w1 := set_clock (clock w `max` finish_time c) (spawned params c w) in
  if is_PIPE (params !! "stdout")
  then set_open_pipes (open_pipes w1 ∖ {[length (procs w)]}) w1
  else w1.

(** The world once [checked_backtick] has copied its keyword
    dictionary and the copy holds [d]. *)
Definition with_copy (d : gmap string pyval) (w : world) : world :=
  set_dicts (dicts w ++ [d]) w.

(** The command [checked_backtick] passes to Popen. *)
Definition backtick_cmd (cmd : pyval) (kw : gmap string pyval) : exn + pyval :=
  match cmd with
  | PStr s =>
      if bool_decide ("shell" ∉ dom kw) then
        match shlex_split s with
        | inr toks => inr (PList (PStr <$> toks))
        | inl e => inl e
        end
      else inr cmd
  | _ => inr cmd
  end.

(** The stages of [sp_kwargs]. *)
Definition sp_stdout (kw : gmap string pyval) : gmap string pyval :=
  <["stdout" := subprocess_PIPE]> (delete "nostrip" kw).
Definition sp_err2out (kw : gmap string pyval) : gmap string pyval :=
  if truthy (default (PBool false) (sp_stdout kw !! "err2out"))
  then <["stderr" := subprocess_STDOUT]> (delete "err2out" (sp_stdout kw))
  else delete "err2out" (sp_stdout kw).
Definition sp_clocale (kw : gmap string pyval) : gmap string pyval :=
  delete "clocale" (sp_err2out kw).
Definition clocale_on (kw : gmap string pyval) : bool :=
  truthy (default (PBool true) (sp_err2out kw !! "clocale")).
Definition locale_overrides : list (string * pyval) :=
  [("LC_ALL", PStr "C"); ("LANG", PStr "C")].
Definition sp_base_env (w : world) (kw : gmap string pyval) : pyval :=
  default (environ_value w) (sp_clocale kw !! "env").

(** The second half of [checked_backtick], from the log line on. *)
Definition backtick_tail (os : os_model) (args : list pyval) (kwargs : nat)
    (nostrip cmd : pyval) (sp_kwargs : nat) : M pyval :=
  percent_s cmd ;;
  sp <- dict_load sp_kwargs ;;
  proc <- Popen os (cmd :: tail args) sp ;;
  out <- Popen_communicate proc ;;
  output <- lift_sum (maybe_to_str out.1 default_encoding default_errors) ;;
  output <- (if negb (truthy nostrip) then py_strip output else ret output) ;;
  err <- Popen_returncode proc ;;
  if negb (err =? 0)%Z then
    kw <- dict_load kwargs ;;
    raise (CalledProcessError [PTuple args; PDict kw] err output)
  else ret output.

Definition sp_final (env : gmap string pyval) (kw : gmap string pyval)
    : gmap string pyval :=
  <["env" := PDict env]> (delete "env" (sp_clocale kw)).

(** What [checked_backtick] makes of the captured output. *)
Definition backtick_output (nostrip out : pyval) : exn + pyval :=
  match maybe_to_str out default_encoding default_errors with
  | inl e => inl e
  | inr output =>
      if negb (truthy nostrip) then
        match output with
        | PStr s => inr (PStr (strip s))
        | _ => inl (AttributeError "object has no attribute 'strip'")
        end
      else inr output
  end.

Definition stty_env (w : world) : gmap string pyval :=
  <["LANG" := PStr "C"]> (<["LC_ALL" := PStr "C"]> (PStr <$> environ w)).
Definition stty_kwargs (w : world) : gmap string pyval :=
  <["env" := PDict (stty_env w)]> {["stdout" := subprocess_PIPE]}.

(** More machines and worlds for the examples. *)
Definition constant_os (answer : exn + child) : os_model :=
  OS (fun _ _ => answer) (fun _ path => Some path).
Definition tty_child : child :=
  Child 0 1 (PBytes [x32; x34; x20; x31; x33; x32; x0a]) PNone.
Definition world_columns (v : string) : world :=
  World "/home" [] {["COLUMNS" := v]} [] [] ∅ [] 0.
Definition world_german : world :=
  World "/home" [] {["LANG" := "de_DE.UTF-8"]} [∅] [] ∅ [] 0.
Definition world_options : world :=
  World "/home" []  ∅
    [<["nostrip" := PBool true]> (<["clocale" := PBool false]> ∅)] [] ∅ [] 0.

Fixpoint pushd_each (os : os_model) (dirs : list string) : M unit :=
  match dirs with
  | [] => ret tt
  | d :: dirs' => pushd os d ;; pushd_each os dirs'
  end.

Fixpoint popd_times (os : os_model) (n : nat) : M unit :=
  match n with
  | 0 => ret tt
  | S n' => popd os ;; popd_times os n'
  end.

Definition pipeline_stdin (stdin : pyval) (p0 i : nat) : pyval :=
  if bool_decide (i = 0) then stdin else PPipe (p0 + i - 1).
Definition pipeline_stdout (stdout : pyval) (n i : nat) : pyval :=
  if bool_decide (S i = n) then stdout else subprocess_PIPE.

(** The request made for command [cmd], the [j]-th of [n]. *)
Definition wired_request (kw : gmap string pyval) (stdin stdout : pyval)
    (p0 n j : nat) (cmd : pyval) (rq : gmap string pyval) : Prop :=
  rq !! "args" = Some cmd
  /\ rq !! "stdin" = Some (pipeline_stdin stdin p0 j)
  /\ rq !! "stdout" = Some (pipeline_stdout stdout n j)
  /\ forall k v, kw !! k = Some v -> k <> "stdin" -> k <> "stdout" ->
       rq !! k = Some v.

Definition wired (kw : gmap string pyval) (stdin stdout : pyval)
    (all : list pyval) (p0 r0 : nat) (pipes0 : gset nat) (i : nat)
    (w : world) : Prop :=
  length (requests w) = r0 + i
  /\ (forall j cmd, j < i -> all !! j = Some cmd ->
        exists rq, requests w !! (r0 + j) = Some rq
                   /\ wired_request kw stdin stdout p0 (length all) j cmd rq)
  /\ open_pipes w
     = (if bool_decide (0 < i)
           && is_PIPE (Some (pipeline_stdout stdout (length all) (i - 1)))
        then {[p0 + i - 1]} ∪ pipes0 else pipes0).

Definition loop_inv (children : nat -> child) (kw : gmap string pyval)
    (stdin stdout : pyval) (all : list pyval) (p0 r0 : nat)
    (pipes0 : gset nat) (i : nat) (w : world) : Prop :=
  tracked children p0 i w
  /\ wired kw stdin stdout all p0 r0 pipes0 i w
  /\ (0 < i -> i < length all ->
      exists po, procs w !! (p0 + i - 1) = Some po
                 /\ po_stdout po = PPipe (p0 + i - 1)).

(** The options of [checked_backtick] that are its own. *)
Definition without_own_options (kw : gmap string pyval) : gmap string pyval :=
  delete "nostrip" (delete "err2out" (delete "clocale" kw)).

(** The keyword dictionary [checked_backtick] hands to Popen. *)
Definition sp_kwargs_of (w : world) (kw : gmap string pyval)
    : exn + gmap string pyval :=
  if clocale_on kw then
    match dict_from (sp_base_env w kw) locale_overrides with
    | inr env => inr (sp_final env kw)
    | inl e => inl e
    end
  else inr (sp_clocale kw).

(** A machine on which no directory can be entered. *)
Definition locked_os : os_model :=
  OS (fun _ _ => inr tty_child) (fun _ _ => None).

(** Two commands that both succeed. *)
Definition ls_wc : list pyval := [PList [PStr "ls"]; PList [PStr "wc"]].
Definition ls_wc_os : os_model :=
  scripted_os (scripted_child [0%Z; 0%Z] [1; 2] PNone).

(** Counting the characters of a class *)
Fixpoint count_chars (cls : ascii -> bool) (s : string) : nat :=
  match s with
  | EmptyString => 0
  | String c r => (if cls c then 1 else 0) + count_chars cls r
  end.

Definition is_dash (c : ascii) : bool := (ord c =? 45)%N.

(** What counts as an item of a list option. *)
Definition list_item (item : string) : Prop :=
  item <> EmptyString /\
  all_chars (fun c => negb (list_separator c)) item = true.

(** Whether [shell_quote] wraps the text in quotes. *)
Definition needs_quotes (s : string) : bool :=
  String.eqb s "" || negb (all_chars shell_safe s).

(** The parameters of a command line handed to the shell. *)
Definition shell_request (command : string) : gmap string pyval :=
  {["args" := PStr command]} ∪ {["shell" := PBool true]} ∪ Popen_defaults.

Definition has_handler (cf : string) : bool :=
  existsb (fun h => endswith cf h.1) handlers.

(** The position an index denotes in a list of [n] items. *)
Definition in_range (n : nat) (i : Z) : Prop := (- Z.of_nat n <= i < Z.of_nat n)%Z.
Definition position (n : nat) (i : Z) : nat :=
  Z.to_nat (if (i <? 0)%Z then i + Z.of_nat n else i)%Z.

Definition has_sep (p : string) : bool := negb (all_chars (fun c => negb (is_sep c)) p).
Definition is_colon (c : ascii) : bool := (ord c =? ord ":"%char)%N.
Definition no_colon (d : string) : Prop :=
  all_chars (fun c => negb (is_colon c)) d = true.

(** A machine whose PATH is [/bin:/usr/bin] and whose only executable
    is [/usr/bin/ls]. *)
Definition world_path : world :=
  World "/home" [] {["PATH" := "/bin:/usr/bin"%string]} [] [] ∅ [] 0.
Definition only_ls (path : string) : bool := String.eqb path "/usr/bin/ls".

(** The answers a yes/no question takes. *)
Definition yn_accepts (u : string) : bool :=
  String.eqb u "" || startswith u "y" || startswith u "n".

(** Whether an answer fits a choice: one begins the other. *)
Definition fits_choice (user_choice choice : string) : bool :=
  startswith user_choice (lower choice) || startswith (lower choice) user_choice.

(** The number a run of decimal digits writes. *)
Definition decimal (digits : string) : Z :=
  fold_left (fun acc c => (10 * acc + (Z.of_N (ord c) - 48))%Z) (chars digits) 0%Z.

(** The [/etc/os-release] of an Enterprise Linux 8 machine. *)
Definition os_release_el8 : string :=
  String.concat newline
    ["NAME=Rocky"; "ID_LIKE=rhel centos fedora"; "VERSION_ID=8.6"; ""]%string.
Definition el8_files (filename : string) : exn + string :=
  if String.eqb filename "/etc/os-release" then inr os_release_el8
  else inl (OSError "No such file or directory").

(** The world in which the operating system receives the request
    [params] of [checked_backtick], whose copy of the keyword
    dictionary holds [d]. *)
Definition at_request (d params : gmap string pyval) (w : world) : world :=
  set_requests (requests (with_copy d w) ++ [params]) (with_copy d w).

(** The process table once the child [c] asked for with [params] and a
    captured standard output has been added to the one of [w]. *)
Definition with_captured_child (params : gmap string pyval) (c : child)
    (w : world) : list popen :=
  procs w ++ [PopenObj params c (PPipe (length (procs w)))].

(** A machine on which /tmp can be entered and nothing else. *)
Definition one_way_os : os_model :=
  OS (fun _ _ => inr tty_child)
     (fun _ path => if String.eqb path "/tmp" then Some path else None).

(** * Properties *)

(** ** Running computations *)

Lemma bind_return {A B} (m : M A) (k : A -> M B) w a w' :
  m w = (Return a, w') -> bind m k w = k a w'.
Proof. intros H. unfold bind. now rewrite H. Qed.

Lemma bind_raise {A B} (m : M A) (k : A -> M B) w e w' :
  m w = (Raise e, w') -> bind m k w = (Raise e, w').
Proof. intros H. unfold bind. now rewrite H. Qed.

Lemma set_dicts_same w : set_dicts (dicts w) w = w.
Proof. now destruct w. Qed.

Lemma set_dir_stack_cwd_same w :
  set_cwd (cwd w) (set_dir_stack (dir_stack w) w) = w.
Proof. now destruct w. Qed.

(** ** Decoding captured bytes *)

Lemma ord_ascii_of_byte (b : byte) : ord (ascii_of_byte b) = Byte.to_N b.
Proof. now destruct b. Qed.

Lemma bytes_decode_latin1 (bs : list byte) (errors : error_handler) :
  bytes_decode bs Latin1 errors = inr (string_of_list_byte bs).
Proof.
  induction bs as [|b bs IH]; simpl; [reflexivity|].
  now rewrite IH.
Qed.

Lemma length_string_of_list_byte (bs : list byte) :
  String.length (string_of_list_byte bs) = length bs.
Proof.
  induction bs as [|b bs IH]; [reflexivity|].
  change (S (String.length (string_of_list_byte bs)) = S (length bs)).
  now rewrite IH.
Qed.

Lemma list_ascii_of_list_byte (bs : list byte) :
  list_ascii_of_string (string_of_list_byte bs) = ascii_of_byte <$> bs.
Proof.
  induction bs as [|b bs IH]; [reflexivity|].
  change (ascii_of_byte b :: list_ascii_of_string (string_of_list_byte bs)
          = ascii_of_byte b :: (ascii_of_byte <$> bs)).
  now rewrite IH.
Qed.

(** C4 (as amended): decoding captured bytes with the defaults of
    [maybe_to_str] and [to_str] never raises; the text has one
    character per byte, each with the byte's own number as its code
    point; and it shows a backslash exactly where the bytes held one,
    so no escape is ever written for any byte. *)
Theorem decode_total_without_escapes (bs : list byte) :
  maybe_to_str (PBytes bs) default_encoding default_errors
    = inr (PStr (string_of_list_byte bs))
  /\ (forall builtin_str,
        to_str builtin_str (PBytes bs) default_encoding default_errors
          = inr (string_of_list_byte bs))
  /\ String.length (string_of_list_byte bs) = length bs
  /\ (forall i b, bs !! i = Some b ->
        ord <$> (list_ascii_of_string (string_of_list_byte bs) !! i)
          = Some (Byte.to_N b))
  /\ has_backslash (string_of_list_byte bs)
       = existsb (fun b => (Byte.to_N b =? 92)%N) bs.
Proof.
  unfold maybe_to_str, to_str, default_encoding, default_errors.
  rewrite bytes_decode_latin1. repeat split.
  - apply length_string_of_list_byte.
  - intros i b Hi. rewrite list_ascii_of_list_byte, list_lookup_fmap, Hi.
    simpl. now rewrite ord_ascii_of_byte.
  - unfold has_backslash. rewrite list_ascii_of_list_byte.
    induction bs as [|b bs IH]; [reflexivity|].
    cbn [fmap list_fmap existsb]. now rewrite ord_ascii_of_byte, IH.
Qed.

(** C4, as stated, fails: the two bytes FF FE are not well-formed
    UTF-8 (nor ASCII), yet they decode to two ordinary characters and
    the text shows no backslash escape. *)
Lemma invalid_bytes_decode_without_escape :
  ~ (forall bs : list byte,
       utf8_valid bs = false ->
       exists s, maybe_to_str (PBytes bs) default_encoding default_errors
                   = inr (PStr s)
                 /\ has_backslash s = true).
Proof.
  intros H. destruct (H [xff; xfe] eq_refl) as (s & Hs & Hb).
  vm_compute in Hs. injection Hs as <-. vm_compute in Hb. discriminate.
Qed.

(** ** Spawning and waiting *)

Lemma Popen_bind_cmd cmd (K : gmap string pyval) :
  popen_options K ->
  Popen_bind [cmd] K = inr ({["args" := cmd]} ∪ K ∪ Popen_defaults).
Proof.
  intros HK. unfold Popen_bind, bind_arguments.
  rewrite bool_decide_eq_false_2 by (simpl; lia).
  change (list_to_map (zip Popen_positional [cmd]) : gmap string pyval)
    with (<["args" := cmd]> (∅ : gmap string pyval)).
  rewrite insert_empty.
  rewrite bool_decide_eq_false_2.
  2:{ intros Hn. apply Hn. unfold popen_options in HK. rewrite dom_singleton_L. set_solver. }
  rewrite bool_decide_eq_false_2.
  2:{ intros Hn. apply Hn. unfold popen_options, Popen_keywords in HK. set_solver. }
  rewrite bool_decide_eq_false_2.
  2:{ intros Hn. apply Hn. generalize Popen_defaults. intros D.
      rewrite !dom_union_L, dom_singleton_L. set_solver. }
  reflexivity.
Qed.

Ltac run := unfold bind, get_world, modify_world, lift_sum, ret, raise; cbn [fst snd].

Section runs.
Variable os : os_model.

Lemma Popen_run args kwargs params c w :
  Popen_bind args kwargs = inr params ->
  os_spawn os (set_requests (requests w ++ [params]) w) params = inr c ->
  Popen os args kwargs w = (Return (length (procs w)), spawned params c w).
Proof.
  intros Hb Hs. unfold Popen. rewrite Hb. run. rewrite Hs. reflexivity.
Qed.

Lemma Popen_bind_fails args kwargs e w :
  Popen_bind args kwargs = inl e ->
  Popen os args kwargs w = (Raise e, w).
Proof. intros Hb. unfold Popen. rewrite Hb. reflexivity. Qed.

Lemma Popen_spawn_fails args kwargs params e w :
  Popen_bind args kwargs = inr params ->
  os_spawn os (set_requests (requests w ++ [params]) w) params = inl e ->
  Popen os args kwargs w = (Raise e, set_requests (requests w ++ [params]) w).
Proof.
  intros Hb Hs. unfold Popen. rewrite Hb. run. rewrite Hs. reflexivity.
Qed.

Lemma Popen_get_stdout_run p po w :
  procs w !! p = Some po ->
  Popen_get_stdout p w = (Return (po_stdout po), w).
Proof.
  intros H. unfold Popen_get_stdout, Popen_object. run. now rewrite H.
Qed.

Lemma Popen_set_stdout_run p po v w :
  procs w !! p = Some po ->
  Popen_set_stdout p v w
  = (Return tt,
     set_procs (<[p := PopenObj (po_params po) (po_child po) v]> (procs w)) w).
Proof.
  intros H. unfold Popen_set_stdout, Popen_object. run. now rewrite H.
Qed.

Lemma Popen_wait_run p po w :
  procs w !! p = Some po ->
  Popen_wait p PNone w
  = (Return (exit_status (po_child po)),
     set_clock (clock w `max` finish_time (po_child po)) w).
Proof.
  intros H. unfold Popen_wait, Popen_object. run. now rewrite H.
Qed.

Lemma first_failure_run rets w :
  first_failure rets w = (Return (pipeline_status rets), w).
Proof.
  induction rets as [|s rets IH]; [reflexivity|].
  unfold first_failure in *. simpl. unfold nonzero at 1 3.
  destruct (s =? 0)%Z; simpl; [exact IH | reflexivity].
Qed.

End runs.

Lemma popen_options_wiring (a b : pyval) (kw : gmap string pyval) :
  popen_options kw ->
  popen_options (<["stdin" := a]> (<["stdout" := b]> kw)).
Proof.
  unfold popen_options. intros H. rewrite !dom_insert_L.
  assert ("stdin" ∈ Popen_keywords ∖ {["args"]}) by
    (unfold Popen_keywords, Popen_positional, Popen_kwonly;
     cbn [app list_to_set]; set_solver).
  assert ("stdout" ∈ Popen_keywords ∖ {["args"]}) by
    (unfold Popen_keywords, Popen_positional, Popen_kwonly;
     cbn [app list_to_set]; set_solver).
  set_solver.
Qed.

Lemma index_from_end_last {A} (l : list A) (x : A) w :
  index_from_end (l ++ [x]) 1 w = (Return x, w).
Proof.
  unfold index_from_end, index. rewrite rev_app_distr. reflexivity.
Qed.

Lemma index_from_end_second {A} (l : list A) (x y : A) w :
  index_from_end (l ++ [x] ++ [y]) 2 w = (Return x, w).
Proof.
  unfold index_from_end, index. rewrite !rev_app_distr. reflexivity.
Qed.

Section pipeline.
Variable os : os_model.
Variable children : nat -> child.
Hypothesis os_spawns :
  forall w params, os_spawn os w params = inr (children (length (procs w))).
Variables (stdin stdout : pyval) (kw : gmap string pyval).
Hypothesis kw_ok : popen_options kw.


Lemma waits_run p0 : forall n k w,
  tracked children p0 (k + n) w ->
  exists w',
    mapM (fun p => Popen_wait p PNone) (seq (p0 + k) n) w
    = (Return (exit_status ∘ children <$> seq (p0 + k) n), w')
    /\ procs w' = procs w /\ requests w' = requests w.
Proof.
  induction n as [|n IH]; intros k w Ht.
  - exists w. now split.
  - destruct Ht as [Hlen Hall].
    destruct (Hall k ltac:(lia)) as (po & Hpo & Hc).
    cbn [seq mapM].
    erewrite bind_return by (apply Popen_wait_run; exact Hpo).
    set (w1 := set_clock _ w).
    destruct (IH (S k) w1) as (w' & Hrun & Hp & Hr).
    { split; [subst w1; simpl; lia|]. intros j Hj. apply Hall. lia. }
    replace (p0 + S k) with (S (p0 + k)) in Hrun by lia.
    exists w'. erewrite bind_return by exact Hrun.
    split; [|now split]. unfold ret. cbn. now rewrite Hc.
Qed.


Lemma tracked_params cmd a b :
  exists params,
    Popen_bind [cmd] (<["stdin" := a]> (<["stdout" := b]> kw)) = inr params
    /\ params !! "stdout" = Some b /\ params !! "stdin" = Some a
    /\ params !! "args" = Some cmd.
Proof.
  eexists. split; [apply Popen_bind_cmd, popen_options_wiring, kw_ok|].
  assert (Hk : kw !! "args" = None).
  { apply not_elem_of_dom. intros Hin. apply kw_ok in Hin. set_solver. }
  repeat split.
  - erewrite lookup_union_Some_l; [reflexivity|].
    erewrite lookup_union_Some_r; [reflexivity| |].
    + apply map_disjoint_singleton_l. now rewrite !lookup_insert_ne.
    + now rewrite lookup_insert_ne, lookup_insert_eq.
  - erewrite lookup_union_Some_l; [reflexivity|].
    erewrite lookup_union_Some_r; [reflexivity| |].
    + apply map_disjoint_singleton_l. now rewrite !lookup_insert_ne.
    + now rewrite lookup_insert_eq.
  - erewrite lookup_union_Some_l; [reflexivity|].
    erewrite lookup_union_Some_l; [reflexivity|].
    apply lookup_singleton_eq.
Qed.


Lemma tracked_spawned p0 i w params :
  tracked children p0 i w ->
  tracked children p0 (S i) (spawned params (children (p0 + i)) w).
Proof.
  intros [Hlen Hall]. split.
  - unfold spawned. simpl. rewrite length_app. simpl. lia.
  - intros j Hj. unfold spawned. simpl.
    destruct (decide (j = i)) as [->|Hne].
    + rewrite lookup_app_r by lia.
      replace (p0 + i - length (procs w)) with 0 by lia.
      eexists. split; reflexivity.
    + rewrite lookup_app_l by lia. apply Hall. lia.
Qed.

Lemma tracked_set_stdout p0 n w p po v :
  tracked children p0 n w ->
  procs w !! p = Some po ->
  tracked children p0 n
    (set_procs (<[p := PopenObj (po_params po) (po_child po) v]> (procs w)) w).
Proof.
  intros [Hlen Hall] Hp. split.
  - simpl. now rewrite length_insert.
  - intros j Hj. simpl. destruct (Hall j Hj) as (po' & Hpo' & Hc).
    destruct (decide (p = p0 + j)) as [->|Hne].
    + rewrite list_lookup_insert_eq by (apply lookup_lt_Some in Hp; exact Hp).
      eexists. split; [reflexivity|]. simpl. congruence.
    + rewrite list_lookup_insert_ne by exact Hne. eauto.
Qed.

Lemma spawn_pipeline_run final p0 : forall cmds i w,
  (Z.of_nat (i + length cmds) - 1 = final)%Z ->
  tracked children p0 i w ->
  (0 < i -> cmds <> [] ->
   exists po, procs w !! (p0 + i - 1) = Some po
              /\ po_stdout po = PPipe (p0 + i - 1)) ->
  exists w',
    spawn_pipeline os final stdin stdout kw i (seq p0 i) cmds w
    = (Return (seq p0 (i + length cmds)), w')
    /\ tracked children p0 (i + length cmds) w'.
Proof.
  induction cmds as [|cmd cmds IH]; intros i w Hfin Ht Hlast.
  - exists w. simpl. rewrite Nat.add_0_r. now split.
  - cbn [spawn_pipeline].
    set (so := if bool_decide (Z.of_nat i = final) then stdout else subprocess_PIPE).
    assert (Hso : cmds <> [] -> so = subprocess_PIPE).
    { intros Hne. subst so. rewrite bool_decide_eq_false_2; [reflexivity|].
      destruct cmds; [done|]. simpl in Hfin. lia. }
    destruct Ht as [Hlen Hall].
    assert (Hspawn : forall a w0, length (procs w0) = p0 + i ->
      exists params,
        Popen os [cmd] (<["stdin" := a]> (<["stdout" := so]> kw)) w0
        = (Return (p0 + i), spawned params (children (p0 + i)) w0)
        /\ params !! "stdout" = Some so).
    { intros a w0 Hw0. destruct (tracked_params cmd a so) as (params & Hb & Ho & _).
      exists params. split; [|exact Ho].
      erewrite Popen_run; [|exact Hb|apply os_spawns]. simpl. now rewrite Hw0. }
    destruct i as [|i].
    + (* the first command reads the caller's stdin *)
      rewrite bool_decide_eq_true_2 by reflexivity.
      destruct (Hspawn stdin w Hlen) as (params & Hrun & Ho).
      erewrite bind_return by reflexivity.
      erewrite bind_return by exact Hrun.
      rewrite bool_decide_eq_false_2 by lia.
      erewrite bind_return by reflexivity.
      destruct (IH 1 (spawned params (children (p0 + 0)) w)) as (w' & Hr & Ht').
      * simpl in *. lia.
      * apply tracked_spawned. now split.
      * intros _ Hne. unfold spawned. simpl.
        rewrite lookup_app_r by lia.
        replace (p0 + 1 - 1 - length (procs w)) with 0 by lia.
        eexists. split; [reflexivity|]. simpl.
        rewrite Ho, (Hso Hne). simpl. f_equal. lia.
      * exists w'. split; [|exact Ht'].
        replace (seq p0 0 ++ [p0 + 0]) with (seq p0 1) by (simpl; f_equal; lia).
        exact Hr.
    + (* a later command reads the pipe of the one before *)
      rewrite bool_decide_eq_false_2 by lia.
      destruct (Hlast ltac:(lia) ltac:(done)) as (po & Hpo & Hpipe).
      replace (p0 + S i - 1) with (p0 + i) in * by lia.
      rewrite seq_S.
      erewrite bind_return.
      2:{ erewrite bind_return by apply index_from_end_last.
          apply Popen_get_stdout_run. exact Hpo. }
      destruct (Hspawn (po_stdout po) w Hlen) as (params & Hrun & Ho).
      erewrite bind_return by exact Hrun.
      rewrite bool_decide_eq_true_2 by lia.
      set (w1 := spawned params (children (p0 + S i)) w).
      assert (Hpo1 : procs w1 !! (p0 + i) = Some po).
      { subst w1. unfold spawned. simpl. rewrite lookup_app_l; [exact Hpo|].
        apply lookup_lt_Some in Hpo. exact Hpo. }
      erewrite bind_return.
      2:{ rewrite <- app_assoc.
          erewrite bind_return by apply index_from_end_second.
          erewrite bind_return by (apply Popen_get_stdout_run; exact Hpo1).
          rewrite Hpipe.
          erewrite bind_return by reflexivity.
          apply Popen_set_stdout_run. simpl. exact Hpo1. }
      match goal with
      | |- context [spawn_pipeline _ _ _ _ _ _ _ _ ?x] => set (w2 := x)
      end.
      assert (Ht2 : tracked children p0 (S (S i)) w2).
      { subst w2.
        apply (tracked_set_stdout p0 (S (S i))
                 (set_open_pipes (open_pipes w1 ∖ {[p0 + i]}) w1));
          [|exact Hpo1].
        apply (tracked_spawned p0 (S i) w params). now split. }
      destruct (IH (S (S i)) w2) as (w' & Hr & Ht'); [| exact Ht2 | |].
      * simpl in *. lia.
      * intros _ Hne. subst w2. simpl.
        rewrite list_lookup_insert_ne by lia.
        unfold spawned. simpl. rewrite lookup_app_r by lia.
        replace (p0 + S (S i) - 1 - length (procs w)) with 0 by lia.
        eexists. split; [reflexivity|]. simpl.
        rewrite Ho, (Hso Hne). simpl. f_equal. lia.
      * exists w'. split.
        -- replace (S (S i) + length cmds) with (S i + length (cmd :: cmds)) in Hr by (simpl; lia).
           rewrite (seq_S (S i)), (seq_S i) in Hr. exact Hr.
        -- replace (S i + length (cmd :: cmds)) with (S (S i) + length cmds) by (simpl; lia).
           exact Ht'.
Qed.

(** The whole pipeline, when every spawn succeeds. *)
Lemma unchecked_pipeline_run cmds w :
  exists w',
    unchecked_pipeline os cmds stdin stdout kw w
    = (Return (pipeline_status
                 (exit_status ∘ children
                    <$> seq (length (procs w)) (length cmds))), w').
Proof.
  unfold unchecked_pipeline.
  destruct (spawn_pipeline_run (Z.of_nat (length cmds) - 1) (length (procs w))
              cmds 0 w) as (w1 & Hr & Ht).
  - simpl. reflexivity.
  - split; [lia|]. intros j Hj. lia.
  - intros Hi. lia.
  - simpl in Hr. erewrite bind_return by exact Hr.
    destruct (waits_run (length (procs w)) (length cmds) 0 w1) as (w2 & Hw & _).
    { exact Ht. }
    rewrite Nat.add_0_r in Hw.
    erewrite bind_return by exact Hw.
    eexists. apply first_failure_run.
Qed.

End pipeline.

(** ** The executors *)

(** C1: when every command of a pipeline is spawned, the status
    [unchecked_pipeline] returns is zero if all exit statuses are zero
    and otherwise the first nonzero one in pipeline order; it is a
    function of the exit statuses alone, whatever the instants at
    which the children terminate. *)
Theorem unchecked_pipeline_first_nonzero (os : os_model)
    (children : nat -> child) (cmds : list pyval) (stdin stdout : pyval)
    (kw : gmap string pyval) (w : world) :
  (forall w' params,
     os_spawn os w' params = inr (children (length (procs w')))) ->
  popen_options kw ->
  exists w',
    unchecked_pipeline os cmds stdin stdout kw w
    = (Return (pipeline_status
                 (exit_status ∘ children
                    <$> seq (length (procs w)) (length cmds))), w').
Proof. intros Hos Hkw. now apply unchecked_pipeline_run. Qed.

Lemma popen_options_empty : popen_options ∅.
Proof. unfold popen_options. rewrite dom_empty_L. apply empty_subseteq. Defined.

Lemma unchecked_pipeline_first_nonzero_witness :
  exists w',
    unchecked_pipeline
      (scripted_os (scripted_child [0; 0; 5; 0]%Z [9; 1; 4; 2] PNone))
      [PStr "a"; PStr "b"; PStr "c"; PStr "d"] PNone PNone ∅ world0
    = (Return 5%Z, w').
Proof.
  exact (unchecked_pipeline_first_nonzero
           (scripted_os (scripted_child [0; 0; 5; 0]%Z [9; 1; 4; 2] PNone))
           (scripted_child [0; 0; 5; 0]%Z [9; 1; 4; 2] PNone)
           [PStr "a"; PStr "b"; PStr "c"; PStr "d"] PNone PNone ∅ world0
           (fun _ _ => eq_refl) popen_options_empty).
Defined.

Lemma Popen_bind_inr args kwargs params :
  Popen_bind args kwargs = inr params ->
  params = list_to_map (zip Popen_positional args) ∪ kwargs ∪ Popen_defaults.
Proof.
  unfold Popen_bind, bind_arguments. intros H.
  repeat case_bool_decide; try discriminate. now injection H as <-.
Qed.

Lemma spawned_procs_last params c w :
  procs (spawned params c w) !! length (procs w)
  = Some (PopenObj params c
            (if is_PIPE (params !! "stdout") then PPipe (length (procs w))
             else PNone)).
Proof.
  unfold spawned. simpl. rewrite lookup_app_r by lia.
  now rewrite Nat.sub_diag.
Qed.

Lemma pipeline_status_single (s : Z) : pipeline_status [s] = s.
Proof. simpl. destruct (Z.eqb_spec s 0); congruence. Qed.

Lemma Popen_wait_completes p po timeout w :
  procs w !! p = Some po ->
  completes timeout w (po_child po) ->
  Popen_wait p (default PNone timeout) w
  = (Return (exit_status (po_child po)),
     set_clock (clock w `max` finish_time (po_child po)) w).
Proof.
  intros Hp Hc. unfold Popen_wait, Popen_object. run. rewrite Hp.
  destruct timeout as [[]|]; simpl in *; try done.
  now rewrite bool_decide_eq_true_2.
Qed.

Lemma subprocess_call_run os args kwargs params c w :
  Popen_bind args (delete "timeout" kwargs) = inr params ->
  os_spawn os (set_requests (requests w ++ [params]) w) params = inr c ->
  completes (kwargs !! "timeout") w c ->
  subprocess_call os args kwargs w
  = (Return (exit_status c), after_call params c w).
Proof.
  intros Hb Hs Hc. unfold subprocess_call, try_except.
  erewrite bind_return by (eapply Popen_run; eassumption).
  pose proof (spawned_procs_last params c w) as Hlast.
  erewrite bind_return.
  2:{ apply Popen_wait_completes; [exact Hlast|exact Hc]. }
  cbn [po_child]. unfold after_call.
  destruct (is_PIPE (params !! "stdout")) eqn:Hp.
  - erewrite bind_return.
    2:{ erewrite bind_return.
        2:{ apply Popen_get_stdout_run. simpl. exact Hlast. }
        reflexivity. }
    reflexivity.
  - erewrite bind_return.
    2:{ erewrite bind_return.
        2:{ apply Popen_get_stdout_run. simpl. exact Hlast. }
        reflexivity. }
    reflexivity.
Qed.

Lemma unchecked_call_run os args kwargs w :
  unchecked_call os args kwargs w = subprocess_call os args kwargs w.
Proof.
  unfold unchecked_call, bind, ret.
  now destruct (subprocess_call os args kwargs w) as [[] ?].
Qed.

Lemma unchecked_pipeline_single os cmd stdin stdout kw w :
  unchecked_pipeline os [cmd] stdin stdout kw w
  = match Popen os [cmd] (<["stdin" := stdin]> (<["stdout" := stdout]> kw)) w with
    | (Return p, w1) =>
        (r <- Popen_wait p PNone ;; ret (pipeline_status [r])) w1
    | (Raise e, w1) => (Raise e, w1)
    end.
Proof.
  unfold unchecked_pipeline. cbn [spawn_pipeline length].
  rewrite !bool_decide_eq_true_2 by reflexivity.
  rewrite bool_decide_eq_false_2 by lia.
  unfold bind at 1 2 3. unfold ret at 1. unfold bind at 1. unfold ret at 1 2.
  destruct (Popen os [cmd] _ w) as [[p|e] w1]; [|reflexivity].
  cbn [app mapM]. unfold bind. destruct (Popen_wait p PNone w1) as [[r|e] w2];
    [|reflexivity].
  unfold ret. apply first_failure_run.
Qed.

(** C5: a pipeline of one command and [unchecked_call] on that command
    with the same [stdin] and [stdout] have the same outcome (status or
    exception) and leave the same world, but for the pipe that
    [subprocess.call] closes on its way out when [stdout] is a pipe;
    the one child is spawned with the caller's [stdin] and [stdout],
    and the status returned is its exit status.  The options are those
    of the spawn primitive: [timeout] belongs to [subprocess.call]. *)
Theorem single_command_pipeline (os : os_model) (cmd stdin stdout : pyval)
    (kw : gmap string pyval) (w : world) :
  kw !! "timeout" = None ->
  let piped := unchecked_pipeline os [cmd] stdin stdout kw w in
  let called :=
    unchecked_call os [cmd]
      (<["stdin" := stdin]> (<["stdout" := stdout]> kw)) w in
  piped.1 = called.1
  /\ set_open_pipes ∅ piped.2 = set_open_pipes ∅ called.2
  /\ (is_PIPE (Some stdout) = false -> piped = called)
  /\ (forall status, piped.1 = Return status ->
        exists po,
          procs piped.2 = procs w ++ [po]
          /\ requests piped.2 = requests w ++ [po_params po]
          /\ po_params po !! "args" = Some cmd
          /\ po_params po !! "stdin" = Some stdin
          /\ po_params po !! "stdout" = Some stdout
          /\ exit_status (po_child po) = status).
Proof.
  intros Hto piped called. subst piped called.
  remember (<["stdin" := stdin]> (<["stdout" := stdout]> kw)) as K eqn:EK.
  assert (HK : K !! "timeout" = None).
  { subst K. now rewrite !lookup_insert_ne. }
  rewrite unchecked_pipeline_single, <- EK.
  rewrite unchecked_call_run.
  destruct (Popen_bind [cmd] K) as [e|params] eqn:Hb.
  { unfold subprocess_call, try_except.
    rewrite (delete_id K "timeout") by exact HK.
    erewrite bind_raise by (apply Popen_bind_fails; exact Hb).
    rewrite (Popen_bind_fails os _ _ e w Hb).
    repeat split; intros; try reflexivity; simpl in *; congruence. }
  destruct (os_spawn os (set_requests (requests w ++ [params]) w) params)
    as [e|c] eqn:Hs.
  { unfold subprocess_call, try_except.
    rewrite (delete_id K "timeout") by exact HK.
    erewrite bind_raise by (apply Popen_spawn_fails; eassumption).
    rewrite (Popen_spawn_fails os _ _ params e w Hb Hs).
    repeat split; intros; try reflexivity; simpl in *; congruence. }
  rewrite (Popen_run os _ _ params c w Hb Hs).
  pose proof (spawned_procs_last params c w) as Hlast.
  erewrite subprocess_call_run;
    [| rewrite (delete_id K "timeout") by exact HK; exact Hb | exact Hs
     | now rewrite HK ].
  erewrite bind_return by (apply Popen_wait_run; exact Hlast).
  unfold ret. rewrite pipeline_status_single. cbn [po_child fst snd].
  assert (Hargs : params !! "args" = Some cmd
                  /\ params !! "stdin" = Some stdin
                  /\ params !! "stdout" = Some stdout).
  { rewrite (Popen_bind_inr _ _ _ Hb).
    change (list_to_map (zip Popen_positional [cmd]) : gmap string pyval)
      with (<["args" := cmd]> (∅ : gmap string pyval)).
    generalize Popen_defaults. intros D.
    rewrite !lookup_union, !lookup_insert_eq, !lookup_insert_ne by done.
    rewrite lookup_empty. subst K.
    rewrite !lookup_insert_eq, !lookup_insert_ne, !lookup_insert_eq by done.
    repeat split.
    - now destruct (_ !! "args"), (D !! "args").
    - now destruct (D !! "stdin").
    - now destruct (D !! "stdout"). }
  destruct Hargs as (Ha & Hi & Ho).
  unfold after_call. rewrite Ho.
  split; [reflexivity|]. split; [|split].
  - destruct (is_PIPE (Some stdout)); reflexivity.
  - intros ->. reflexivity.
  - intros status [= <-]. eexists. split; [reflexivity|].
    split; [reflexivity|]. now repeat split.
Qed.

Lemma single_command_pipeline_witness :
  (∅ : gmap string pyval) !! "timeout" = None
  /\ (unchecked_pipeline (scripted_os (scripted_child [3%Z] [2] PNone))
        [PList [PStr "ls"]] PNone (PFile 7) ∅ world0).1
     = (unchecked_call (scripted_os (scripted_child [3%Z] [2] PNone))
          [PList [PStr "ls"]]
          (<["stdin" := PNone]> (<["stdout" := PFile 7]> ∅)) world0).1.
Proof.
  split; [apply lookup_empty|].
  exact (proj1 (single_command_pipeline
                  (scripted_os (scripted_child [3%Z] [2] PNone))
                  (PList [PStr "ls"]) PNone (PFile 7) ∅ world0
                  (lookup_empty _))).
Defined.

(** C2: when the command is spawned and waited for, [checked_call]
    returns normally if its exit status is zero, and otherwise raises
    CalledProcessError carrying that status and no output. *)
Theorem checked_call_status (os : os_model) (args : list pyval)
    (kwargs params : gmap string pyval) (c : child) (w : world) :
  Popen_bind args (delete "timeout" kwargs) = inr params ->
  os_spawn os (set_requests (requests w ++ [params]) w) params = inr c ->
  completes (kwargs !! "timeout") w c ->
  (exit_status c = 0%Z ->
   checked_call os args kwargs w = (Return tt, after_call params c w))
  /\ (exit_status c <> 0%Z ->
      checked_call os args kwargs w
      = (Raise (CalledProcessError [PTuple args; PDict kwargs]
                  (exit_status c) PNone),
         after_call params c w)).
Proof.
  intros Hb Hs Hc. unfold checked_call.
  erewrite bind_return
    by (rewrite unchecked_call_run; eapply subprocess_call_run; eassumption).
  split; intros Hn.
  - now rewrite Hn.
  - now rewrite (proj2 (Z.eqb_neq _ _) Hn).
Qed.

Lemma checked_call_status_witness :
  checked_call (scripted_os (scripted_child [5%Z] [2] PNone))
    [PList [PStr "false"]] ∅ world0
  = (Raise (CalledProcessError [PTuple [PList [PStr "false"]]; PDict ∅]
              5 PNone),
     after_call ({["args" := PList [PStr "false"]]} ∪ ∅ ∪ Popen_defaults)
       (scripted_child [5%Z] [2] PNone 0) world0).
Proof.
  refine (proj2 (checked_call_status
                   (scripted_os (scripted_child [5%Z] [2] PNone))
                   [PList [PStr "false"]] ∅
                   ({["args" := PList [PStr "false"]]} ∪ ∅ ∪ Popen_defaults)
                   (scripted_child [5%Z] [2] PNone 0) world0 _ _ _) _).
  - rewrite delete_empty. apply Popen_bind_cmd, popen_options_empty.
  - reflexivity.
  - exact I.
  - discriminate.
Defined.

(** ** Directories *)

Lemma os_chdir_to_run os path c w :
  os_chdir os (cwd w) path = Some c ->
  os_chdir_to os path w = (Return tt, set_cwd c w).
Proof. intros H. unfold os_chdir_to. run. now rewrite H. Qed.

Lemma os_chdir_to_fails os path w :
  os_chdir os (cwd w) path = None ->
  os_chdir_to os path w = (Raise (OSError "chdir"), w).
Proof. intros H. unfold os_chdir_to. run. now rewrite H. Qed.

Lemma pushd_run os d d' w :
  os_chdir os (cwd w) d = Some d' ->
  pushd os d w
  = (Return tt, set_dir_stack (dir_stack w ++ [cwd w]) (set_cwd d' w)).
Proof.
  intros H. unfold pushd, os_getcwd.
  erewrite bind_return by reflexivity.
  erewrite bind_return by (apply os_chdir_to_run; exact H).
  reflexivity.
Qed.

(** C10 (as amended): when the process can change to [d], and the
    directory it started in can be entered again from there under the
    name [getcwd] gave for it, [pushd d] followed by [popd] returns
    and leaves the working directory, the directory stack and the rest
    of the world as they were. *)
Theorem pushd_popd_round_trip (os : os_model) (d d' : string) (w : world) :
  os_chdir os (cwd w) d = Some d' ->
  os_chdir os d' (cwd w) = Some (cwd w) ->
  (pushd os d ;; popd os) w = (Return tt, w).
Proof.
  intros Hgo Hback.
  erewrite bind_return by (apply pushd_run; exact Hgo).
  unfold popd, try_except, dir_stack_pop.
  erewrite bind_return.
  2:{ run. cbn [dir_stack set_dir_stack set_cwd].
      rewrite rev_app_distr. reflexivity. }
  erewrite os_chdir_to_run by (simpl; exact Hback).
  rewrite rev_involutive. now destruct w.
Qed.

Lemma pushd_popd_round_trip_witness :
  (pushd (scripted_os (scripted_child [] [] PNone)) "/tmp" ;;
   popd (scripted_os (scripted_child [] [] PNone))) world0
  = (Return tt, world0).
Proof.
  exact (pushd_popd_round_trip (scripted_os (scripted_child [] [] PNone))
           "/tmp" "/tmp" world0 eq_refl eq_refl).
Defined.

(** C7 (the code at the failing input): entering [chdir "/tmp"] from
    /home with a block that raises leaves the exception to the caller
    with the working directory still /tmp: the restoring [os.chdir]
    after the [yield] is never reached. *)
Theorem chdir_not_restored_when_block_raises :
  with_ (chdir (scripted_os (scripted_child [] [] PNone)) "/tmp")
    (raise (OtherError "boom") : M unit) world0
  = (Raise (OtherError "boom"), set_cwd "/tmp" world0)
  /\ cwd world0 = "/home".
Proof. split; reflexivity. Qed.

(** ** Capturing output *)

Section copy.
Variable w : world.
Let sp := length (dicts w).

Lemma dict_copy_run r kw :
  dicts w !! r = Some kw ->
  dict_copy r w = (Return sp, with_copy kw w).
Proof.
  intros H. unfold dict_copy, dict_load, dict_new. run. now rewrite H.
Qed.

Lemma dicts_with_copy d : dicts (with_copy d w) !! sp = Some d.
Proof.
  unfold with_copy, sp. simpl. rewrite lookup_app_r by lia.
  now rewrite Nat.sub_diag.
Qed.

Lemma store_with_copy d d' :
  set_dicts (<[sp := d']> (dicts (with_copy d w))) (with_copy d w)
  = with_copy d' w.
Proof.
  unfold with_copy, sp. simpl. unfold set_dicts. simpl. f_equal.
  rewrite insert_app_r_alt by lia. now rewrite Nat.sub_diag.
Qed.

Lemma dict_load_copy d : dict_load sp (with_copy d w) = (Return d, with_copy d w).
Proof. unfold dict_load. run. now rewrite dicts_with_copy. Qed.

Lemma dict_load_kept d r kw :
  dicts w !! r = Some kw ->
  dict_load r (with_copy d w) = (Return kw, with_copy d w).
Proof.
  intros H. unfold dict_load. run. unfold with_copy at 1. simpl.
  rewrite lookup_app_l by (apply lookup_lt_Some in H; exact H).
  now rewrite H.
Qed.

Lemma dict_pop_copy d key dflt :
  dict_pop sp key dflt (with_copy d w)
  = (Return (default dflt (d !! key)), with_copy (delete key d) w).
Proof.
  unfold dict_pop. erewrite bind_return by apply dict_load_copy.
  destruct (d !! key) eqn:Hk.
  - unfold dict_store. run. now rewrite store_with_copy.
  - rewrite delete_id by exact Hk. reflexivity.
Qed.

Lemma dict_setitem_copy d key v :
  dict_setitem sp key v (with_copy d w)
  = (Return tt, with_copy (<[key := v]> d) w).
Proof.
  unfold dict_setitem. erewrite bind_return by apply dict_load_copy.
  unfold dict_store. run. now rewrite store_with_copy.
Qed.

End copy.

Lemma checked_backtick_unfold os a0 rest kwargs kw w :
  dicts w !! kwargs = Some kw ->
  checked_backtick os (a0 :: rest) kwargs w
  = match backtick_cmd a0 kw with
    | inl e => (Raise e, w)
    | inr cmd =>
        let nostrip := default (PBool false) (kw !! "nostrip") in
        let tail_ := backtick_tail os (a0 :: rest) kwargs nostrip cmd
                       (length (dicts w)) in
        if clocale_on kw then
          match dict_from (sp_base_env w kw) locale_overrides with
          | inl e => (Raise e, with_copy (delete "env" (sp_clocale kw)) w)
          | inr env => tail_ (with_copy (sp_final env kw) w)
          end
        else tail_ (with_copy (sp_clocale kw) w)
    end.
Proof.
  intros Hkw. unfold checked_backtick.
  erewrite bind_return by reflexivity.
  erewrite bind_return by (unfold dict_load; run; rewrite Hkw; reflexivity).
  assert (Hcmd :
    (match a0 with
     | PStr s =>
         if bool_decide ("shell" ∉ dom kw)
         then toks <- lift_sum (shlex_split s) ;; ret (PList (PStr <$> toks))
         else ret a0
     | _ => ret a0
     end) w
    = match backtick_cmd a0 kw with
      | inl e => (Raise e, w)
      | inr cmd => (Return cmd, w)
      end).
  { unfold backtick_cmd. destruct a0; try reflexivity.
    case_bool_decide; [|reflexivity].
    destruct (shlex_split s); reflexivity. }
  destruct (backtick_cmd a0 kw) as [e|cmd].
  { erewrite bind_raise by exact Hcmd. reflexivity. }
  erewrite bind_return by exact Hcmd.
  erewrite bind_return by (apply dict_copy_run; exact Hkw).
  erewrite bind_return by apply dict_pop_copy.
  erewrite bind_return by apply dict_setitem_copy.
  erewrite bind_return by apply dict_pop_copy.
  fold (sp_stdout kw).
  erewrite bind_return with (w' := with_copy (sp_err2out kw) w).
  2:{ unfold sp_err2out.
      destruct (truthy (default (PBool false) (sp_stdout kw !! "err2out"))).
      - apply dict_setitem_copy.
      - reflexivity. }
  erewrite bind_return by apply dict_pop_copy.
  fold (sp_clocale kw). fold (clocale_on kw).
  cbv zeta. destruct (clocale_on kw).
  - destruct (dict_from (sp_base_env w kw) locale_overrides) as [e|env] eqn:Henv.
    + erewrite bind_raise; [reflexivity|].
      erewrite bind_return by reflexivity.
      erewrite bind_return by apply dict_pop_copy.
      change (environ_value (with_copy (sp_clocale kw) w)) with (environ_value w).
      fold (sp_base_env w kw). fold locale_overrides. rewrite Henv.
      reflexivity.
    + erewrite bind_return with (a := tt); [reflexivity|].
      erewrite bind_return by reflexivity.
      erewrite bind_return by apply dict_pop_copy.
      change (environ_value (with_copy (sp_clocale kw) w)) with (environ_value w).
      fold (sp_base_env w kw). fold locale_overrides. rewrite Henv.
      erewrite bind_return by reflexivity.
      apply dict_setitem_copy.
  - erewrite bind_return by reflexivity. reflexivity.
Qed.

Lemma percent_s_run cmd w :
  percent_s cmd w = (Return tt, w) \/ exists e, percent_s cmd w = (Raise e, w).
Proof.
  unfold percent_s. destruct cmd; try (left; reflexivity).
  case_bool_decide; [left|right; eexists]; reflexivity.
Qed.

Lemma Popen_communicate_run p params c w :
  procs w !! p
  = Some (PopenObj params c
            (if is_PIPE (params !! "stdout") then PPipe p else PNone)) ->
  exists err,
    Popen_communicate p w
    = (Return (if is_PIPE (params !! "stdout") then child_stdout c else PNone,
               err),
       set_clock (clock w `max` finish_time c)
         (if is_PIPE (params !! "stdout")
          then set_open_pipes (open_pipes w ∖ {[p]}) w else w)).
Proof.
  intros Hp. unfold Popen_communicate.
  erewrite bind_return by (unfold Popen_object; run; rewrite Hp; reflexivity).
  cbn [po_stdout po_child po_params].
  destruct (is_PIPE (params !! "stdout")).
  - erewrite bind_return by reflexivity.
    erewrite bind_return by (apply Popen_wait_run; simpl; exact Hp).
    eexists. reflexivity.
  - erewrite bind_return by reflexivity.
    erewrite bind_return by (apply Popen_wait_run; exact Hp).
    eexists. reflexivity.
Qed.

Lemma backtick_tail_run os args kwargs kw nostrip cmd d params c w :
  dicts w !! kwargs = Some kw ->
  percent_s cmd (with_copy d w) = (Return tt, with_copy d w) ->
  Popen_bind (cmd :: tail args) d = inr params ->
  os_spawn os
    (set_requests (requests (with_copy d w) ++ [params]) (with_copy d w))
    params = inr c ->
  backtick_tail os args kwargs nostrip cmd (length (dicts w)) (with_copy d w)
  = (match backtick_output nostrip
             (if is_PIPE (params !! "stdout") then child_stdout c
              else PNone) with
     | inl e => Raise e
     | inr output =>
         if (exit_status c =? 0)%Z then Return output
         else Raise (CalledProcessError [PTuple args; PDict kw]
                       (exit_status c) output)
     end,
     after_call params c (with_copy d w)).
Proof.
  intros Hkw Hfmt Hb Hs. unfold backtick_tail.
  erewrite bind_return by exact Hfmt.
  erewrite bind_return by apply dict_load_copy.
  erewrite bind_return by (eapply Popen_run; eassumption).
  pose proof (spawned_procs_last params c (with_copy d w)) as Hlast.
  destruct (Popen_communicate_run _ _ _ _ Hlast) as (err & Hcomm).
  erewrite bind_return by exact Hcomm.
  cbn [fst]. unfold backtick_output.
  set (out := if is_PIPE (params !! "stdout") then child_stdout c else PNone).
  match goal with
  | |- bind _ _ ?x = _ => set (w3 := x)
  end.
  assert (Hw3 : w3 = after_call params c (with_copy d w)).
  { subst w3. unfold after_call.
    destruct (is_PIPE (params !! "stdout")); reflexivity. }
  assert (Hp3 : procs w3 !! length (procs (with_copy d w))
                = Some (PopenObj params c
                          (if is_PIPE (params !! "stdout")
                           then PPipe (length (procs (with_copy d w)))
                           else PNone))).
  { subst w3. destruct (is_PIPE (params !! "stdout")); exact Hlast. }
  assert (Hd3 : dicts w3 !! kwargs = Some kw).
  { subst w3. destruct (is_PIPE (params !! "stdout")); simpl;
      (rewrite lookup_app_l by (apply lookup_lt_Some in Hkw; exact Hkw));
      exact Hkw. }
  rewrite <- Hw3. clearbody w3.
  destruct (maybe_to_str out default_encoding default_errors) as [e|output].
  { reflexivity. }
  erewrite bind_return by reflexivity.
  assert (Hfin : forall o,
    (err0 <- Popen_returncode (length (procs (with_copy d w))) ;;
     if negb (err0 =? 0)%Z
     then kw0 <- dict_load kwargs ;;
          raise (CalledProcessError [PTuple args; PDict kw0] err0 o)
     else ret o) w3
    = (if (exit_status c =? 0)%Z then Return o
       else Raise (CalledProcessError [PTuple args; PDict kw]
                     (exit_status c) o), w3)).
  { intros o.
    erewrite bind_return
      by (unfold Popen_returncode, Popen_object; run; rewrite Hp3; reflexivity).
    cbn [po_child]. destruct (exit_status c =? 0)%Z; [reflexivity|].
    cbn [negb].
    erewrite bind_return
      by (unfold dict_load; run; rewrite Hd3; reflexivity).
    reflexivity. }
  destruct (negb (truthy nostrip)).
  - destruct output; try reflexivity.
    erewrite bind_return by reflexivity. apply Hfin.
  - erewrite bind_return by reflexivity. apply Hfin.
Qed.

Lemma backtick_tail_effects os args kwargs kw nostrip cmd d w :
  dicts w !! kwargs = Some kw ->
  let r := backtick_tail os args kwargs nostrip cmd (length (dicts w))
             (with_copy d w) in
  dicts r.2 = dicts w ++ [d]
  /\ ((requests r.2 = requests w /\ exists e, r.1 = Raise e)
      \/ exists params,
           Popen_bind (cmd :: tail args) d = inr params
           /\ requests r.2 = requests w ++ [params]).
Proof.
  intros Hkw r. subst r.
  destruct (percent_s_run cmd (with_copy d w)) as [Hfmt|[e Hfmt]].
  2:{ unfold backtick_tail. erewrite bind_raise by exact Hfmt.
      split; [reflexivity|]. left. split; [reflexivity|]. now exists e. }
  destruct (Popen_bind (cmd :: tail args) d) as [e|params] eqn:Hb.
  { unfold backtick_tail.
    erewrite bind_return by exact Hfmt.
    erewrite bind_return by apply dict_load_copy.
    erewrite bind_raise by (apply Popen_bind_fails; exact Hb).
    split; [reflexivity|]. left. split; [reflexivity|]. now exists e. }
  destruct (os_spawn os
              (set_requests (requests (with_copy d w) ++ [params])
                 (with_copy d w)) params) as [e|c] eqn:Hs.
  { unfold backtick_tail.
    erewrite bind_return by exact Hfmt.
    erewrite bind_return by apply dict_load_copy.
    erewrite bind_raise by (eapply Popen_spawn_fails; eassumption).
    split; [reflexivity|]. right. exists params. now split. }
  erewrite backtick_tail_run by eassumption.
  cbn [fst snd]. split.
  - unfold after_call. destruct (is_PIPE (params !! "stdout")); reflexivity.
  - right. exists params. split; [reflexivity|].
    unfold after_call. destruct (is_PIPE (params !! "stdout")); reflexivity.
Qed.

Lemma sp_stdout_lookup kw k :
  k <> "nostrip" -> k <> "stdout" -> sp_stdout kw !! k = kw !! k.
Proof.
  intros. unfold sp_stdout. now rewrite lookup_insert_ne, lookup_delete_ne.
Qed.

Lemma sp_err2out_lookup kw k :
  k <> "nostrip" -> k <> "stdout" -> k <> "err2out" -> k <> "stderr" ->
  sp_err2out kw !! k = kw !! k.
Proof.
  intros. unfold sp_err2out.
  destruct (truthy _);
    rewrite ?lookup_insert_ne, lookup_delete_ne by done;
    now apply sp_stdout_lookup.
Qed.

Lemma sp_clocale_lookup kw k :
  k <> "nostrip" -> k <> "stdout" -> k <> "err2out" -> k <> "stderr" ->
  k <> "clocale" ->
  sp_clocale kw !! k = kw !! k.
Proof.
  intros. unfold sp_clocale. rewrite lookup_delete_ne by done.
  now apply sp_err2out_lookup.
Qed.

Lemma sp_clocale_stdout kw : sp_clocale kw !! "stdout" = Some subprocess_PIPE.
Proof.
  unfold sp_clocale, sp_err2out. rewrite lookup_delete_ne by done.
  destruct (truthy _);
    rewrite ?lookup_insert_ne, lookup_delete_ne by done;
    apply lookup_insert_eq.
Qed.

Lemma sp_final_lookup env kw k :
  k <> "env" -> sp_final env kw !! k = sp_clocale kw !! k.
Proof.
  intros. unfold sp_final. now rewrite lookup_insert_ne, lookup_delete_ne.
Qed.

Lemma clocale_on_kw kw :
  clocale_on kw = truthy (default (PBool true) (kw !! "clocale")).
Proof. unfold clocale_on. now rewrite sp_err2out_lookup. Qed.

Lemma sp_base_env_kw w kw :
  sp_base_env w kw = default (environ_value w) (kw !! "env").
Proof. unfold sp_base_env. now rewrite sp_clocale_lookup. Qed.

(** A successful binding that took [stdout] as a keyword bound at
    most four parameters by position, so [shell] and [env] can only
    come from the keywords or the defaults. *)
Lemma Popen_bind_keyword cmd rest d params k :
  Popen_bind (cmd :: rest) d = inr params ->
  is_Some (d !! "stdout") ->
  k = "shell" \/ k = "env" ->
  params !! "args" = Some cmd
  /\ params !! k = (d ∪ Popen_defaults) !! k.
Proof.
  intros Hb Hout Hk.
  pose proof (Popen_bind_inr _ _ _ Hb) as ->.
  unfold Popen_bind, bind_arguments in Hb.
  repeat case_bool_decide; try discriminate. clear Hb.
  match goal with H : dom d ∩ _ = ∅ |- _ => rename H into Hdis end.
  assert (Hno : (list_to_map (zip Popen_positional (cmd :: rest))
                 : gmap string pyval) !! "stdout" = None).
  { apply not_elem_of_dom. intros Hin.
    apply elem_of_dom in Hout. set_solver. }
  generalize dependent Popen_defaults. intros D _.
  destruct rest as [|a1 [|a2 [|a3 [|a4 rest]]]];
    cbn [zip zip_with Popen_positional list_to_map foldr] in *.
  5:{ exfalso. simpl in Hno.
      rewrite !lookup_insert_ne, lookup_insert_eq in Hno by done.
      discriminate. }
  all: split;
    [ rewrite <- assoc_L by apply _;
      apply lookup_union_Some_l; simpl; apply lookup_insert_eq
    | rewrite <- assoc_L by apply _;
      rewrite (lookup_union_r _ (d ∪ D)); [reflexivity|];
      destruct Hk as [-> | ->]; simpl;
      rewrite ?lookup_insert_ne by done; apply lookup_empty ].
Qed.

(** Whatever [checked_backtick] does, it leaves the dictionaries that
    existed before the call as they were, and spawns at most once. *)
Lemma checked_backtick_effects os a0 rest kwargs kw w :
  dicts w !! kwargs = Some kw ->
  let r := checked_backtick os (a0 :: rest) kwargs w in
  (dicts r.2 = dicts w \/ exists d, dicts r.2 = dicts w ++ [d])
  /\ ((requests r.2 = requests w /\ exists e, r.1 = Raise e)
      \/ exists cmd d params,
           backtick_cmd a0 kw = inr cmd
           /\ d !! "stdout" = Some subprocess_PIPE
           /\ (forall k, k <> "nostrip" -> k <> "stdout" -> k <> "err2out" ->
                 k <> "stderr" -> k <> "clocale" -> k <> "env" ->
                 d !! k = kw !! k)
           /\ (clocale_on kw = true ->
               exists env,
                 dict_from (sp_base_env w kw) locale_overrides = inr env
                 /\ d !! "env" = Some (PDict env))
           /\ Popen_bind (cmd :: rest) d = inr params
           /\ requests r.2 = requests w ++ [params]).
Proof.
  intros Hkw r. subst r. rewrite (checked_backtick_unfold _ _ _ _ _ _ Hkw).
  destruct (backtick_cmd a0 kw) as [e|cmd] eqn:Hcmd.
  { split; [now left|]. left. split; [reflexivity|]. now exists e. }
  cbv zeta. destruct (clocale_on kw) eqn:Hcl.
  - destruct (dict_from (sp_base_env w kw) locale_overrides) as [e|env] eqn:He.
    { split; [right; eexists; reflexivity|].
      left. split; [reflexivity|]. now exists e. }
    destruct (backtick_tail_effects os (a0 :: rest) kwargs kw
                (default (PBool false) (kw !! "nostrip")) cmd
                (sp_final env kw) w Hkw) as (Hd & Hr).
    split; [right; eexists; exact Hd|].
    destruct Hr as [Hr|(params & Hb & Hr)]; [now left|right].
    exists cmd, (sp_final env kw), params. repeat split; try assumption.
    + rewrite sp_final_lookup by done. apply sp_clocale_stdout.
    + intros k ? ? ? ? ? ?. rewrite sp_final_lookup by done.
      now apply sp_clocale_lookup.
    + intros _. exists env. split; [reflexivity|].
      unfold sp_final. apply lookup_insert_eq.
  - destruct (backtick_tail_effects os (a0 :: rest) kwargs kw
                (default (PBool false) (kw !! "nostrip")) cmd
                (sp_clocale kw) w Hkw) as (Hd & Hr).
    split; [right; eexists; exact Hd|].
    destruct Hr as [Hr|(params & Hb & Hr)]; [now left|right].
    exists cmd, (sp_clocale kw), params. repeat split; try assumption.
    + apply sp_clocale_stdout.
    + intros k ? ? ? ? ? ?. now apply sp_clocale_lookup.
    + discriminate.
Qed.

(** C9: whether [checked_backtick] returns or raises, every dictionary
    object that existed before the call, the one it received as
    [kwargs] among them, holds afterwards exactly the entries it held
    before: the entries are removed from the copy only. *)
Theorem checked_backtick_keeps_dictionaries (os : os_model)
    (args : list pyval) (kwargs : nat) (w : world) (l : nat)
    (d : gmap string pyval) :
  dicts w !! l = Some d ->
  dicts (checked_backtick os args kwargs w).2 !! l = Some d.
Proof.
  intros Hl. destruct args as [|a0 rest]; [exact Hl|].
  destruct (dicts w !! kwargs) as [kw|] eqn:Hkw.
  - destruct (checked_backtick_effects os a0 rest kwargs kw w Hkw)
      as ([Hd|[x Hd]] & _); rewrite Hd; [exact Hl|].
    rewrite lookup_app_l by (apply lookup_lt_Some in Hl; exact Hl).
    exact Hl.
  - unfold checked_backtick.
    erewrite bind_return by reflexivity.
    erewrite bind_raise; [exact Hl|].
    unfold dict_load. run. now rewrite Hkw.
Qed.

Lemma backtick_tail_spawn_fails os args kwargs nostrip cmd d params e w :
  percent_s cmd (with_copy d w) = (Return tt, with_copy d w) ->
  Popen_bind (cmd :: tail args) d = inr params ->
  os_spawn os
    (set_requests (requests (with_copy d w) ++ [params]) (with_copy d w))
    params = inl e ->
  (backtick_tail os args kwargs nostrip cmd (length (dicts w))
     (with_copy d w)).1 = Raise e.
Proof.
  intros Hfmt Hb Hs. unfold backtick_tail.
  erewrite bind_return by exact Hfmt.
  erewrite bind_return by apply dict_load_copy.
  erewrite bind_raise by (eapply Popen_spawn_fails; eassumption).
  reflexivity.
Qed.

Lemma stty_query os w :
  let stty := PList [PStr "stty"; PStr "size"] in
  let params := {["args" := stty]} ∪ stty_kwargs w ∪ Popen_defaults in
  let w1 := with_copy (stty_kwargs w) (with_copy ∅ w) in
  backtick os [PStr "stty size"] ∅ w
  = try_except
      (backtick_tail os [PStr "stty size"] (length (dicts w)) (PBool false)
         stty (length (dicts (with_copy ∅ w))))
      is_CalledProcessError
      (fun e => match e with
                | CalledProcessError _ _ output => ret output
                | _ => raise e
                end) w1
  /\ Popen_bind [stty] (stty_kwargs w) = inr params
  /\ params !! "stdout" = Some subprocess_PIPE.
Proof.
  intros stty params w1. split; [|split].
  - unfold backtick, try_except.
    erewrite bind_return by reflexivity.
    change (set_dicts (dicts w ++ [∅]) w) with (with_copy ∅ w).
    rewrite (checked_backtick_unfold os _ _ _ ∅)
      by (rewrite <- (dicts_with_copy w ∅); reflexivity).
    reflexivity.
  - apply Popen_bind_cmd. unfold popen_options, stty_kwargs.
    rewrite dom_insert_L, dom_singleton_L.
    unfold Popen_keywords, Popen_positional, Popen_kwonly.
    cbn [app list_to_set]. set_solver.
  - subst params. unfold stty_kwargs.
    erewrite lookup_union_Some_l; [reflexivity|].
    erewrite lookup_union_Some_r; [reflexivity| |].
    + apply map_disjoint_singleton_l.
      now rewrite lookup_insert_ne, lookup_singleton_ne.
    + now rewrite lookup_insert_ne, lookup_singleton_eq.
Qed.

Lemma try_except_return {A} (m : M A) catches handler w a w' :
  m w = (Return a, w') -> try_except m catches handler w = (Return a, w').
Proof. intros H. unfold try_except. now rewrite H. Qed.

Lemma try_except_caught {A} (m : M A) catches handler w e w' :
  m w = (Raise e, w') -> catches e = true ->
  try_except m catches handler w = handler e w'.
Proof. intros H Hc. unfold try_except. now rewrite H, Hc. Qed.

Lemma try_except_passed {A} (m : M A) catches handler w e :
  (m w).1 = Raise e -> catches e = false ->
  (try_except m catches handler w).1 = Raise e.
Proof.
  intros H Hc. unfold try_except. destruct (m w) as [o w'].
  simpl in H. subst o. now rewrite Hc.
Qed.

Lemma bind_raised {A B} (m : M A) (k : A -> M B) w e :
  (m w).1 = Raise e -> (bind m k w).1 = Raise e.
Proof.
  intros H. unfold bind. destruct (m w) as [o w']. simpl in H. now subst o.
Qed.

(** C8 (as amended): on a machine that cannot spawn the [stty size]
    query, failing with an OSError or a TypeError, [get_screen_columns]
    returns 80; on a machine where the query prints at least two
    fields, it returns the integer read from COLUMNS when that is set,
    else from the second field, or 80 when that integer is below 10. *)
Theorem get_screen_columns_cases (os : os_model) (w : world)
    (answer : exn + child) :
  (forall w' params, os_spawn os w' params = answer) ->
  match answer with
  | inl e =>
      is_TypeError e || is_OSError e = true ->
      (get_screen_columns os w).1 = Return 80%Z
  | inr c =>
      forall bs f0 f1 more n,
        child_stdout c = PBytes bs ->
        split_ws (strip (string_of_list_byte bs)) = f0 :: f1 :: more ->
        int_of_str (from_option id f1 (environ w !! "COLUMNS")) = inr n ->
        (get_screen_columns os w).1
        = Return (if (n <? 10)%Z then 80%Z else n)
  end.
Proof.
  intros Hos.
  destruct (stty_query os w) as (Hq & Hb & Hout). cbv zeta in *.
  assert (Hfmt : forall w0,
    percent_s (PList [PStr "stty"; PStr "size"]) w0 = (Return tt, w0))
    by reflexivity.
  destruct answer as [e|c].
  - intros He.
    assert (Hncp : is_CalledProcessError e = false)
      by (destruct e; try reflexivity; discriminate He).
    assert (Hraise : (backtick os [PStr "stty size"] ∅ w).1 = Raise e).
    { rewrite Hq. apply try_except_passed; [|exact Hncp].
      apply (backtick_tail_spawn_fails os [PStr "stty size"] _ _ _ _ _ e
               (with_copy ∅ w) (Hfmt _) Hb (Hos _ _)). }
    unfold get_screen_columns, try_except.
    pose proof (bind_raised (backtick os [PStr "stty size"] ∅)
                  (fun out =>
                     fields <- py_split out ;;
                     field <- index fields 1 ;;
                     w0 <- get_world ;;
                     columns <- lift_sum
                       (int_of_str
                          (from_option id field (environ w0 !! "COLUMNS"))) ;;
                     if (columns <? 10)%Z then ret 80%Z else ret columns)
                  w e Hraise) as Hall.
    destruct (bind _ _ w) as [o w']. simpl in Hall. subst o.
    now rewrite He.
  - intros bs f0 f1 more n Hbs Hfields Hint.
    assert (Hret : exists w2,
      backtick os [PStr "stty size"] ∅ w
      = (Return (PStr (strip (string_of_list_byte bs))), w2)
      /\ environ w2 = environ w).
    { rewrite Hq.
      pose proof (backtick_tail_run os [PStr "stty size"] (length (dicts w)) ∅
                    (PBool false) _ _ _ c (with_copy ∅ w)
                    (dicts_with_copy w ∅) (Hfmt _) Hb (Hos _ _)) as Hrun.
      rewrite Hout in Hrun.
      change (is_PIPE (Some subprocess_PIPE)) with true in Hrun.
      cbv iota in Hrun.
      unfold backtick_output in Hrun. rewrite Hbs in Hrun.
      unfold maybe_to_str, default_encoding in Hrun.
      rewrite bytes_decode_latin1 in Hrun. cbn [truthy negb] in Hrun.
      destruct (exit_status c =? 0)%Z.
      - eexists. split; [apply try_except_return; exact Hrun|].
        unfold after_call. now destruct (is_PIPE _).
      - eexists. split.
        + erewrite try_except_caught; [|exact Hrun|reflexivity]. reflexivity.
        + unfold after_call. now destruct (is_PIPE _). }
    destruct Hret as (w2 & Hret & Henv).
    unfold get_screen_columns, try_except.
    erewrite bind_return by exact Hret.
    erewrite bind_return by (simpl; rewrite Hfields; reflexivity).
    erewrite bind_return by reflexivity.
    erewrite bind_return by reflexivity.
    rewrite Henv, Hint.
    erewrite bind_return by reflexivity.
    now destruct (n <? 10)%Z.
Qed.

(** ** Runs on concrete machines *)

Lemma checked_backtick_keeps_dictionaries_witness :
  dicts (checked_backtick (constant_os (inr tty_child))
           [PStr "stty size"] 0 world_options).2 !! 0
  = Some (<["nostrip" := PBool true]> (<["clocale" := PBool false]> ∅)).
Proof.
  exact (checked_backtick_keeps_dictionaries (constant_os (inr tty_child))
           [PStr "stty size"] 0 world_options 0 _ eq_refl).
Defined.

Lemma get_screen_columns_cases_witness :
  (get_screen_columns (constant_os (inr tty_child)) world0).1 = Return 132%Z.
Proof.
  exact (get_screen_columns_cases (constant_os (inr tty_child)) world0
           (inr tty_child) (fun _ _ => eq_refl)
           [x32; x34; x20; x31; x33; x32; x0a] "24" "132" [] 132%Z
           eq_refl eq_refl eq_refl).
Defined.

(** C8, as stated, fails: with COLUMNS set to 5, a width that parses
    without any error, the helper returns 80 and not 5. *)
Lemma get_screen_columns_narrow_width :
  environ (world_columns "5") !! "COLUMNS" = Some "5"
  /\ int_of_str "5" = inr 5%Z
  /\ (get_screen_columns (constant_os (inr tty_child)) (world_columns "5")).1
     = Return 80%Z.
Proof. repeat split; vm_compute; reflexivity. Qed.

(** A text in COLUMNS that is not a number makes [int] raise a
    ValueError, which the handler of [get_screen_columns] does not
    catch; so does a query that prints fewer than two fields, with an
    IndexError. *)
Lemma get_screen_columns_not_a_number :
  (get_screen_columns (constant_os (inr tty_child)) (world_columns "abc")).1
  = Raise (ValueError "invalid literal for int() with base 10").
Proof. vm_compute. reflexivity. Qed.

Lemma get_screen_columns_no_fields :
  (get_screen_columns (constant_os (inr (Child 1 1 (PBytes []) PNone)))
     world0).1
  = Raise (IndexError "list index out of range").
Proof. vm_compute. reflexivity. Qed.

(** A separator character before the digits is whitespace to
    [str.strip] but not to [int]: COLUMNS set to U+001C followed by 120
    is not a number either. *)
Lemma get_screen_columns_separator_before_digits :
  (get_screen_columns (constant_os (inr tty_child))
     (world_columns (String (ascii_of_N 28) "120"))).1
  = Raise (ValueError "invalid literal for int() with base 10").
Proof. vm_compute. reflexivity. Qed.

(** The spawn [checked_backtick] asks for on a machine whose own
    environment says LANG=de_DE.UTF-8. *)
Lemma checked_backtick_request_example :
  (fun rq => (rq !! "args", rq !! "shell", rq !! "stdout",
              child_environment world_german rq))
    <$> requests (checked_backtick (constant_os (inr tty_child))
                    [PStr "echo hello world"] 0 world_german).2
  = [(Some (PList [PStr "echo"; PStr "hello"; PStr "world"]),
      Some (PBool false), Some subprocess_PIPE,
      PDict (<["LANG" := PStr "C"]> (<["LC_ALL" := PStr "C"]> ∅)))].
Proof. vm_compute. reflexivity. Qed.

(** ** More on pipelines and directories *)

Lemma pipeline_status_zero (statuses : list Z) :
  pipeline_status statuses = 0%Z <-> Forall (fun s => s = 0%Z) statuses.
Proof.
  induction statuses as [|s l IH]; simpl.
  - split; [constructor|reflexivity].
  - destruct (Z.eqb_spec s 0) as [->|Hne].
    + rewrite IH. split; [now constructor|now inversion 1].
    + split; [contradiction|]. inversion 1. contradiction.
Qed.

Lemma pipeline_status_nonzero (statuses : list Z) :
  pipeline_status statuses <> 0%Z ->
  exists before after,
    statuses = before ++ pipeline_status statuses :: after
    /\ Forall (fun s => s = 0%Z) before.
Proof.
  induction statuses as [|s l IH]; simpl; [congruence|].
  destruct (Z.eqb_spec s 0) as [->|Hne]; intros H.
  - destruct (IH H) as (b & a & Hl & Hb).
    exists (0%Z :: b), a. split; [simpl; congruence|now constructor].
  - exists [], l. now split.
Qed.

(** X1: when every command of a pipeline is spawned, [checked_pipeline]
    returns normally if all exit statuses are zero, and otherwise
    raises CalledProcessError carrying the command list, the options,
    the first nonzero status in pipeline order and no output. *)
Theorem checked_pipeline_raises_first_failure (os : os_model)
    (children : nat -> child) (cmds : list pyval) (stdin stdout : pyval)
    (kw : gmap string pyval) (w : world) :
  (forall w' params,
     os_spawn os w' params = inr (children (length (procs w')))) ->
  popen_options kw ->
  let statuses :=
    exit_status ∘ children <$> seq (length (procs w)) (length cmds) in
  (Forall (fun s => s = 0%Z) statuses ->
   (checked_pipeline os cmds stdin stdout kw w).1 = Return tt)
  /\ (forall before failed after,
        statuses = before ++ failed :: after ->
        Forall (fun s => s = 0%Z) before -> failed <> 0%Z ->
        (checked_pipeline os cmds stdin stdout kw w).1
        = Raise (CalledProcessError [PList cmds; PDict kw] failed PNone)).
Proof.
  intros Hos Hkw statuses.
  destruct (unchecked_pipeline_run os children Hos stdin stdout kw Hkw cmds w)
    as (w' & Hrun).
  fold statuses in Hrun. unfold checked_pipeline.
  erewrite bind_return by exact Hrun. split.
  - intros Hall. apply pipeline_status_zero in Hall. now rewrite Hall.
  - intros before failed after Hst Hb Hf.
    assert (Hps : pipeline_status statuses = failed).
    { rewrite Hst. clear Hst. induction Hb as [|s b -> _ IH]; simpl.
      - now rewrite (proj2 (Z.eqb_neq _ _) Hf).
      - exact IH. }
    rewrite Hps. now rewrite (proj2 (Z.eqb_neq _ _) Hf).
Qed.

Lemma checked_pipeline_raises_first_failure_witness :
  (checked_pipeline
     (scripted_os (scripted_child [0; 0; 5; 7]%Z [9; 1; 4; 2] PNone))
     [PStr "a"; PStr "b"; PStr "c"; PStr "d"] PNone PNone ∅ world0).1
  = Raise (CalledProcessError
             [PList [PStr "a"; PStr "b"; PStr "c"; PStr "d"]; PDict ∅]
             5 PNone).
Proof.
  exact (proj2 (checked_pipeline_raises_first_failure
                  (scripted_os (scripted_child [0; 0; 5; 7]%Z [9; 1; 4; 2] PNone))
                  (scripted_child [0; 0; 5; 7]%Z [9; 1; 4; 2] PNone)
                  [PStr "a"; PStr "b"; PStr "c"; PStr "d"] PNone PNone ∅ world0
                  (fun _ _ => eq_refl) popen_options_empty)
           [0; 0]%Z 5%Z [7%Z] eq_refl
           ltac:(repeat constructor)
           ltac:(discriminate)).
Defined.

(** Directories *)

(** X6: when the block of [with chdir(d)] ends normally, the working
    directory is set back to what it was on entry, also when the block
    itself changed directory; nothing else of what the block did is
    undone. *)
Theorem chdir_restores_on_normal_exit (os : os_model) (d d' : string)
    {A} (block : M A) (a : A) (w w2 : world) :
  os_chdir os (cwd w) d = Some d' ->
  block (set_cwd d' w) = (Return a, w2) ->
  os_chdir os (cwd w2) (cwd w) = Some (cwd w) ->
  with_ (chdir os d) block w = (Return a, set_cwd (cwd w) w2).
Proof.
  intros Hin Hblock Hout. unfold with_, chdir. cbn [before_yield after_yield].
  erewrite bind_return.
  2:{ unfold os_getcwd. erewrite bind_return by reflexivity.
      erewrite bind_return by (apply os_chdir_to_run; exact Hin).
      reflexivity. }
  rewrite Hblock.
  erewrite bind_return by (apply os_chdir_to_run; exact Hout).
  reflexivity.
Qed.

Lemma chdir_restores_on_normal_exit_witness :
  with_ (chdir (constant_os (inr tty_child)) "/tmp")
    (os_chdir_to (constant_os (inr tty_child)) "/var" ;; ret 3) world0
  = (Return 3, set_cwd "/home" (set_cwd "/var" (set_cwd "/tmp" world0))).
Proof.
  exact (chdir_restores_on_normal_exit (constant_os (inr tty_child))
           "/tmp" "/tmp"
           (os_chdir_to (constant_os (inr tty_child)) "/var" ;; ret 3) 3
           world0 (set_cwd "/var" (set_cwd "/tmp" world0))
           eq_refl eq_refl eq_refl).
Defined.

(** X7: when [chdir(d)] cannot enter [d], the OSError is raised, the
    block is not run and the world is left as it was. *)
Theorem chdir_failure_skips_block (os : os_model) (d : string)
    {A} (block : M A) (w : world) :
  os_chdir os (cwd w) d = None ->
  with_ (chdir os d) block w = (Raise (OSError "chdir"), w).
Proof.
  intros Hin. unfold with_, chdir. cbn [before_yield after_yield].
  erewrite bind_raise; [reflexivity|].
  unfold os_getcwd. erewrite bind_return by reflexivity.
  erewrite bind_raise by (apply os_chdir_to_fails; exact Hin).
  reflexivity.
Qed.

(** X8: [popd] on an empty directory stack raises IndexError with the
    message "Directory stack empty" and changes nothing. *)
Theorem popd_empty_stack (os : os_model) (w : world) :
  dir_stack w = [] ->
  popd os w = (Raise (IndexError "Directory stack empty"), w).
Proof.
  intros Hs. unfold popd, try_except, dir_stack_pop.
  erewrite bind_raise.
  2:{ run. rewrite Hs. reflexivity. }
  reflexivity.
Qed.

(** X9: when the directory on top of the stack cannot be entered,
    [popd] raises the OSError, the working directory is unchanged, and
    the entry has been removed from the stack all the same. *)
Theorem popd_pops_even_when_chdir_fails (os : os_model) (w : world)
    (below : list string) (top : string) :
  dir_stack w = below ++ [top] ->
  os_chdir os (cwd w) top = None ->
  popd os w = (Raise (OSError "chdir"), set_dir_stack below w).
Proof.
  intros Hs Hfail. unfold popd, try_except, dir_stack_pop.
  erewrite bind_return.
  2:{ run. rewrite Hs, rev_app_distr. simpl. rewrite rev_involutive.
      reflexivity. }
  now erewrite os_chdir_to_fails by (simpl; exact Hfail).
Qed.

(** X10: when [pushd] cannot enter the directory it raises the OSError
    and pushes nothing: working directory and stack are as before. *)
Theorem pushd_failure_changes_nothing (os : os_model) (d : string) (w : world) :
  os_chdir os (cwd w) d = None ->
  pushd os d w = (Raise (OSError "chdir"), w).
Proof.
  intros Hfail. unfold pushd, os_getcwd.
  erewrite bind_return by reflexivity.
  erewrite bind_raise by (apply os_chdir_to_fails; exact Hfail).
  reflexivity.
Qed.

Lemma bind_assoc_run {A B C} (m : M A) (k : A -> M B) (h : B -> M C) w :
  bind (bind m k) h w = bind m (fun a => bind (k a) h) w.
Proof. unfold bind. destruct (m w) as [[a|e] w']; reflexivity. Qed.

Lemma bind_ext_run {A B} (m : M A) (k k' : A -> M B) w :
  (forall a w', k a w' = k' a w') -> bind m k w = bind m k' w.
Proof. intros H. unfold bind. destruct (m w) as [[a|e] w']; [apply H|reflexivity]. Qed.

Lemma popd_times_snoc os n w :
  popd_times os (S n) w = (popd_times os n ;; popd os) w.
Proof.
  revert w. induction n as [|n IH]; intros w.
  - simpl. unfold bind, ret. destruct (popd os w) as [[[]|e] w']; reflexivity.
  - change (popd_times os (S (S n))) with (popd os ;; popd_times os (S n)).
    change (popd_times os (S n)) with (popd os ;; popd_times os n) at 2.
    rewrite bind_assoc_run. apply bind_ext_run. intros _ w'. apply IH.
Qed.

(** X11: any sequence of [pushd]s followed by as many [popd]s leads
    back to the starting directory with the stack as it was, provided
    each directory involved can be entered under its name. *)
Theorem pushd_popd_nested (os : os_model) (dirs : list string) (w : world) :
  (forall c p, In p (cwd w :: dirs) -> os_chdir os c p = Some p) ->
  (pushd_each os dirs ;; popd_times os (length dirs)) w = (Return tt, w).
Proof.
  revert w. induction dirs as [|d dirs IH]; intros w Hos; [reflexivity|].
  cbn [pushd_each length].
  rewrite bind_assoc_run.
  erewrite bind_return by (apply pushd_run; apply Hos; simpl; auto).
  set (w1 := set_dir_stack (dir_stack w ++ [cwd w]) (set_cwd d w)).
  rewrite (bind_ext_run _ _ (fun _ => popd_times os (length dirs) ;; popd os))
    by (intros; apply popd_times_snoc).
  rewrite <- bind_assoc_run.
  erewrite bind_return.
  2:{ apply IH. intros c p Hp. apply Hos. simpl in *. tauto. }
  unfold popd, try_except, dir_stack_pop.
  erewrite bind_return.
  2:{ run. subst w1. cbn [dir_stack set_dir_stack set_cwd].
      rewrite rev_app_distr. simpl. rewrite rev_involutive. reflexivity. }
  erewrite os_chdir_to_run by (apply Hos; simpl; auto).
  subst w1. now destruct w.
Qed.

Lemma pushd_popd_nested_witness :
  (pushd_each (constant_os (inr tty_child)) ["/tmp"; "/var"; "/usr"] ;;
   popd_times (constant_os (inr tty_child)) 3) world0
  = (Return tt, world0).
Proof.
  exact (pushd_popd_nested (constant_os (inr tty_child))
           ["/tmp"; "/var"; "/usr"] world0 (fun _ _ _ => eq_refl)).
Defined.

(** ** How a pipeline is wired *)

Lemma wired_params kw cmd a b :
  popen_options kw ->
  exists params,
    Popen_bind [cmd] (<["stdin" := a]> (<["stdout" := b]> kw)) = inr params
    /\ params !! "args" = Some cmd
    /\ params !! "stdin" = Some a
    /\ params !! "stdout" = Some b
    /\ forall k v, kw !! k = Some v -> k <> "stdin" -> k <> "stdout" ->
         params !! k = Some v.
Proof.
  intros Hkw. eexists. split; [apply Popen_bind_cmd, popen_options_wiring, Hkw|].
  assert (Hk : kw !! "args" = None).
  { apply not_elem_of_dom. intros Hin. apply Hkw in Hin. set_solver. }
  generalize Popen_defaults. intros D.
  repeat split.
  - apply lookup_union_Some_l, lookup_union_Some_l, lookup_singleton_eq.
  - apply lookup_union_Some_l.
    rewrite lookup_union_r by (now rewrite lookup_singleton_ne).
    apply lookup_insert_eq.
  - apply lookup_union_Some_l.
    rewrite lookup_union_r by (now rewrite lookup_singleton_ne).
    now rewrite lookup_insert_ne, lookup_insert_eq.
  - intros k v Hv Hn1 Hn2.
    assert (k <> "args") by (intros ->; congruence).
    apply lookup_union_Some_l.
    rewrite lookup_union_r by (now rewrite lookup_singleton_ne).
    now rewrite !lookup_insert_ne.
Qed.

Lemma loop_inv_step os children kw stdin stdout all p0 r0 pipes0 i w cmd :
  (forall w' params,
     os_spawn os w' params = inr (children (length (procs w')))) ->
  popen_options kw ->
  (forall p, p ∈ pipes0 -> p < p0) ->
  all !! i = Some cmd ->
  loop_inv children kw stdin stdout all p0 r0 pipes0 i w ->
  exists w2,
    (_stdin <- (if bool_decide (i = 0) then ret stdin
                else p <- index_from_end (seq p0 i) 1 ;; Popen_get_stdout p) ;;
     p <- Popen os [cmd]
            (<["stdin" := _stdin]>
               (<["stdout" := if bool_decide (Z.of_nat i
                                              = (Z.of_nat (length all) - 1)%Z)
                              then stdout else subprocess_PIPE]> kw)) ;;
     (if bool_decide (0 < i) then
        prev <- index_from_end (seq p0 i ++ [p]) 2 ;;
        f <- Popen_get_stdout prev ;;
        file_close f ;;
        Popen_set_stdout prev PNone
      else ret tt) ;;
     ret p) w = (Return (p0 + i), w2)
    /\ loop_inv children kw stdin stdout all p0 r0 pipes0 (S i) w2.
Proof.
  intros Hos Hkw Hfresh Hcmd ((Hlen & Hall) & (Hrl & Hrq & Hop) & Hlast).
  assert (Hi : i < length all) by (apply lookup_lt_Some in Hcmd; exact Hcmd).
  set (so := if bool_decide (Z.of_nat i = (Z.of_nat (length all) - 1)%Z)
             then stdout else subprocess_PIPE).
  assert (Hso : so = pipeline_stdout stdout (length all) i).
  { subst so. unfold pipeline_stdout.
    destruct (decide (S i = length all)) as [He|Hne].
    - rewrite !bool_decide_eq_true_2 by lia. reflexivity.
    - rewrite !bool_decide_eq_false_2 by lia. reflexivity. }
  assert (Hstdin : exists w0 : unit,
    (if bool_decide (i = 0) then ret stdin
     else p <- index_from_end (seq p0 i) 1 ;; Popen_get_stdout p) w
    = (Return (pipeline_stdin stdin p0 i), w)).
  { exists tt. unfold pipeline_stdin. destruct i as [|i].
    - reflexivity.
    - rewrite bool_decide_eq_false_2 by lia. rewrite seq_S.
      destruct (Hlast ltac:(lia) Hi) as (po & Hpo & Hpipe).
      replace (p0 + S i - 1) with (p0 + i) in * by lia.
      erewrite bind_return by apply index_from_end_last.
      erewrite Popen_get_stdout_run by exact Hpo. now rewrite Hpipe. }
  destruct Hstdin as (_ & Hstdin).
  erewrite bind_return by exact Hstdin.
  destruct (wired_params kw cmd (pipeline_stdin stdin p0 i) so Hkw)
    as (params & Hb & Ha & Hsi & Hsod & Hkeep).
  erewrite bind_return by (eapply Popen_run; [exact Hb|apply Hos]).
  rewrite Hlen.
  set (w1 := spawned params (children (length (procs _))) w).
  assert (Hw1req : requests w1 = requests w ++ [params]) by reflexivity.
  assert (Hw1pipes : open_pipes w1
                     = if is_PIPE (Some so) then {[p0 + i]} ∪ open_pipes w
                       else open_pipes w).
  { subst w1. unfold spawned. simpl. rewrite Hsod, Hlen. reflexivity. }
  assert (Hw1last : procs w1 !! (p0 + i)
                    = Some (PopenObj params (children (p0 + i))
                              (if is_PIPE (Some so) then PPipe (p0 + i)
                               else PNone))).
  { subst w1. rewrite <- Hlen at 1. rewrite spawned_procs_last.
    simpl. now rewrite Hsod, Hlen. }
  assert (Ht1 : tracked children p0 (S i) w1).
  { subst w1. simpl. rewrite Hlen.
    apply tracked_spawned. now split. }
  assert (Hreq1 : forall j c, j < S i -> all !! j = Some c ->
            exists rq, requests w1 !! (r0 + j) = Some rq
                       /\ wired_request kw stdin stdout p0 (length all) j c rq).
  { intros j c Hj Hc. rewrite Hw1req.
    destruct (decide (j = i)) as [->|Hne].
    - rewrite lookup_app_r by lia. replace (r0 + i - length (requests w)) with 0 by lia.
      exists params. split; [reflexivity|].
      assert (c = cmd) by congruence. subst c.
      repeat split; try assumption. now rewrite <- Hso.
    - rewrite lookup_app_l by lia. apply Hrq; [lia|exact Hc]. }
  destruct i as [|i].
  - (* first command: nothing to close *)
    rewrite bool_decide_eq_false_2 by lia.
    erewrite bind_return by reflexivity.
    eexists. split; [unfold ret; f_equal; f_equal; lia|].
    split; [exact Ht1|]. split.
    + split; [rewrite Hw1req, length_app; simpl; lia|].
      split; [exact Hreq1|].
      rewrite Hw1pipes, Hop. change (1 - 1) with 0. rewrite <- Hso.
      rewrite (bool_decide_eq_true_2 (0 < 1)) by lia.
      rewrite (bool_decide_eq_false_2 (0 < 0)) by lia. simpl.
      replace (p0 + 1 - 1) with (p0 + 0) by lia. reflexivity.
    + intros _ Hn. eexists. split.
      * replace (p0 + 1 - 1) with (p0 + 0) by lia. exact Hw1last.
      * simpl. rewrite Hso. unfold pipeline_stdout.
        rewrite bool_decide_eq_false_2 by lia. simpl. f_equal. lia.
  - (* later command: close the pipe of the one before *)
    rewrite bool_decide_eq_true_2 by lia.
    destruct (Hlast ltac:(lia) Hi) as (po & Hpo & Hpipe).
    replace (p0 + S i - 1) with (p0 + i) in * by lia.
    assert (Hpo1 : procs w1 !! (p0 + i) = Some po).
    { subst w1. unfold spawned. simpl. rewrite lookup_app_l; [exact Hpo|].
      apply lookup_lt_Some in Hpo. exact Hpo. }
    erewrite bind_return.
    2:{ rewrite seq_S, <- app_assoc.
        erewrite bind_return by apply index_from_end_second.
        erewrite bind_return by (apply Popen_get_stdout_run; exact Hpo1).
        rewrite Hpipe.
        erewrite bind_return by reflexivity.
        apply Popen_set_stdout_run. simpl. exact Hpo1. }
    eexists. split; [reflexivity|].
    split; [|split].
    + apply (tracked_set_stdout children p0 (S (S i))
               (set_open_pipes (open_pipes w1 ∖ {[p0 + i]}) w1));
        [exact Ht1|exact Hpo1].
    + split; [simpl; rewrite length_app; simpl; lia|].
      split; [exact Hreq1|].
      cbn [open_pipes set_procs set_open_pipes].
      rewrite Hw1pipes, Hop.
      rewrite (bool_decide_eq_true_2 (0 < S i)) by lia.
      replace (S i - 1) with i by lia.
      assert (Hprev : pipeline_stdout stdout (length all) i = subprocess_PIPE).
      { unfold pipeline_stdout. now rewrite bool_decide_eq_false_2 by lia. }
      rewrite Hprev. rewrite (bool_decide_eq_true_2 (0 < S (S i))) by lia.
      replace (S (S i) - 1) with (S i) by lia. rewrite <- Hso.
      change (is_PIPE (Some subprocess_PIPE)) with true. cbn [andb].
      assert (Hnot : p0 + i ∉ pipes0) by (intros Hin; apply Hfresh in Hin; lia).
      replace (p0 + S i - 1) with (p0 + i) by lia.
      destruct (is_PIPE (Some so)); apply set_eq; intros x;
        rewrite ?elem_of_difference, ?elem_of_union, ?elem_of_singleton;
        split; intros; destruct_and?; destruct_or?; subst;
        try tauto; try lia; try (split; [tauto|]; intros ->; tauto);
        try (split; [tauto|]; lia).
    + intros _ Hn. eexists. split.
      * cbn [procs set_procs set_open_pipes].
        rewrite list_lookup_insert_ne by lia.
        replace (p0 + S (S i) - 1) with (p0 + S i) by lia. exact Hw1last.
      * simpl. rewrite Hso. unfold pipeline_stdout.
        rewrite bool_decide_eq_false_2 by lia. simpl. f_equal. lia.
Qed.

Lemma spawn_pipeline_wired os children kw stdin stdout all p0 r0 pipes0 :
  (forall w' params,
     os_spawn os w' params = inr (children (length (procs w')))) ->
  popen_options kw ->
  (forall p, p ∈ pipes0 -> p < p0) ->
  forall cmds i w,
    i + length cmds = length all ->
    (forall j cmd, cmds !! j = Some cmd -> all !! (i + j) = Some cmd) ->
    loop_inv children kw stdin stdout all p0 r0 pipes0 i w ->
    exists w',
      spawn_pipeline os (Z.of_nat (length all) - 1) stdin stdout kw i
        (seq p0 i) cmds w
      = (Return (seq p0 (length all)), w')
      /\ loop_inv children kw stdin stdout all p0 r0 pipes0 (length all) w'.
Proof.
  intros Hos Hkw Hfresh.
  induction cmds as [|cmd cmds IH]; intros i w Hlen Hsub Hinv.
  - exists w. simpl in *. replace (length all) with i by lia. now split.
  - assert (Hcmd : all !! i = Some cmd).
    { specialize (Hsub 0 cmd eq_refl). now rewrite Nat.add_0_r in Hsub. }
    destruct (loop_inv_step os children kw stdin stdout all p0 r0 pipes0 i w
                cmd Hos Hkw Hfresh Hcmd Hinv) as (w2 & Hstep & Hinv2).
    destruct (IH (S i) w2) as (w' & Hrun & Hinv').
    + simpl in Hlen. lia.
    + intros j c Hj. replace (S i + j) with (i + S j) by lia. now apply Hsub.
    + exact Hinv2.
    + exists w'. split; [|exact Hinv'].
      rewrite <- Hrun. cbn [spawn_pipeline].
      rewrite seq_S.
      clear -Hstep.
      unfold bind in *.
      destruct ((if bool_decide (i = 0) then ret stdin else _) w)
        as [[si|e] wa]; [|discriminate].
      destruct (Popen os [cmd] _ wa) as [[p|e] wb]; [|discriminate].
      destruct ((if bool_decide (0 < i) then _ else ret ()) wb)
        as [[[]|e] wc]; [|discriminate].
      unfold ret in Hstep. injection Hstep as -> ->. reflexivity.
Qed.

Lemma waits_only_advance_clock children p0 : forall n k w,
  tracked children p0 (k + n) w ->
  exists t,
    mapM (fun p => Popen_wait p PNone) (seq (p0 + k) n) w
    = (Return (exit_status ∘ children <$> seq (p0 + k) n), set_clock t w).
Proof.
  induction n as [|n IH]; intros k w Ht.
  - exists (clock w). simpl. unfold ret. now destruct w.
  - destruct Ht as [Hlen Hall].
    destruct (Hall k ltac:(lia)) as (po & Hpo & Hc).
    cbn [seq mapM].
    erewrite bind_return by (apply Popen_wait_run; exact Hpo).
    set (w1 := set_clock _ w).
    destruct (IH (S k) w1) as (t & Hrun).
    { split; [subst w1; simpl; lia|]. intros j Hj. apply Hall. lia. }
    replace (p0 + S k) with (S (p0 + k)) in Hrun by lia.
    exists t. erewrite bind_return by exact Hrun.
    unfold ret. cbn. now rewrite Hc.
Qed.

(** X2: a pipeline of n commands asks for n children in order; the
    i-th gets command i, reads the caller's [stdin] if it is the first
    and the pipe of its predecessor otherwise, writes to the caller's
    [stdout] if it is the last and to a new pipe otherwise, and gets
    every other option unchanged.  Afterwards the parent holds no read
    end of an intermediate pipe: the open pipes are the ones open
    before, plus the last child's when the caller asked for a pipe. *)
Theorem unchecked_pipeline_wiring (os : os_model) (children : nat -> child)
    (cmds : list pyval) (stdin stdout : pyval) (kw : gmap string pyval)
    (w : world) :
  (forall w' params,
     os_spawn os w' params = inr (children (length (procs w')))) ->
  popen_options kw ->
  (forall p, p ∈ open_pipes w -> p < length (procs w)) ->
  let w' := (unchecked_pipeline os cmds stdin stdout kw w).2 in
  let p0 := length (procs w) in
  let n := length cmds in
  length (requests w') = length (requests w) + n
  /\ (forall i cmd, cmds !! i = Some cmd ->
        exists rq,
          requests w' !! (length (requests w) + i) = Some rq
          /\ rq !! "args" = Some cmd
          /\ rq !! "stdin" = Some (if bool_decide (i = 0) then stdin
                                   else PPipe (p0 + i - 1))
          /\ rq !! "stdout" = Some (if bool_decide (S i = n) then stdout
                                    else subprocess_PIPE)
          /\ forall k v, kw !! k = Some v -> k <> "stdin" -> k <> "stdout" ->
               rq !! k = Some v)
  /\ open_pipes w'
     = (if bool_decide (0 < n) && is_PIPE (Some stdout)
        then {[p0 + n - 1]} ∪ open_pipes w else open_pipes w).
Proof.
  intros Hos Hkw Hfresh w' p0 n. subst w'.
  destruct (spawn_pipeline_wired os children kw stdin stdout cmds p0
              (length (requests w)) (open_pipes w) Hos Hkw Hfresh cmds 0 w)
    as (w1 & Hrun & (Ht & (Hrl & Hrq & Hop) & _)).
  - reflexivity.
  - intros j cmd Hj. exact Hj.
  - split; [|split].
    + split; [subst p0; lia|]. intros j Hj. lia.
    + split; [lia|]. split; [intros j cmd Hj; lia|].
      now rewrite bool_decide_eq_false_2 by lia.
    + intros Hi. lia.
  - destruct (waits_only_advance_clock children p0 (length cmds) 0 w1 Ht)
      as (t & Hw).
    rewrite Nat.add_0_r in Hw.
    unfold unchecked_pipeline.
    erewrite bind_return by exact Hrun.
    erewrite bind_return by exact Hw.
    rewrite first_failure_run. cbn [snd requests open_pipes set_clock].
    split; [exact Hrl|]. split.
    + intros i cmd Hi.
      destruct (Hrq i cmd (lookup_lt_Some _ _ _ Hi) Hi) as (rq & Hl & Hw').
      exists rq. split; [exact Hl|exact Hw'].
    + rewrite Hop. unfold pipeline_stdout.
      destruct (decide (0 < n)) as [Hn|Hn].
      * rewrite !(bool_decide_eq_true_2 (0 < _)) by exact Hn.
        rewrite bool_decide_eq_true_2 by (subst n; lia). reflexivity.
      * rewrite !(bool_decide_eq_false_2 (0 < _)) by exact Hn. reflexivity.
Qed.

(** ** More on capturing output *)

Lemma in_Popen_keywords k :
  In k (Popen_positional ++ Popen_kwonly) -> k ∈ Popen_keywords.
Proof. intros H. apply elem_of_list_to_set, list_elem_of_In, H. Qed.

Lemma sp_clocale_dom kw :
  dom (sp_clocale kw) ⊆ {["stdout"]} ∪ {["stderr"]} ∪ dom (without_own_options kw).
Proof.
  unfold sp_clocale, sp_err2out, sp_stdout, without_own_options.
  destruct (truthy _);
    repeat (rewrite ?dom_delete_L, ?dom_insert_L); set_solver.
Qed.

Lemma sp_kwargs_options w kw d :
  popen_options (without_own_options kw) ->
  sp_kwargs_of w kw = inr d ->
  popen_options d.
Proof.
  intros Hkw Hd. unfold popen_options in *.
  assert (Hk : forall k, k = "stdout" \/ k = "stderr" \/ k = "env" ->
                 k ∈ Popen_keywords ∖ {["args"]}).
  { intros k Hk. apply elem_of_difference. split.
    - apply in_Popen_keywords. simpl. intuition.
    - rewrite elem_of_singleton. intuition congruence. }
  assert (Hc : dom (sp_clocale kw) ⊆ Popen_keywords ∖ {["args"]}).
  { intros x Hx. apply sp_clocale_dom in Hx.
    rewrite !elem_of_union, !elem_of_singleton in Hx.
    destruct Hx as [[->| ->]|Hx]; [apply Hk; auto..|apply Hkw, Hx]. }
  unfold sp_kwargs_of in Hd. destruct (clocale_on kw).
  - destruct (dict_from _ _) as [|env]; [discriminate|]. injection Hd as <-.
    unfold sp_final. rewrite dom_insert_L, dom_delete_L.
    intros x. rewrite elem_of_union, elem_of_singleton, elem_of_difference.
    intros [->|[Hx _]]; [apply Hk; auto|apply Hc, Hx].
  - injection Hd as <-. exact Hc.
Qed.

Lemma sp_kwargs_stdout w kw d :
  sp_kwargs_of w kw = inr d -> d !! "stdout" = Some subprocess_PIPE.
Proof.
  unfold sp_kwargs_of. destruct (clocale_on kw).
  - destruct (dict_from _ _) as [|env]; [discriminate|]. intros [= <-].
    rewrite sp_final_lookup by done. apply sp_clocale_stdout.
  - intros [= <-]. apply sp_clocale_stdout.
Qed.

Lemma sp_kwargs_mapping w kw :
  (forall v, kw !! "env" = Some v -> exists m, v = PDict m) ->
  exists d, sp_kwargs_of w kw = inr d.
Proof.
  intros Henv. unfold sp_kwargs_of. destruct (clocale_on kw); [|eauto].
  rewrite sp_base_env_kw. destruct (kw !! "env") as [v|] eqn:Hv.
  - destruct (Henv v eq_refl) as (m & ->). simpl. eauto.
  - simpl. eauto.
Qed.

(** A complete run of [checked_backtick] once a child is spawned. *)
Lemma checked_backtick_run os a0 rest kwargs kw w cmd d params c :
  dicts w !! kwargs = Some kw ->
  backtick_cmd a0 kw = inr cmd ->
  sp_kwargs_of w kw = inr d ->
  percent_s cmd (with_copy d w) = (Return tt, with_copy d w) ->
  Popen_bind (cmd :: rest) d = inr params ->
  os_spawn os
    (set_requests (requests (with_copy d w) ++ [params]) (with_copy d w))
    params = inr c ->
  checked_backtick os (a0 :: rest) kwargs w
  = (match backtick_output (default (PBool false) (kw !! "nostrip"))
             (if is_PIPE (params !! "stdout") then child_stdout c
              else PNone) with
     | inl e => Raise e
     | inr output =>
         if (exit_status c =? 0)%Z then Return output
         else Raise (CalledProcessError [PTuple (a0 :: rest); PDict kw]
                       (exit_status c) output)
     end,
     after_call params c (with_copy d w)).
Proof.
  intros Hkw Hcmd Hd Hfmt Hb Hs.
  rewrite (checked_backtick_unfold _ _ _ _ _ _ Hkw), Hcmd. cbv zeta.
  unfold sp_kwargs_of in Hd. destruct (clocale_on kw).
  - destruct (dict_from _ _) as [|env]; [discriminate|]. injection Hd as <-.
    now apply backtick_tail_run.
  - injection Hd as <-. now apply backtick_tail_run.
Qed.

Lemma Popen_bind_captures cmd d :
  popen_options d ->
  d !! "stdout" = Some subprocess_PIPE ->
  exists params,
    Popen_bind [cmd] d = inr params
    /\ params !! "stdout" = Some subprocess_PIPE.
Proof.
  intros Hd Ho. eexists. split; [apply Popen_bind_cmd, Hd|].
  apply lookup_union_Some_l.
  rewrite lookup_union_r by (now rewrite lookup_singleton_ne).
  exact Ho.
Qed.

(** X3: when the child is spawned and writes bytes, the captured text
    is the latin-1 decoding of the bytes, stripped of surrounding
    whitespace unless [nostrip] is true.  [sbacktick] returns it with
    the exit status and [backtick] returns it alone, whatever the
    status; [checked_backtick] returns it on status zero and otherwise
    raises CalledProcessError with the status and the text. *)
Theorem backtick_output_and_status (os : os_model) (c : child)
    (bs : list byte) (l : list pyval) (kw : gmap string pyval) (w : world) :
  (forall w' params, os_spawn os w' params = inr c) ->
  child_stdout c = PBytes bs ->
  popen_options (without_own_options kw) ->
  (forall v, kw !! "env" = Some v -> exists m, v = PDict m) ->
  let text := string_of_list_byte bs in
  let output :=
    PStr (if truthy (default (PBool false) (kw !! "nostrip")) then text
          else strip text) in
  (sbacktick os [PList l] kw w).1 = Return (output, exit_status c)
  /\ (backtick os [PList l] kw w).1 = Return output
  /\ (forall kwargs, dicts w !! kwargs = Some kw ->
        (checked_backtick os [PList l] kwargs w).1
        = if (exit_status c =? 0)%Z then Return output
          else Raise (CalledProcessError [PTuple [PList l]; PDict kw]
                        (exit_status c) output)).
Proof.
  intros Hos Hbs Hkw Henv text output.
  assert (Hrun : forall w0 kwargs, dicts w0 !! kwargs = Some kw ->
            environ w0 = environ w ->
            exists w1,
              checked_backtick os [PList l] kwargs w0
              = (if (exit_status c =? 0)%Z then Return output
                 else Raise (CalledProcessError [PTuple [PList l]; PDict kw]
                               (exit_status c) output), w1)).
  { intros w0 kwargs Hk He.
    destruct (sp_kwargs_mapping w0 kw Henv) as (d & Hd).
    destruct (Popen_bind_captures (PList l) d
                (sp_kwargs_options w0 kw d Hkw Hd) (sp_kwargs_stdout w0 kw d Hd))
      as (params & Hb & Ho).
    eexists.
    erewrite (checked_backtick_run os (PList l) [] kwargs kw w0 (PList l) d
                params c Hk eq_refl Hd eq_refl Hb (Hos _ _)).
    rewrite Ho. change (is_PIPE (Some subprocess_PIPE)) with true. cbv iota.
    unfold backtick_output, maybe_to_str, default_encoding.
    rewrite Hbs, bytes_decode_latin1. subst output text.
    destruct (truthy (default (PBool false) (kw !! "nostrip"))); reflexivity. }
  split; [|split].
  - unfold sbacktick.
    destruct (Hrun (with_copy kw w) (length (dicts w)) (dicts_with_copy w kw)
                eq_refl) as (w1 & Hr).
    destruct (Z.eqb_spec (exit_status c) 0) as [Hz|Hz].
    + rewrite Hz. erewrite try_except_return; [reflexivity|].
      erewrite bind_return by reflexivity.
      erewrite bind_return by exact Hr. reflexivity.
    + unfold try_except.
      erewrite bind_return by reflexivity.
      erewrite bind_raise by exact Hr. reflexivity.
  - unfold backtick.
    destruct (Hrun (with_copy kw w) (length (dicts w)) (dicts_with_copy w kw)
                eq_refl) as (w1 & Hr).
    destruct (exit_status c =? 0)%Z.
    + erewrite try_except_return; [reflexivity|].
      erewrite bind_return by reflexivity. exact Hr.
    + unfold try_except.
      erewrite bind_return by reflexivity. unfold with_copy in Hr.
      rewrite Hr. reflexivity.
  - intros kwargs Hk. destruct (Hrun w kwargs Hk eq_refl) as (w1 & ->).
    reflexivity.
Qed.

Lemma backtick_output_and_status_witness :
  (sbacktick (constant_os (inr (Child 3 1
                (PBytes [x20; x68; x69; x0a]) PNone)))
     [PList [PStr "hi"]] ∅ world0).1
  = Return (PStr "hi", 3%Z).
Proof.
  refine (proj1 (backtick_output_and_status
                   (constant_os (inr (Child 3 1
                      (PBytes [x20; x68; x69; x0a]) PNone)))
                   (Child 3 1 (PBytes [x20; x68; x69; x0a]) PNone)
                   [x20; x68; x69; x0a] [PStr "hi"] ∅ world0
                   (fun _ _ => eq_refl) eq_refl _ _)).
  - unfold without_own_options. rewrite !delete_empty.
    exact popen_options_empty.
  - intros v H. rewrite lookup_empty in H. discriminate H.
Defined.

(** Either [checked_backtick] raises before asking for a child, or it
    asks for exactly one, with the command and the keyword dictionary
    it prepared. *)
Lemma checked_backtick_request os a0 rest kwargs kw w :
  dicts w !! kwargs = Some kw ->
  let r := checked_backtick os (a0 :: rest) kwargs w in
  (requests r.2 = requests w /\ exists e, r.1 = Raise e)
  \/ exists cmd d params,
       backtick_cmd a0 kw = inr cmd
       /\ sp_kwargs_of w kw = inr d
       /\ Popen_bind (cmd :: rest) d = inr params
       /\ requests r.2 = requests w ++ [params].
Proof.
  intros Hkw r. subst r. rewrite (checked_backtick_unfold _ _ _ _ _ _ Hkw).
  destruct (backtick_cmd a0 kw) as [e|cmd] eqn:Hcmd.
  { left. split; [reflexivity|]. now exists e. }
  cbv zeta. unfold sp_kwargs_of. destruct (clocale_on kw) eqn:Hcl.
  - destruct (dict_from (sp_base_env w kw) locale_overrides) as [e|env] eqn:He.
    { left. split; [reflexivity|]. now exists e. }
    destruct (backtick_tail_effects os (a0 :: rest) kwargs kw
                (default (PBool false) (kw !! "nostrip")) cmd
                (sp_final env kw) w Hkw) as (_ & [Hr|(params & Hb & Hr)]);
      [now left|right].
    now exists cmd, (sp_final env kw), params.
  - destruct (backtick_tail_effects os (a0 :: rest) kwargs kw
                (default (PBool false) (kw !! "nostrip")) cmd
                (sp_clocale kw) w Hkw) as (_ & [Hr|(params & Hb & Hr)]);
      [now left|right].
    now exists cmd, (sp_clocale kw), params.
Qed.

Lemma Popen_bind_later_keyword cmd rest d params k :
  Popen_bind (cmd :: rest) d = inr params ->
  is_Some (d !! "stdout") ->
  k <> "args" -> k <> "bufsize" -> k <> "executable" -> k <> "stdin" ->
  params !! k = (d ∪ Popen_defaults) !! k.
Proof.
  intros Hb Hout H1 H2 H3 H4.
  pose proof (Popen_bind_inr _ _ _ Hb) as ->.
  unfold Popen_bind, bind_arguments in Hb.
  repeat case_bool_decide; try discriminate. clear Hb.
  match goal with H : dom d ∩ _ = ∅ |- _ => rename H into Hdis end.
  assert (Hno : (list_to_map (zip Popen_positional (cmd :: rest))
                 : gmap string pyval) !! "stdout" = None).
  { apply not_elem_of_dom. intros Hin.
    apply elem_of_dom in Hout. set_solver. }
  generalize dependent Popen_defaults. intros D _.
  rewrite <- assoc_L by apply _.
  apply lookup_union_r.
  destruct rest as [|a1 [|a2 [|a3 [|a4 rest]]]];
    cbn [zip zip_with Popen_positional list_to_map foldr] in *.
  5:{ exfalso. simpl in Hno.
      rewrite !lookup_insert_ne, lookup_insert_eq in Hno by done.
      discriminate. }
  all: simpl; rewrite ?lookup_insert_ne by done; apply lookup_empty.
Qed.

Lemma sp_kwargs_stderr w kw d :
  sp_kwargs_of w kw = inr d ->
  d !! "stderr"
  = if truthy (default (PBool false) (kw !! "err2out"))
    then Some subprocess_STDOUT else kw !! "stderr".
Proof.
  intros Hd.
  assert (Hc : sp_clocale kw !! "stderr"
               = if truthy (default (PBool false) (kw !! "err2out"))
                 then Some subprocess_STDOUT else kw !! "stderr").
  { unfold sp_clocale, sp_err2out. rewrite lookup_delete_ne by done.
    rewrite sp_stdout_lookup by done.
    destruct (truthy _).
    - apply lookup_insert_eq.
    - rewrite lookup_delete_ne by done. now apply sp_stdout_lookup. }
  unfold sp_kwargs_of in Hd. destruct (clocale_on kw).
  - destruct (dict_from _ _); [discriminate|]. injection Hd as <-.
    now rewrite sp_final_lookup.
  - now injection Hd as <-.
Qed.

Lemma default_of_union (d : gmap string pyval) k v :
  Popen_defaults !! k = Some v ->
  (d ∪ Popen_defaults) !! k = Some (default v (d !! k)).
Proof.
  intros Hk. rewrite lookup_union. destruct (d !! k); simpl.
  - now rewrite Hk.
  - now rewrite Hk.
Qed.

(** X4: the child [checked_backtick] asks for always has its standard
    output captured through a pipe, whatever [stdout] the caller gave;
    its [stderr] is redirected to the standard output exactly when
    [err2out] is true; with [clocale] false its environment is the
    caller's [env] as given; and the options [nostrip], [err2out] and
    [clocale] are never passed on to Popen. *)
Theorem checked_backtick_request_options (os : os_model) (a0 : pyval)
    (rest : list pyval) (kwargs : nat) (kw params : gmap string pyval)
    (w : world) :
  dicts w !! kwargs = Some kw ->
  requests (checked_backtick os (a0 :: rest) kwargs w).2
  = requests w ++ [params] ->
  params !! "stdout" = Some subprocess_PIPE
  /\ params !! "stderr"
     = Some (if truthy (default (PBool false) (kw !! "err2out"))
             then subprocess_STDOUT else default PNone (kw !! "stderr"))
  /\ (truthy (default (PBool true) (kw !! "clocale")) = false ->
      params !! "env" = Some (default PNone (kw !! "env")))
  /\ (forall k, k = "nostrip" \/ k = "err2out" \/ k = "clocale" ->
        params !! k = None).
Proof.
  intros Hkw Hreq.
  destruct (checked_backtick_request os a0 rest kwargs kw w Hkw)
    as [[Hsame _]|(cmd & d & params' & Hcmd & Hd & Hb & Hr)].
  { rewrite Hsame in Hreq. apply (f_equal length) in Hreq.
    rewrite length_app in Hreq. simpl in Hreq. lia. }
  rewrite Hr in Hreq. apply app_inv_head in Hreq. injection Hreq as ->.
  pose proof (sp_kwargs_stdout w kw d Hd) as Ho.
  assert (Hsome : is_Some (d !! "stdout")) by (rewrite Ho; eauto).
  split; [|split; [|split]].
  - rewrite (Popen_bind_later_keyword _ _ _ _ "stdout" Hb) by done.
    now apply lookup_union_Some_l.
  - rewrite (Popen_bind_later_keyword _ _ _ _ "stderr" Hb) by done.
    rewrite (default_of_union d "stderr" PNone) by reflexivity.
    rewrite (sp_kwargs_stderr w kw d Hd).
    now destruct (truthy _).
  - intros Hcl.
    rewrite (Popen_bind_later_keyword _ _ _ _ "env" Hb) by done.
    rewrite (default_of_union d "env" PNone) by reflexivity.
    unfold sp_kwargs_of in Hd. rewrite clocale_on_kw, Hcl in Hd.
    injection Hd as <-. now rewrite sp_clocale_lookup.
  - intros k Hk.
    assert (Hdk : d !! k = None).
    { unfold sp_kwargs_of in Hd.
      assert (Hc : sp_clocale kw !! k = None).
      { unfold sp_clocale, sp_err2out, sp_stdout.
        destruct Hk as [->|[->| ->]]; destruct (truthy _);
          repeat first [ rewrite lookup_delete_eq; reflexivity
                       | rewrite lookup_delete_ne by done
                       | rewrite lookup_insert_ne by done ]. }
      destruct (clocale_on kw).
      - destruct (dict_from _ _); [discriminate|]. injection Hd as <-.
        rewrite sp_final_lookup; [exact Hc|].
        destruct Hk as [->|[->| ->]]; done.
      - now injection Hd as <-. }
    rewrite (Popen_bind_later_keyword _ _ _ _ k Hb);
      [|exact Hsome|destruct Hk as [->|[->| ->]]; done..].
    rewrite lookup_union, Hdk.
    destruct Hk as [->|[->| ->]]; reflexivity.
Qed.

(** X5: a command given as a tuple that does not hold exactly one item
    makes [checked_backtick] raise a TypeError from the formatting of
    its log line, before any child is asked for. *)
Theorem checked_backtick_rejects_tuple (os : os_model) (l rest : list pyval)
    (kwargs : nat) (kw : gmap string pyval) (w : world) :
  dicts w !! kwargs = Some kw ->
  length l <> 1 ->
  (forall v, kw !! "env" = Some v -> exists m, v = PDict m) ->
  let r := checked_backtick os (PTuple l :: rest) kwargs w in
  (exists what, r.1 = Raise (TypeError what))
  /\ requests r.2 = requests w /\ procs r.2 = procs w.
Proof.
  intros Hkw Hl Henv r. subst r.
  rewrite (checked_backtick_unfold _ _ _ _ _ _ Hkw). cbn [backtick_cmd].
  cbv zeta.
  assert (Htail : forall d,
    backtick_tail os (PTuple l :: rest) kwargs
      (default (PBool false) (kw !! "nostrip")) (PTuple l)
      (length (dicts w)) (with_copy d w)
    = (Raise (TypeError "wrong number of arguments for format string"),
       with_copy d w)).
  { intros d. unfold backtick_tail. erewrite bind_raise; [reflexivity|].
    unfold percent_s. now rewrite bool_decide_eq_false_2. }
  destruct (sp_kwargs_mapping w kw Henv) as (d & Hd).
  unfold sp_kwargs_of in Hd. destruct (clocale_on kw).
  - destruct (dict_from _ _) as [|env]; [discriminate|].
    rewrite Htail. split; [eauto|split; reflexivity].
  - rewrite Htail. split; [eauto|split; reflexivity].
Qed.

Lemma checked_backtick_rejects_tuple_witness :
  let r := checked_backtick (constant_os (inr tty_child))
             [PTuple [PStr "ls"; PStr "-l"]] 0 world_german in
  (exists what, r.1 = Raise (TypeError what))
  /\ requests r.2 = [] /\ procs r.2 = [].
Proof.
  refine (checked_backtick_rejects_tuple (constant_os (inr tty_child))
            [PStr "ls"; PStr "-l"] [] 0 ∅ world_german eq_refl _ _).
  - discriminate.
  - intros v H. rewrite lookup_empty in H. discriminate H.
Defined.

Lemma checked_backtick_request_options_witness :
  let params :=
    default ∅ (head (requests
      (checked_backtick (constant_os (inr tty_child))
         [PList [PStr "ls"]] 0 world_options).2)) in
  params !! "stdout" = Some subprocess_PIPE
  /\ params !! "stderr" = Some PNone
  /\ params !! "env" = Some PNone.
Proof.
  pose proof (checked_backtick_request_options (constant_os (inr tty_child))
                (PList [PStr "ls"]) [] 0
                (<["nostrip" := PBool true]> (<["clocale" := PBool false]> ∅))
                (default ∅ (head (requests
                   (checked_backtick (constant_os (inr tty_child))
                      [PList [PStr "ls"]] 0 world_options).2)))
                world_options eq_refl
                ltac:(vm_compute; reflexivity)) as (Ho & He & Hc & _).
  split; [exact Ho|]. split; [exact He|]. exact (Hc eq_refl).
Defined.

(** ** Runs on concrete machines, continued *)

Lemma unchecked_pipeline_wiring_witness :
  let w' := (unchecked_pipeline ls_wc_os ls_wc PNone PNone ∅ world0).2 in
  let p0 := length (procs world0) in
  let n := length ls_wc in
  length (requests w') = length (requests world0) + n
  /\ (forall i cmd, ls_wc !! i = Some cmd ->
        exists rq,
          requests w' !! (length (requests world0) + i) = Some rq
          /\ rq !! "args" = Some cmd
          /\ rq !! "stdin" = Some (if bool_decide (i = 0) then PNone
                                   else PPipe (p0 + i - 1))
          /\ rq !! "stdout" = Some (if bool_decide (S i = n) then PNone
                                    else subprocess_PIPE)
          /\ forall k v, (∅ : gmap string pyval) !! k = Some v ->
               k <> "stdin" -> k <> "stdout" -> rq !! k = Some v)
  /\ open_pipes w'
     = (if bool_decide (0 < n) && is_PIPE (Some PNone)
        then {[p0 + n - 1]} ∪ open_pipes world0 else open_pipes world0).
Proof.
  apply (unchecked_pipeline_wiring ls_wc_os
           (scripted_child [0%Z; 0%Z] [1; 2] PNone) ls_wc PNone PNone ∅ world0).
  - intros w' params. reflexivity.
  - apply popen_options_empty.
  - intros p Hp. simpl in Hp. set_solver.
Defined.

Lemma chdir_failure_skips_block_witness :
  with_ (chdir locked_os "/srv") (ret 1) world0
  = (Raise (OSError "chdir"), world0).
Proof.
  apply (chdir_failure_skips_block locked_os "/srv" (ret 1) world0).
  reflexivity.
Defined.

Lemma popd_empty_stack_witness :
  popd locked_os world0
  = (Raise (IndexError "Directory stack empty"), world0).
Proof. apply (popd_empty_stack locked_os world0). reflexivity. Defined.

Lemma popd_pops_even_when_chdir_fails_witness :
  popd locked_os (set_dir_stack ["/a"; "/b"]%string world0)
  = (Raise (OSError "chdir"),
     set_dir_stack ["/a"%string] (set_dir_stack ["/a"; "/b"]%string world0)).
Proof.
  apply (popd_pops_even_when_chdir_fails locked_os
           (set_dir_stack ["/a"; "/b"]%string world0) ["/a"%string] "/b").
  - reflexivity.
  - reflexivity.
Defined.

Lemma pushd_failure_changes_nothing_witness :
  pushd locked_os "/srv" world0 = (Raise (OSError "chdir"), world0).
Proof.
  apply (pushd_failure_changes_nothing locked_os "/srv" world0).
  reflexivity.
Defined.

(** ** Texts and patterns *)

Lemma append_nil_l (t : string) : ("" ++ t)%string = t.
Proof. reflexivity. Qed.

Lemma append_cons (c : ascii) (s t : string) :
  (String c s ++ t)%string = String c (s ++ t)%string.
Proof. reflexivity. Qed.

Lemma append_nil_r (s : string) : (s ++ "")%string = s.
Proof. induction s as [|c s IH]; [reflexivity|]. now rewrite append_cons, IH. Qed.

Lemma append_assoc (a b c : string) :
  ((a ++ b) ++ c)%string = (a ++ (b ++ c))%string.
Proof.
  induction a as [|x a IH]; [reflexivity|]. now rewrite !append_cons, IH.
Qed.

Lemma add_char_append (m : string) (c : ascii) (p : string) :
  (add_char m c ++ p)%string = (m ++ String c p)%string.
Proof. unfold add_char. now rewrite append_assoc. Qed.

Lemma all_chars_cons cls c s :
  all_chars cls (String c s) = cls c && all_chars cls s.
Proof. reflexivity. Qed.

Lemma all_chars_app cls a b :
  all_chars cls (a ++ b)%string = all_chars cls a && all_chars cls b.
Proof.
  induction a as [|c a IH]; [reflexivity|].
  rewrite append_cons, !all_chars_cons, IH. now rewrite andb_assoc.
Qed.

(** What a greedy repetition finds: some nonempty run of the class
    after which the rest of the pattern succeeds. *)
Lemma re_plus_Some {A} cls (k : string -> string -> option A) : forall s m x,
  re_plus cls k m s = Some x ->
  exists p rest,
    s = (p ++ rest)%string /\ p <> EmptyString /\ all_chars cls p = true
    /\ k (m ++ p)%string rest = Some x.
Proof.
  induction s as [|c r IH]; intros m x H; simpl in H; [discriminate|].
  destruct (cls c) eqn:Hc; [|discriminate].
  destruct (re_plus cls k (add_char m c) r) as [y|] eqn:Hr.
  - injection H as ->. destruct (IH _ _ Hr) as (p & rest & -> & _ & Hp & Hk).
    exists (String c p), rest. repeat split; try discriminate.
    + rewrite all_chars_cons. now rewrite Hc.
    + now rewrite <- add_char_append.
  - exists (String c EmptyString), r. repeat split; try discriminate.
    + rewrite all_chars_cons. now rewrite Hc.
    + exact H.
Qed.

(** It finds the longest such run. *)
Lemma re_plus_longest {A} cls (k : string -> string -> option A) :
  forall p m rest x,
    p <> EmptyString -> all_chars cls p = true ->
    k (m ++ p)%string rest = Some x ->
    (forall q rest', q <> EmptyString -> all_chars cls q = true ->
       rest = (q ++ rest')%string -> k (m ++ p ++ q)%string rest' = None) ->
    re_plus cls k m (p ++ rest)%string = Some x.
Proof.
  induction p as [|c p IH]; intros m rest x Hne Hall Hk Hlong; [done|].
  rewrite all_chars_cons in Hall.
  apply andb_prop in Hall as [Hc Hall]. rewrite append_cons. simpl. rewrite Hc.
  destruct p as [|c' p'].
  - rewrite append_nil_l.
    destruct (re_plus cls k (add_char m c) rest) as [y|] eqn:Hr; [|exact Hk].
    destruct (re_plus_Some _ _ _ _ _ Hr) as (q & rest' & -> & Hq & Hqc & Hkq).
    rewrite add_char_append in Hkq.
    assert (HL := Hlong q rest' Hq Hqc eq_refl).
    change (k (m ++ String c q)%string rest' = None) in HL. congruence.
  - rewrite (IH (add_char m c) rest x); [reflexivity|discriminate|exact Hall| |].
    + now rewrite add_char_append.
    + intros q rest' Hq Hqc ->. rewrite add_char_append.
      exact (Hlong q rest' Hq Hqc eq_refl).
Qed.

(** It succeeds as soon as some run does. *)
Lemma re_plus_is_Some {A} cls (k : string -> string -> option A) :
  forall p m rest,
    p <> EmptyString -> all_chars cls p = true ->
    is_Some (k (m ++ p)%string rest) ->
    is_Some (re_plus cls k m (p ++ rest)%string).
Proof.
  induction p as [|c p IH]; intros m rest Hne Hall Hk; [done|].
  rewrite all_chars_cons in Hall.
  apply andb_prop in Hall as [Hc Hall]. rewrite append_cons. simpl. rewrite Hc.
  destruct p as [|c' p'].
  - rewrite append_nil_l.
    destruct (re_plus cls k (add_char m c) rest); [eauto|exact Hk].
  - destruct (IH (add_char m c) rest) as [y Hy];
      [discriminate|exact Hall|now rewrite add_char_append|].
    rewrite Hy. eauto.
Qed.

Lemma ord_inj (c d : ascii) : ord c = ord d -> c = d.
Proof.
  unfold ord. intros H.
  rewrite <- (ascii_N_embedding c), <- (ascii_N_embedding d). now rewrite H.
Qed.

Lemma re_lit_Some {A} lit (k : string -> option A) : forall s x,
  re_lit lit k s = Some x <->
  exists rest, s = (lit ++ rest)%string /\ k rest = Some x.
Proof.
  induction lit as [|c lit IH]; intros s x; simpl.
  - split; [intros H; now exists s|intros (rest & -> & H); exact H].
  - destruct s as [|d r].
    + split; [discriminate|intros (rest & H & _); discriminate].
    + destruct (N.eqb_spec (ord c) (ord d)) as [He|Hne].
      * apply ord_inj in He as ->.
        rewrite IH. split; intros (rest & Hs & Hk); exists rest.
        -- rewrite append_cons. now subst.
        -- rewrite append_cons in Hs. injection Hs as ->. now split.
      * split; [discriminate|]. intros (rest & Hs & _).
        rewrite append_cons in Hs. injection Hs as -> _. contradiction.
Qed.

(** The repetition fails only if the rest of the pattern fails after
    every run. *)
Lemma re_plus_None {A} cls (k : string -> string -> option A) p m rest :
  p <> EmptyString -> all_chars cls p = true ->
  re_plus cls k m (p ++ rest)%string = None ->
  k (m ++ p)%string rest = None.
Proof.
  intros Hp Hc Hn.
  destruct (k (m ++ p)%string rest) as [x|] eqn:Hk; [|reflexivity].
  destruct (re_plus_is_Some cls k p m rest Hp Hc) as [y Hy]; [rewrite Hk; eauto|].
  congruence.
Qed.

(** The run a successful repetition settles on, and that no longer
    run would have done. *)
Lemma re_plus_Some_longest {A} cls (k : string -> string -> option A) :
  forall s m x,
    re_plus cls k m s = Some x ->
    exists p rest,
      s = (p ++ rest)%string /\ p <> EmptyString /\ all_chars cls p = true
      /\ k (m ++ p)%string rest = Some x
      /\ forall q rest', q <> EmptyString -> all_chars cls q = true ->
           rest = (q ++ rest')%string -> k (m ++ p ++ q)%string rest' = None.
Proof.
  induction s as [|c r IH]; intros m x H; simpl in H; [discriminate|].
  destruct (cls c) eqn:Hc; [|discriminate].
  destruct (re_plus cls k (add_char m c) r) as [y|] eqn:Hr.
  - injection H as ->.
    destruct (IH _ _ Hr) as (p & rest & -> & _ & Hp & Hk & Hlong).
    exists (String c p), rest. repeat split; try discriminate.
    + rewrite all_chars_cons. now rewrite Hc.
    + now rewrite <- add_char_append.
    + intros q rest' Hq Hqc Hrest.
      specialize (Hlong q rest' Hq Hqc Hrest).
      now rewrite add_char_append in Hlong.
  - exists (String c EmptyString), r. repeat split; try discriminate.
    + rewrite all_chars_cons. now rewrite Hc.
    + exact H.
    + intros q rest' Hq Hqc ->.
      apply (re_plus_None cls k q (add_char m c) rest' Hq Hqc) in Hr.
      now rewrite add_char_append in Hr.
Qed.

Lemma count_chars_app cls a b :
  count_chars cls (a ++ b)%string = count_chars cls a + count_chars cls b.
Proof.
  induction a as [|c a IH]; [reflexivity|].
  rewrite append_cons. simpl. rewrite IH. lia.
Qed.

Lemma count_chars_none cls s :
  all_chars (fun c => negb (cls c)) s = true -> count_chars cls s = 0.
Proof.
  induction s as [|c s IH]; [reflexivity|].
  rewrite all_chars_cons. intros [Hc Hs]%andb_prop. simpl.
  destruct (cls c); [discriminate|]. now rewrite IH.
Qed.

Lemma not_dash_count s : all_chars not_dash s = true -> count_chars is_dash s = 0.
Proof. apply count_chars_none. Qed.

(** The part of the pattern after the name needs two dashes. *)
Lemma split_nvr_tail_dashes {A} (k : string -> string -> string -> option A)
    (s : string) (x : A) :
  re_lit "-" (re_plus not_dash (fun version =>
     re_lit "-" (re_plus not_dash (k version) EmptyString)) EmptyString) s
    = Some x ->
  2 <= count_chars is_dash s.
Proof.
  intros H. apply re_lit_Some in H as (r1 & -> & H).
  apply re_plus_Some in H as (p1 & rest1 & -> & _ & _ & H).
  apply re_lit_Some in H as (r2 & -> & _).
  rewrite !count_chars_app. simpl. lia.
Qed.

Lemma nonempty_prefix_head (q rest' : string) (c : ascii) (t : string) :
  q <> EmptyString -> String c t = (q ++ rest')%string ->
  exists q', q = String c q' /\ t = (q' ++ rest')%string.
Proof.
  intros Hq H. destruct q as [|d q']; [done|].
  rewrite append_cons in H. injection H as -> ->. eauto.
Qed.

(** X12: [split_nvr] takes a joined name-version-release apart again:
    for a nonempty name without a newline and a nonempty version and
    release without a dash, splitting [name-version-release] gives the
    three back, however many dashes the name has. *)
Theorem split_nvr_join (n v r : string) :
  n <> EmptyString -> all_chars not_newline n = true ->
  v <> EmptyString -> all_chars not_dash v = true ->
  r <> EmptyString -> all_chars not_dash r = true ->
  split_nvr (n ++ "-" ++ v ++ "-" ++ r)%string = (n, v, r).
Proof.
  intros Hn Hnc Hv Hvc Hr Hrc. unfold split_nvr.
  erewrite re_plus_longest; [reflexivity|exact Hn|exact Hnc| |].
  - apply re_lit_Some. eexists. split; [reflexivity|].
    apply re_plus_longest; [exact Hv|exact Hvc| |].
    + apply re_lit_Some. eexists. split; [reflexivity|].
      rewrite <- (append_nil_r r) at 1.
      apply re_plus_longest; [exact Hr|exact Hrc|reflexivity|].
      intros q rest' Hq _ H. destruct q; [done|discriminate].
    + intros q rest' Hq Hqc H.
      apply nonempty_prefix_head in H as (q' & -> & _); [|exact Hq].
      rewrite all_chars_cons in Hqc. discriminate.
  - intros q rest' Hq Hqc H.
    match goal with |- ?lhs = None => destruct lhs as [x|] eqn:Hk end;
      [|reflexivity].
    apply split_nvr_tail_dashes in Hk.
    apply nonempty_prefix_head in H as (q' & -> & H); [|exact Hq].
    apply (f_equal (count_chars is_dash)) in H.
    rewrite !count_chars_app in H. simpl in H.
    rewrite (not_dash_count v Hvc), (not_dash_count r Hrc) in H. lia.
Qed.

Lemma split_nvr_join_witness :
  split_nvr "osg-build-1.2.3-4.osg.el7" = ("osg-build", "1.2.3", "4.osg.el7")%string.
Proof.
  apply (split_nvr_join "osg-build" "1.2.3" "4.osg.el7");
    solve [discriminate | reflexivity].
Defined.

(** X13: whatever [split_nvr] returns is either three empty texts or
    the three parts of the build: the build is then exactly
    [name-version-release], the name is nonempty and has no newline,
    the version and the release are nonempty and have no dash. *)
Theorem split_nvr_parts (build n v r : string) :
  split_nvr build = (n, v, r) ->
  (n, v, r) = (EmptyString, EmptyString, EmptyString) \/
  (build = (n ++ "-" ++ v ++ "-" ++ r)%string
   /\ n <> EmptyString /\ all_chars not_newline n = true
   /\ v <> EmptyString /\ all_chars not_dash v = true
   /\ r <> EmptyString /\ all_chars not_dash r = true).
Proof.
  unfold split_nvr.
  match goal with |- match ?lhs with _ => _ end = _ -> _ =>
    destruct lhs as [x|] eqn:H end; [|intros <-; now left].
  intros ->. right.
  apply re_plus_Some in H as (pn & rest0 & -> & Hn & Hnc & H).
  apply re_lit_Some in H as (rest1 & -> & H).
  apply re_plus_Some in H as (pv & rest2 & -> & Hv & Hvc & H).
  apply re_lit_Some in H as (rest3 & -> & H).
  apply re_plus_Some_longest in H as (pr & rest4 & -> & Hr & Hrc & H & Hlong).
  destruct (re_at_end rest4) eqn:He; [|discriminate].
  injection H as <- <- <-.
  assert (rest4 = EmptyString) as ->.
  { destruct rest4 as [|c [|d t]]; [reflexivity| |discriminate].
    simpl in He.
    specialize (Hlong (String c EmptyString) EmptyString).
    rewrite all_chars_cons in Hlong. unfold not_dash in Hlong at 1.
    apply N.eqb_eq in He. rewrite He in Hlong.
    specialize (Hlong ltac:(discriminate) eq_refl eq_refl). discriminate. }
  rewrite append_nil_r. repeat split; assumption.
Qed.

Lemma split_nvr_parts_witness :
  ("a", "1", "2")%string = (EmptyString, EmptyString, EmptyString) \/
  ("a-1-2"%string = ("a" ++ "-" ++ "1" ++ "-" ++ "2")%string
   /\ "a"%string <> EmptyString /\ all_chars not_newline "a" = true
   /\ "1"%string <> EmptyString /\ all_chars not_dash "1" = true
   /\ "2"%string <> EmptyString /\ all_chars not_dash "2" = true).
Proof. apply (split_nvr_parts "a-1-2" "a" "1" "2"). reflexivity. Defined.

Lemma url_pattern_scheme (text : string) :
  url_pattern text = true <->
  exists scheme rest,
    scheme <> EmptyString /\ all_chars url_scheme_char scheme = true
    /\ text = (scheme ++ "://" ++ rest)%string.
Proof.
  unfold url_pattern. split.
  - destruct (re_plus _ _ _ _) as [[]|] eqn:H; [intros _|discriminate].
    apply re_plus_Some in H as (p & rest0 & -> & Hp & Hpc & H).
    apply re_lit_Some in H as (rest & -> & _). eauto.
  - intros (scheme & rest & Hs & Hsc & ->).
    destruct (re_plus_is_Some url_scheme_char
                (fun _ rest => re_lit "://" (fun _ => Some tt) rest)
                scheme EmptyString ("://" ++ rest)%string Hs Hsc) as [[] ->];
      [|reflexivity].
    exists tt. apply re_lit_Some. eauto.
Qed.

(** X14: [is_url] finds a match exactly when the text of the location,
    as [to_str] gives it, begins with a nonempty run of lower-case
    letters, [+] and [-] followed by [://]. *)
Theorem is_url_scheme (builtin_str : pyval -> string) (location : pyval)
    (text : string) :
  to_str builtin_str location default_encoding default_errors = inr text ->
  exists found,
    is_url builtin_str location = inr found
    /\ (found = true <->
        exists scheme rest,
          scheme <> EmptyString /\ all_chars url_scheme_char scheme = true
          /\ text = (scheme ++ "://" ++ rest)%string).
Proof.
  intros Ht. exists (url_pattern text). unfold is_url. rewrite Ht.
  split; [reflexivity|apply url_pattern_scheme].
Qed.

Lemma is_url_scheme_witness :
  exists found,
    is_url (fun _ => EmptyString) (PBytes [x67; x69; x74; x3a; x2f; x2f; x68])
      = inr found
    /\ (found = true <->
        exists scheme rest,
          scheme <> EmptyString /\ all_chars url_scheme_char scheme = true
          /\ "git://h"%string = (scheme ++ "://" ++ rest)%string).
Proof.
  apply (is_url_scheme (fun _ => EmptyString)
           (PBytes [x67; x69; x74; x3a; x2f; x2f; x68]) "git://h").
  reflexivity.
Defined.

(** Splitting on a class *)

Lemma re_split_class_item cls item : forall piece rest,
  all_chars (fun c => negb (cls c)) item = true ->
  re_split_class cls piece (item ++ rest)%string
  = re_split_class cls (piece ++ item)%string rest.
Proof.
  induction item as [|c item IH]; intros piece rest H.
  - now rewrite append_nil_l, append_nil_r.
  - rewrite all_chars_cons in H. apply andb_prop in H as [Hc H].
    rewrite append_cons. simpl. destruct (cls c); [discriminate|].
    rewrite IH by exact H. now rewrite add_char_append.
Qed.

Lemma re_split_class_pieces cls : forall s piece,
  all_chars (fun c => negb (cls c)) piece = true ->
  Forall (fun item => all_chars (fun c => negb (cls c)) item = true)
         (re_split_class cls piece s).
Proof.
  induction s as [|c r IH]; intros piece H; simpl.
  - repeat constructor. exact H.
  - destruct (cls c) eqn:Hc.
    + constructor; [exact H|]. now apply IH.
    + apply IH. unfold add_char. rewrite all_chars_app, H.
      rewrite all_chars_cons, Hc. reflexivity.
Qed.

Lemma filter_nonempty_separators cls sep : forall rest,
  all_chars cls sep = true ->
  List.filter nonempty (re_split_class cls EmptyString (sep ++ rest)%string)
  = List.filter nonempty (re_split_class cls EmptyString rest).
Proof.
  induction sep as [|c sep IH]; intros rest H; [reflexivity|].
  rewrite all_chars_cons in H. apply andb_prop in H as [Hc H].
  rewrite append_cons. simpl. rewrite Hc. simpl. now apply IH.
Qed.

Lemma nonempty_true s : nonempty s = true <-> s <> EmptyString.
Proof.
  unfold nonempty. destruct (String.eqb_spec s ""); split; intros; try done.
Qed.

(** X15: [_parse_list_str] returns only items that are nonempty and
    hold no space, comma, tab or newline. *)
Theorem parse_list_str_items (list_str : string) :
  Forall list_item (_parse_list_str list_str).
Proof.
  unfold _parse_list_str. apply List.Forall_forall. intros item Hin.
  apply filter_In in Hin as [Hin Hne]. split.
  - now apply nonempty_true.
  - pose proof (re_split_class_pieces list_separator list_str EmptyString eq_refl) as HF.
    rewrite List.Forall_forall in HF. now apply HF.
Qed.

(** X16: [_parse_list_str] takes apart what joining puts together:
    items that are nonempty and free of separators, joined by any
    nonempty run of spaces, commas, tabs and newlines, are read back
    unchanged and in order. *)
Theorem parse_list_str_join (sep : string) (items : list string) :
  sep <> EmptyString -> all_chars list_separator sep = true ->
  Forall list_item items ->
  _parse_list_str (String.concat sep items) = items.
Proof.
  intros Hsep Hsc. unfold _parse_list_str.
  induction items as [|item items IH]; intros HF; [reflexivity|].
  apply Forall_cons in HF as [[Hne Hic] HF].
  destruct items as [|item2 items].
  - change (String.concat sep [item]) with item.
    rewrite <- (append_nil_r item) at 1.
    rewrite re_split_class_item by exact Hic. rewrite append_nil_l.
    simpl. apply nonempty_true in Hne. now rewrite Hne.
  - change (String.concat sep (item :: item2 :: items))
      with (item ++ sep ++ String.concat sep (item2 :: items))%string.
    rewrite re_split_class_item by exact Hic. rewrite append_nil_l.
    destruct sep as [|c sep]; [done|].
    rewrite all_chars_cons in Hsc. apply andb_prop in Hsc as [Hc Hsc'].
    rewrite append_cons. simpl re_split_class. rewrite Hc.
    simpl List.filter. apply nonempty_true in Hne. rewrite Hne. f_equal.
    rewrite (filter_nonempty_separators list_separator sep) by exact Hsc'.
    apply IH. exact HF.
Qed.

Lemma parse_list_str_join_witness :
  _parse_list_str "el7, el8, el9" = ["el7"; "el8"; "el9"]%string.
Proof.
  apply (parse_list_str_join ", " ["el7"; "el8"; "el9"]%string);
    [discriminate|reflexivity|].
  repeat constructor; discriminate.
Defined.

(** ** Quoting for the shell *)

Lemma shell_safe_plain c :
  shell_safe c = true ->
  shlex_whitespace c = false /\ shlex_quotes c = false /\ shlex_escape c = false.
Proof.
  destruct c as [[] [] [] [] [] [] [] []]; intros H;
    solve [discriminate H | repeat split; reflexivity].
Qed.

Lemma shlex_safe_first c esc token q rest :
  shell_safe c = true ->
  shlex_tokens InWhitespace esc token q (String c rest)
  = shlex_tokens InWord esc (String c "") q rest.
Proof.
  intros (Hw & Hq & He)%shell_safe_plain. simpl.
  rewrite Hw, He, Hq. now destruct (shlex_wordchars c).
Qed.

Lemma shlex_safe_word s : forall esc token q rest,
  all_chars shell_safe s = true ->
  shlex_tokens InWord esc token q (s ++ rest)%string
  = shlex_tokens InWord esc (token ++ s)%string q rest.
Proof.
  induction s as [|c s IH]; intros esc token q rest H.
  - now rewrite append_nil_l, append_nil_r.
  - rewrite all_chars_cons in H. apply andb_prop in H as [Hc H].
    apply shell_safe_plain in Hc as (Hw & Hq & He).
    rewrite append_cons. simpl. rewrite Hw, Hq, He.
    rewrite IH by exact H. now rewrite add_char_append.
Qed.

Lemma shlex_open_quote esc token q rest :
  shlex_tokens InWhitespace esc token q (String single_quote rest)
  = shlex_tokens (InQuote single_quote) esc token q rest.
Proof. reflexivity. Qed.

Lemma shlex_tokens_in_quote q esc token quoted c rest :
  shlex_tokens (InQuote q) esc token quoted (String c rest)
  = if (ord c =? ord q)%N then
      shlex_tokens InWord esc token true rest
    else if shlex_escape c && shlex_escapedquotes q then
      shlex_tokens (InEscape c) (InQuote q) token true rest
    else
      shlex_tokens (InQuote q) esc (add_char token c) true rest.
Proof. reflexivity. Qed.

Lemma str_replace_char_cons old new c r :
  str_replace_char old new (String c r)
  = if (ord c =? ord old)%N
    then (new ++ str_replace_char old new r)%string
    else String c (str_replace_char old new r).
Proof. reflexivity. Qed.

Lemma shlex_in_single_quotes s : forall esc token q rest,
  shlex_tokens (InQuote single_quote) esc token q
    (str_replace_char single_quote quoted_single_quote s
     ++ String single_quote rest)%string
  = shlex_tokens InWord esc (token ++ s)%string true rest.
Proof.
  induction s as [|c s IH]; intros esc token q rest.
  - rewrite append_nil_r. reflexivity.
  - rewrite str_replace_char_cons.
    destruct (N.eqb_spec (ord c) (ord single_quote)) as [He|Hne].
    + apply ord_inj in He as ->.
      unfold quoted_single_quote. rewrite !append_cons, append_nil_l.
      simpl. rewrite IH. now rewrite add_char_append.
    + rewrite append_cons, shlex_tokens_in_quote.
      rewrite (proj2 (N.eqb_neq _ _) Hne), andb_false_r.
      rewrite IH. now rewrite add_char_append.
Qed.

Lemma shell_quote_read s esc rest :
  shlex_tokens InWhitespace esc "" false (shell_quote s ++ rest)%string
  = shlex_tokens InWord esc s (needs_quotes s) rest.
Proof.
  unfold shell_quote, needs_quotes.
  destruct (String.eqb_spec s "") as [->|Hne]; [reflexivity|].
  destruct (all_chars shell_safe s) eqn:Hs.
  - destruct s as [|c s]; [done|].
    rewrite all_chars_cons in Hs. apply andb_prop in Hs as [Hc Hs].
    rewrite append_cons, shlex_safe_first by exact Hc.
    now rewrite shlex_safe_word by exact Hs.
  - rewrite append_assoc, !append_cons, append_nil_l.
    rewrite shlex_open_quote, shlex_in_single_quotes.
    now rewrite append_nil_l.
Qed.
Lemma needs_quotes_emits s : emits s (needs_quotes s) = true.
Proof.
  unfold emits, needs_quotes. now destruct (String.eqb s "").
Qed.

Lemma shlex_tokens_word_space esc token q rest :
  emits token q = true ->
  shlex_tokens InWord esc token q (String " " rest)
  = match shlex_tokens InWhitespace InWhitespace "" false rest with
    | inr toks => inr (token :: toks)
    | inl e => inl e
    end.
Proof. intros H. simpl. now rewrite H. Qed.

(** X17: a command line made of [shell_quote]d arguments joined by
    spaces is split by [shlex.split], the tokenizer [checked_backtick]
    applies to a command given as text, into exactly those arguments,
    whatever characters they hold. *)
Theorem shell_quote_round_trip (args : list string) :
  shlex_split (String.concat " " (shell_quote <$> args)) = inr args.
Proof.
  unfold shlex_split. induction args as [|a args IH]; [reflexivity|].
  destruct args as [|b args].
  - change (String.concat " " (shell_quote <$> [a])) with (shell_quote a).
    rewrite <- (append_nil_r (shell_quote a)), shell_quote_read.
    simpl. now rewrite needs_quotes_emits.
  - change (String.concat " " (shell_quote <$> a :: b :: args))
      with (shell_quote a ++ " "
            ++ String.concat " " (shell_quote <$> b :: args))%string.
    rewrite shell_quote_read, append_cons, append_nil_l.
    rewrite shlex_tokens_word_space by apply needs_quotes_emits.
    now rewrite IH.
Qed.

(** ** Unpacking *)

Lemma chars_length s : length (chars s) = String.length s.
Proof. induction s as [|c s IH]; simpl; congruence. Qed.

Lemma endswith_both cf a b :
  endswith cf a = true -> endswith cf b = true ->
  String.length b <= String.length a -> endswith a b = true.
Proof.
  unfold endswith. rewrite !bool_decide_eq_true. intros Ha Hb Hlen.
  destruct (suffix_weak_total _ _ _ Ha Hb) as [H|H]; [|exact H].
  apply suffix_length in H as Hl. rewrite !chars_length in Hl.
  destruct H as [k Hk]. apply (f_equal length) in Hk as Hk'.
  rewrite length_app, !chars_length in Hk'.
  assert (k = []) as -> by (destruct k; [reflexivity|simpl in Hk'; lia]).
  simpl in Hk. rewrite Hk. reflexivity.
Qed.

Lemma shell_request_bind command :
  Popen_bind [PStr command] (delete "timeout" {["shell" := PBool true]})
  = inr (shell_request command).
Proof.
  rewrite delete_singleton_ne by done.
  apply Popen_bind_cmd.
  unfold popen_options, Popen_keywords, Popen_positional, Popen_kwonly.
  rewrite dom_singleton_L. set_solver.
Qed.

Lemma shell_call_run os command c w :
  os_spawn os (set_requests (requests w ++ [shell_request command]) w)
    (shell_request command) = inr c ->
  subprocess_call os [PStr command] {["shell" := PBool true]} w
  = (Return (exit_status c), after_call (shell_request command) c w).
Proof.
  intros Hs. eapply subprocess_call_run;
    [apply shell_request_bind|exact Hs|].
  rewrite lookup_singleton_ne by done. exact I.
Qed.

Lemma after_call_procs params c w :
  length (procs (after_call params c w)) = S (length (procs w)).
Proof.
  unfold after_call, spawned.
  destruct (is_PIPE (params !! "stdout")); simpl; rewrite length_app; simpl; lia.
Qed.

Lemma handlers_format arg :
  Forall (fun h => exists command, percent_format h.2 arg = inr command) handlers.
Proof. repeat constructor; eexists; reflexivity. Qed.

(** One file: the first handler that fits decides. *)
Lemma unpack_with_run os hs cf w :
  unpack_with os hs cf w
  = match List.find (fun h => endswith cf h.1) hs with
    | Some h =>
        (command <- lift_sum (percent_format h.2 (shell_quote cf)) ;;
         subprocess_call os [PStr command] {["shell" := PBool true]} ;;
         ret tt) w
    | None => (Return tt, w)
    end.
Proof.
  induction hs as [|[ext cmd] hs IH]; [reflexivity|].
  simpl. destruct (endswith cf ext); [reflexivity|exact IH].
Qed.

Ltac rule_out cf Hlong :=
  match goal with
  | |- context [endswith cf ?e] =>
      let E := fresh "E" in
      destruct (endswith cf e) eqn:E;
      [ exfalso;
        first
          [ pose proof (Hlong e _ ltac:(simpl; tauto) E) as Hl;
            simpl in Hl; lia
          | match goal with
            | Hext : endswith cf ?x = true |- _ =>
                pose proof (endswith_both cf x e Hext E ltac:(simpl; lia)) as Hb;
                vm_compute in Hb; discriminate Hb
            end ]
      | ]
  end.

(** X18: [super_unpack] hands a file to the handler of the longest
    extension its name ends with, so an archive ending in [.tar.gz] is
    untarred and not merely unzipped; the command is the handler's
    with the quoted file name in place of [%s], run through the shell,
    and its exit status is not looked at. *)
Theorem super_unpack_longest_extension (os : os_model) (cf ext cmd : string)
    (w : world) :
  In (ext, cmd) handlers ->
  endswith cf ext = true ->
  (forall ext' cmd', In (ext', cmd') handlers -> endswith cf ext' = true ->
     String.length ext' <= String.length ext) ->
  exists command,
    percent_format cmd (shell_quote cf) = inr command
    /\ forall c,
         os_spawn os (set_requests (requests w ++ [shell_request command]) w)
           (shell_request command) = inr c ->
         super_unpack os [cf] w
         = (Return tt, after_call (shell_request command) c w).
Proof.
  intros Hin Hext Hlong.
  assert (Hfind : List.find (fun h => endswith cf h.1) handlers = Some (ext, cmd)).
  { unfold handlers in *. simpl in Hin.
    repeat (destruct Hin as [Hin|Hin];
            [injection Hin as <- <-; simpl;
             repeat (first [rewrite Hext; reflexivity | rule_out cf Hlong])|]).
    destruct Hin. }
  pose proof (handlers_format (shell_quote cf)) as HF.
  rewrite List.Forall_forall in HF.
  destruct (HF _ Hin) as [command Hcmd]. simpl in Hcmd.
  exists command. split; [exact Hcmd|]. intros c Hs.
  unfold super_unpack. unfold bind at 1.
  rewrite unpack_with_run, Hfind. simpl snd.
  unfold bind at 1. rewrite Hcmd. unfold lift_sum at 1, ret at 1.
  unfold bind at 1. rewrite (shell_call_run os command c w Hs).
  reflexivity.
Qed.

Lemma super_unpack_longest_extension_witness :
  exists command,
    percent_format "tar xzf %s" (shell_quote "src.tar.gz") = inr command
    /\ forall c,
         os_spawn (scripted_os (scripted_child [2%Z] [1] PNone))
           (set_requests (requests world0 ++ [shell_request command]) world0)
           (shell_request command) = inr c ->
         super_unpack (scripted_os (scripted_child [2%Z] [1] PNone))
           ["src.tar.gz"%string] world0
         = (Return tt, after_call (shell_request command) c world0).
Proof.
  apply (super_unpack_longest_extension
           (scripted_os (scripted_child [2%Z] [1] PNone))
           "src.tar.gz" ".tar.gz" "tar xzf %s" world0).
  - simpl. tauto.
  - reflexivity.
  - intros ext' cmd' Hin He. simpl in Hin.
    repeat (destruct Hin as [Hin|Hin];
            [injection Hin as <- <-; vm_compute in He;
             first [discriminate He | simpl; lia]|]).
    destruct Hin.
Defined.

Lemma existsb_find {A} (f : A -> bool) (l : list A) :
  existsb f l = match List.find f l with Some _ => true | None => false end.
Proof.
  induction l as [|a l IH]; [reflexivity|]. simpl. now destruct (f a).
Qed.

Lemma super_unpack_cons os cf rest :
  super_unpack os (cf :: rest)
  = (unpack_with os handlers cf ;; super_unpack os rest).
Proof. reflexivity. Qed.

(** X19: as long as the operating system starts the commands,
    [super_unpack] returns normally whatever their exit statuses: it
    starts one command for each file whose name ends with a known
    extension and passes over the others without a word. *)
Theorem super_unpack_never_fails (os : os_model) (children : nat -> child)
    (compressed_files : list string) (w : world) :
  (forall w params, os_spawn os w params = inr (children (length (procs w)))) ->
  exists w',
    super_unpack os compressed_files w = (Return tt, w')
    /\ length (procs w')
       = length (procs w) + length (List.filter has_handler compressed_files).
Proof.
  intros Hos. revert w.
  induction compressed_files as [|cf files IH]; intros w.
  - exists w. split; [reflexivity|]. simpl. lia.
  - rewrite super_unpack_cons. unfold bind at 1. rewrite unpack_with_run.
    simpl List.filter. unfold has_handler at 1. rewrite existsb_find.
    destruct (List.find (fun h => endswith cf h.1) handlers) as [h|] eqn:Hf.
    + apply find_some in Hf as [Hin _].
      pose proof (handlers_format (shell_quote cf)) as HF.
      rewrite List.Forall_forall in HF.
      destruct (HF _ Hin) as [command Hcmd].
      unfold bind at 1. rewrite Hcmd. unfold lift_sum at 1, ret at 1.
      unfold bind at 1. rewrite (shell_call_run os command _ w (Hos _ _)).
      unfold ret at 1.
      destruct (IH (after_call (shell_request command)
                      (children (length (procs w))) w)) as (w' & Hr & Hl).
      exists w'. split; [exact Hr|].
      rewrite Hl, after_call_procs. simpl. lia.
    + destruct (IH w) as (w' & Hr & Hl).
      exists w'. split; [exact Hr|]. exact Hl.
Qed.

Lemma super_unpack_never_fails_witness :
  exists w',
    super_unpack (scripted_os (scripted_child [1%Z; 2%Z] [1; 1] PNone))
      ["a.tar.gz"; "notes.txt"; "b c.rpm"]%string world0 = (Return tt, w')
    /\ length (procs w')
       = length (procs world0)
         + length (List.filter has_handler
                     ["a.tar.gz"; "notes.txt"; "b c.rpm"]%string).
Proof.
  apply (super_unpack_never_fails
           (scripted_os (scripted_child [1%Z; 2%Z] [1; 1] PNone))
           (scripted_child [1%Z; 2%Z] [1; 1] PNone)).
  intros w params. reflexivity.
Defined.

(** ** safelist *)

Lemma normal_index_in_range n i :
  in_range n i -> normal_index n i = Some (position n i) /\ position n i < n.
Proof.
  unfold in_range, normal_index, position. intros H.
  destruct (Z.ltb_spec i 0).
  - rewrite (proj2 (Z.leb_le _ _)), (proj2 (Z.ltb_lt _ _)) by lia.
    split; [reflexivity|lia].
  - rewrite (proj2 (Z.leb_le _ _)), (proj2 (Z.ltb_lt _ _)) by lia.
    split; [reflexivity|lia].
Qed.

Lemma normal_index_out_of_range n i :
  ~ in_range n i -> normal_index n i = None.
Proof.
  unfold in_range, normal_index. intros H.
  destruct (Z.ltb_spec i 0).
  - destruct (Z.leb_spec 0 (i + Z.of_nat n)); [|reflexivity].
    simpl. destruct (Z.ltb_spec (i + Z.of_nat n) (Z.of_nat n)); [lia|reflexivity].
  - destruct (Z.leb_spec 0 i); [|reflexivity].
    simpl. destruct (Z.ltb_spec i (Z.of_nat n)); [lia|reflexivity].
Qed.

Lemma in_range_fits n i :
  (Z.of_nat n < 2 ^ 63)%Z -> in_range n i -> fits_ssize_t i = true.
Proof.
  unfold in_range, fits_ssize_t. intros Hn Hr.
  apply andb_true_iff. split; [apply Z.leb_le|apply Z.ltb_lt]; lia.
Qed.

(** X20: [safelist.get] with an integer index never raises: it gives
    the item at the index, counted from the end when negative, and the
    default exactly when the index is outside the list.  (A list holds
    fewer than 2^63 items.) *)
Theorem safelist_get_item_or_default (self : list pyval) (i : Z)
    (default : pyval) :
  (Z.of_nat (length self) < 2 ^ 63)%Z ->
  safelist_get self (PInt i) default
  = inr (if bool_decide (in_range (length self) i)
         then nth (position (length self) i) self default
         else default).
Proof.
  intros Hlen. unfold safelist_get, list_getitem, as_index. cbv iota beta.
  case_bool_decide as Hr.
  - rewrite (in_range_fits _ _ Hlen Hr).
    destruct (normal_index_in_range _ _ Hr) as [-> Hlt].
    destruct (lookup_lt_is_Some_2 self _ Hlt) as [v Hv]. rewrite Hv.
    f_equal. symmetry. now apply nth_lookup_Some with (d := default) in Hv.
  - destruct (fits_ssize_t i); [|reflexivity].
    now rewrite normal_index_out_of_range.
Qed.

Lemma safelist_get_item_or_default_witness :
  safelist_get [PStr "a"; PStr "b"; PStr "c"] (PInt (-1)) PNone = inr (PStr "c")
  /\ safelist_get [PStr "a"; PStr "b"; PStr "c"] (PInt 3) PNone = inr PNone.
Proof.
  split.
  - apply (safelist_get_item_or_default [PStr "a"; PStr "b"; PStr "c"] (-1) PNone).
    simpl. lia.
  - apply (safelist_get_item_or_default [PStr "a"; PStr "b"; PStr "c"] 3 PNone).
    simpl. lia.
Defined.

(** X21: [safelist.pop] with an index that fits a machine integer and
    a default never raises: an index inside the list removes and
    returns the item there and nothing else, an index outside returns
    the default and leaves the list as it was, empty or not. *)
Theorem safelist_pop_item_or_default (self : list pyval) (i : Z)
    (default : pyval) (more : list pyval) :
  fits_ssize_t i = true ->
  safelist_pop self (PInt i :: default :: more)
  = if bool_decide (in_range (length self) i)
    then (inr (nth (position (length self) i) self default),
          delete (position (length self) i) self)
    else (inr default, self).
Proof.
  intros Hf. unfold safelist_pop, list_pop, as_index.
  cbn [lookup list_lookup]. cbv iota beta. rewrite Hf.
  assert (Hargs : bool_decide (length (PInt i :: default :: more) < 2) = false)
    by (apply bool_decide_eq_false_2; simpl; lia).
  destruct (decide (in_range (length self) i)) as [Hr|Hr].
  - rewrite (bool_decide_eq_true_2 _ Hr).
    destruct (normal_index_in_range _ _ Hr) as [Hn Hlt]. rewrite Hn.
    destruct (lookup_lt_is_Some_2 self _ Hlt) as [v Hv]. rewrite Hv.
    apply nth_lookup_Some with (d := default) in Hv as ->.
    destruct self; [simpl in Hlt; lia|reflexivity].
  - rewrite (bool_decide_eq_false_2 _ Hr).
    rewrite (normal_index_out_of_range _ _ Hr).
    destruct self; cbv iota beta; simpl is_IndexError; cbv iota;
      rewrite Hargs; reflexivity.
Qed.

Lemma safelist_pop_item_or_default_witness :
  safelist_pop [PStr "a"; PStr "b"] [PInt (-2); PNone]
  = (inr (PStr "a"), [PStr "b"])
  /\ safelist_pop [] [PInt 0; PStr "none"] = (inr (PStr "none"), []).
Proof.
  split.
  - apply (safelist_pop_item_or_default [PStr "a"; PStr "b"] (-2) PNone []).
    reflexivity.
  - apply (safelist_pop_item_or_default [] 0 (PStr "none") []).
    reflexivity.
Defined.

(** X22: [safelist.pop] called without an index raises IndexError
    whatever the list holds, and takes nothing off it: the lookup of
    the missing argument fails inside the [try], and with fewer than
    two arguments the handler raises again. *)
Theorem safelist_pop_without_index (self : list pyval) :
  exists e,
    safelist_pop self [] = (inl e, self) /\ is_IndexError e = true.
Proof. eexists. split; reflexivity. Qed.

(** An index outside the list and no default: IndexError, list kept. *)
Lemma safelist_pop_out_of_range (self : list pyval) (i : Z) :
  fits_ssize_t i = true -> ~ in_range (length self) i ->
  exists e,
    safelist_pop self [PInt i] = (inl e, self) /\ is_IndexError e = true.
Proof.
  intros Hf Hr. unfold safelist_pop, list_pop, as_index.
  cbn [lookup list_lookup]. cbv iota beta. rewrite Hf.
  rewrite (normal_index_out_of_range _ _ Hr).
  destruct self; eexists; split; reflexivity.
Qed.

(** ** Searching for files *)

Section files_properties.
Variable isfile : string -> bool.
Variable access_X_OK : string -> bool.
Variable DATA_FILE_SEARCH_PATH : list string.

Lemma find_files_loop_filter filename paths : forall acc,
  find_files_loop isfile filename paths acc
  = acc ++ List.filter isfile (List.map (fun p => path_join p filename) paths).
Proof.
  induction paths as [|p paths IH]; intros acc; simpl.
  - now rewrite app_nil_r.
  - rewrite IH. destruct (isfile (path_join p filename)); [|reflexivity].
    now rewrite <- app_assoc.
Qed.

Lemma filter_head {A} (f : A -> bool) (l : list A) (x : A) (rest : list A) :
  List.filter f l = x :: rest ->
  exists before after,
    l = before ++ x :: after /\ f x = true
    /\ Forall (fun y => f y = false) before.
Proof.
  induction l as [|a l IH]; simpl; [discriminate|].
  destruct (f a) eqn:Ha.
  - intros [= -> <-]. exists [], l. repeat split; [exact Ha|constructor].
  - intros H. destruct (IH H) as (before & after & -> & Hx & Hb).
    exists (a :: before), after. repeat split; [exact Hx|].
    constructor; [exact Ha|exact Hb].
Qed.

Lemma filter_skip {A} (f : A -> bool) (before : list A) (l : list A) :
  Forall (fun y => f y = false) before ->
  List.filter f (before ++ l) = List.filter f l.
Proof.
  induction 1 as [|a before Ha _ IH]; [reflexivity|].
  simpl. now rewrite Ha.
Qed.

(** X23: [find_file] answers with the file in the first directory of
    the search path, in the order given, that holds a regular file of
    that name, whatever the later directories hold. *)
Theorem find_file_first_match (filename : string) (paths : list string)
    (strict : bool) (found : string) :
  find_file isfile DATA_FILE_SEARCH_PATH filename (Some paths) strict
    = inr (Some found)
  <-> exists before p after,
        paths = before ++ p :: after
        /\ found = path_join p filename
        /\ isfile found = true
        /\ Forall (fun q => isfile (path_join q filename) = false) before.
Proof.
  unfold find_file, find_files. rewrite find_files_loop_filter, app_nil_l.
  split.
  - destruct (List.filter _ _) as [|m rest] eqn:Hf.
    + simpl. destruct strict; discriminate.
    + simpl. intros [= ->].
      apply filter_head in Hf as (before & after & Hl & Hx & Hb).
      apply map_eq_app in Hl as (before' & rest' & -> & <- & Hr).
      apply map_eq_cons in Hr as (p & after' & -> & <- & _).
      exists before', p, after'. repeat split; [exact Hx|].
      now apply Forall_map in Hb.
  - intros (before & p & after & -> & -> & Hx & Hb).
    rewrite map_app, filter_skip by now apply Forall_map.
    simpl. rewrite Hx. reflexivity.
Qed.

(** X24: [find_files] raises exactly when it is strict and no
    directory of the search path holds the file; otherwise it returns
    the matches, each of them a regular file, in search order. *)
Theorem find_files_strict (filename : string) (paths : list string)
    (strict : bool) :
  let candidates := List.map (fun p => path_join p filename) paths in
  find_files isfile DATA_FILE_SEARCH_PATH filename (Some paths) strict
  = if strict && forallb (fun j => negb (isfile j)) candidates
    then inl (OtherError "FileNotFoundInSearchPathError")
    else inr (List.filter isfile candidates).
Proof.
  intros candidates. unfold find_files.
  rewrite find_files_loop_filter, app_nil_l. fold candidates.
  assert (H : match List.filter isfile candidates with [] => true | _ => false end
              = forallb (fun j => negb (isfile j)) candidates).
  { generalize candidates. intros l.
    induction l as [|a l IH]; [reflexivity|]. simpl.
    destruct (isfile a); [reflexivity|exact IH]. }
  rewrite H, andb_comm. reflexivity.
Qed.

(** ** which *)

Lemma rstrip_sep_empty h :
  rstrip_sep h = EmptyString -> all_chars is_sep h = true.
Proof.
  induction h as [|c h IH]; [reflexivity|]. simpl.
  destruct (rstrip_sep h); [|discriminate].
  destruct (is_sep c) eqn:Hc; [|discriminate].
  intros _. rewrite all_chars_cons, Hc. now apply IH.
Qed.

Lemma split_after_last_sep_head p :
  String.eqb (split_after_last_sep p).1 "" = negb (has_sep p).
Proof.
  unfold has_sep. rewrite negb_involutive.
  induction p as [|c p IH]; [reflexivity|].
  simpl. destruct (split_after_last_sep p) as [head tail]. simpl in IH.
  rewrite all_chars_cons, <- IH.
  destruct (String.eqb head ""); simpl.
  - now destruct (is_sep c).
  - now rewrite andb_false_r.
Qed.

Lemma path_split_head p :
  String.eqb (path_split p).1 "" = negb (has_sep p).
Proof.
  rewrite <- split_after_last_sep_head. unfold path_split.
  destruct (split_after_last_sep p) as [head tail]. simpl.
  destruct (String.eqb_spec head "") as [->|Hne]; [reflexivity|]. simpl.
  destruct (all_chars is_sep head) eqn:Ha; simpl.
  - now apply String.eqb_neq.
  - apply String.eqb_neq. intros He. apply rstrip_sep_empty in He. congruence.
Qed.

Lemma str_split_join dirs :
  dirs <> [] -> Forall no_colon dirs ->
  str_split ":" (String.concat ":" dirs) = dirs.
Proof.
  unfold str_split. intros Hne HF.
  induction dirs as [|d dirs IH]; [done|].
  apply Forall_cons in HF as [Hd HF].
  destruct dirs as [|d2 dirs].
  - change (String.concat ":" [d]) with d.
    rewrite <- (append_nil_r d) at 1.
    rewrite re_split_class_item by exact Hd. now rewrite append_nil_l.
  - change (String.concat ":" (d :: d2 :: dirs))
      with (d ++ ":" ++ String.concat ":" (d2 :: dirs))%string.
    rewrite re_split_class_item by exact Hd.
    rewrite append_nil_l, append_cons, append_nil_l. simpl.
    f_equal. apply IH; [discriminate|exact HF].
Qed.

Lemma which_loop_find program dirs :
  which_loop isfile access_X_OK program dirs
  = List.find (is_exe isfile access_X_OK)
      (List.map (fun d => path_join d program) dirs).
Proof.
  induction dirs as [|d dirs IH]; [reflexivity|]. simpl.
  now destruct (is_exe isfile access_X_OK (path_join d program)).
Qed.

(** X25: a program named with a directory is looked at where it is
    and nowhere else: [which] returns the name itself when that is an
    executable regular file and None otherwise, and never reads PATH.
    A bare name with PATH unset does not give None but raises
    KeyError. *)
Theorem which_without_search (program : string) (w : world) :
  (has_sep program = true ->
   which isfile access_X_OK program w
   = (Return (if is_exe isfile access_X_OK program then Some program else None),
      w))
  /\ (has_sep program = false -> environ w !! "PATH" = None ->
      which isfile access_X_OK program w = (Raise (OtherError "KeyError"), w)).
Proof.
  unfold which. pose proof (path_split_head program) as H.
  destruct (path_split program) as [fpath tail]. simpl in H. rewrite H.
  split.
  - intros ->. simpl. now destruct (is_exe _ _ _).
  - intros -> Hp. simpl. unfold bind, get_world. now rewrite Hp.
Qed.

(** X26: for a bare program name, [which] returns the first of
    [dir/program], in the order of the directories of PATH, that is an
    executable regular file, and None when there is none. *)
Theorem which_searches_in_order (program : string) (dirs : list string)
    (w : world) :
  has_sep program = false ->
  dirs <> [] -> Forall no_colon dirs ->
  environ w !! "PATH" = Some (String.concat ":" dirs) ->
  which isfile access_X_OK program w
  = (Return (List.find (is_exe isfile access_X_OK)
               (List.map (fun d => path_join d program) dirs)), w).
Proof.
  intros Hs Hne HF Hp. unfold which.
  pose proof (path_split_head program) as H.
  destruct (path_split program) as [fpath tail]. simpl in H.
  rewrite H, Hs. simpl. unfold bind, get_world. rewrite Hp.
  rewrite str_split_join by assumption.
  now rewrite which_loop_find.
Qed.

End files_properties.

Lemma which_searches_in_order_witness :
  which only_ls (fun _ => true) "ls" world_path
  = (Return (Some "/usr/bin/ls"%string), world_path).
Proof.
  apply (which_searches_in_order only_ls (fun _ => true) "ls"
           ["/bin"; "/usr/bin"]%string world_path).
  - reflexivity.
  - discriminate.
  - repeat constructor.
  - reflexivity.
Defined.

(** ** Asking the user *)

Lemma startswith_nil s : startswith s "" = true.
Proof. apply bool_decide_eq_true_2, prefix_nil. Qed.

Lemma startswith_empty d p : startswith "" (String d p) = false.
Proof. apply bool_decide_eq_false_2, prefix_nil_not. Qed.

Lemma startswith_cons c s d p :
  startswith (String c s) (String d p) = bool_decide (c = d) && startswith s p.
Proof.
  unfold startswith. simpl chars.
  destruct (decide (c = d)) as [->|Hne].
  - rewrite (bool_decide_eq_true_2 (d = d)) by reflexivity. simpl.
    apply bool_decide_ext. split.
    + apply prefix_cons_inv_2.
    + apply prefix_cons.
  - rewrite (bool_decide_eq_false_2 (c = d)) by exact Hne. simpl.
    apply bool_decide_eq_false_2. intros H.
    apply prefix_cons_inv_1 in H. congruence.
Qed.

Lemma yn_match u :
  existsb (fun choice => startswith u choice || startswith choice u)
    (lower <$> ["y"; "n"]%string)
  = yn_accepts u.
Proof.
  unfold yn_accepts. destruct u as [|c r]; [reflexivity|].
  change (lower <$> ["y"; "n"]%string) with ["y"; "n"]%string.
  simpl existsb. simpl String.eqb.
  rewrite !startswith_cons, !startswith_nil, !andb_true_r, orb_false_r.
  destruct r as [|c' r'].
  - rewrite !startswith_nil, !andb_true_r.
    repeat case_bool_decide; subst; try reflexivity; congruence.
  - rewrite !startswith_empty, !andb_false_r, !orb_false_r. reflexivity.
Qed.

(** X27: a yes/no question is settled by the first line typed that,
    stripped and lower-cased, is empty or begins with [y] or [n]:
    [ask_yn] returns True when it begins with [y] and False otherwise,
    so a bare Enter counts as no; any other line makes it ask again. *)
Theorem ask_yn_line (question line : string) (rest out : list string) :
  let u := lower (strip line) in
  let out' := out ++ [(question ++ newline)%string; "[y/n] ? "%string] in
  ask_yn question (Console (line :: rest) out)
  = if yn_accepts u
    then (inr (startswith u "y"), Console rest out')
    else ask_yn question (Console rest out').
Proof.
  intros u out'. unfold ask_yn, ask. cbn [pending shown].
  change ("[" ++ String.concat "/" ["y"; "n"] ++ "] ? ")%string
    with "[y/n] ? "%string.
  cbn [ask_loop]. fold u. fold out'.
  cbn [is_None negb]. rewrite andb_false_r, yn_match.
  destruct (yn_accepts u); [|reflexivity].
  now destruct (startswith u "y").
Qed.

Lemma lower_empty s : s = EmptyString -> lower s = EmptyString.
Proof. now intros ->. Qed.

(** X28: a line that holds nothing but whitespace is an answer all the
    same: [ask] returns the default when there is one, and otherwise,
    if there are choices at all, the empty text, without asking again. *)
Theorem ask_blank_line (question line : string) (choices : list string)
    (default : pyval) (rest out : list string) :
  strip line = EmptyString ->
  choices <> [] \/ default <> PNone ->
  ask question choices default (Console (line :: rest) out)
  = (inr (if is_None default then PStr "" else default),
     Console rest
       (out ++ [(question ++ newline)%string;
                ("[" ++ String.concat "/" choices ++ "] ? ")%string])).
Proof.
  intros Hs Hc. unfold ask. cbn [pending shown ask_loop].
  rewrite Hs. cbn [lower]. simpl String.eqb. cbn [andb].
  destruct default; try reflexivity.
  destruct Hc as [Hc|Hc]; [|done].
  destruct choices as [|c choices]; [done|].
  cbn [is_None negb fmap list_fmap existsb].
  now rewrite startswith_nil, orb_true_r.
Qed.

Lemma ask_blank_line_witness :
  ask "Release?" ["el8"; "el9"]%string PNone (Console ["  "%string] [])
  = (inr (PStr ""),
     Console [] ([] ++ [("Release?" ++ newline)%string;
                        ("[" ++ String.concat "/" ["el8"; "el9"] ++ "] ? ")%string])).
Proof.
  apply (ask_blank_line "Release?" "  " ["el8"; "el9"]%string PNone [] []).
  - reflexivity.
  - left. discriminate.
Defined.

Lemma ask_loop_result question prompt choices default : forall lines out v con',
  ask_loop question prompt (lower <$> choices) default lines out = (inr v, con') ->
  (v = default /\ is_None default = false)
  \/ exists line choice,
       In line lines /\ In choice choices
       /\ v = PStr (lower (strip line))
       /\ fits_choice (lower (strip line)) choice = true.
Proof.
  induction lines as [|line rest IH]; intros out v con' H; [discriminate|].
  cbn [ask_loop] in H.
  destruct (String.eqb (lower (strip line)) "" && negb (is_None default)) eqn:Hd.
  - injection H as <- _. left. split; [reflexivity|].
    apply andb_prop in Hd as [_ Hd]. now apply negb_true_iff in Hd.
  - destruct (existsb _ _) eqn:He.
    + injection H as <- _. right.
      apply existsb_exists in He as (choice_lc & Hin & Hfit).
      apply in_map_iff in Hin as (choice & <- & Hin).
      exists line, choice. repeat split; [now left|exact Hin|exact Hfit].
    + destruct (IH _ _ _ H) as [Hl|(l & c & Hl & Hc & Hv & Hf)]; [now left|].
      right. exists l, c. repeat split; [now right|exact Hc|exact Hv|exact Hf].
Qed.

(** X29: what [ask] returns is either the default or what the user
    typed, stripped and lower-cased, on a line where that text begins
    one of the lower-cased choices or is begun by one; it is the text
    typed that comes back, not the choice it stands for. *)
Theorem ask_returns_answer_or_default (question : string)
    (choices : list string) (default : pyval) (con con' : console)
    (v : pyval) :
  ask question choices default con = (inr v, con') ->
  (v = default /\ is_None default = false)
  \/ exists line choice,
       In line (pending con) /\ In choice choices
       /\ v = PStr (lower (strip line))
       /\ fits_choice (lower (strip line)) choice = true.
Proof. unfold ask. apply ask_loop_result. Qed.

Lemma ask_returns_answer_or_default_witness :
  (PStr "app" = PNone /\ is_None PNone = false)
  \/ exists line choice,
       In line (pending (Console ["x"; "APP"]%string []))
       /\ In choice ["Apple"; "pear"]%string
       /\ PStr "app" = PStr (lower (strip line))
       /\ fits_choice (lower (strip line)) choice = true.
Proof.
  apply (ask_returns_answer_or_default "Which?" ["Apple"; "pear"]%string PNone
           (Console ["x"; "APP"]%string [])
           (Console [] [("Which?" ++ newline)%string; "[Apple/pear] ? "%string;
                        ("Which?" ++ newline)%string; "[Apple/pear] ? "%string])
           (PStr "app")).
  vm_compute. reflexivity.
Defined.

(** ** The local machine's release *)

Lemma all_chars_impl (P Q : ascii -> bool) s :
  (forall c, P c = true -> Q c = true) ->
  all_chars P s = true -> all_chars Q s = true.
Proof.
  intros HPQ. induction s as [|c s IH]; [reflexivity|].
  rewrite !all_chars_cons. intros [Hc Hs]%andb_prop.
  now rewrite (HPQ _ Hc), IH.
Qed.

Lemma digit_plain c :
  is_digit c = true ->
  isspace c = false /\ (ord c =? 43)%N = false /\ (ord c =? 45)%N = false
  /\ (ord c =? 46)%N = false.
Proof.
  destruct c as [[] [] [] [] [] [] [] []]; intros H;
    solve [discriminate H | repeat split; reflexivity].
Qed.

Lemma int_digits_decimal s : forall acc count after_digit,
  all_chars is_digit s = true ->
  s <> EmptyString \/ after_digit = true ->
  int_digits acc count after_digit s
  = Some (fold_left (fun acc c => (10 * acc + (Z.of_N (ord c) - 48))%Z)
            (chars s) acc,
          (count + N.of_nat (String.length s))%N, EmptyString).
Proof.
  induction s as [|c s IH]; intros acc count b H Hne.
  - destruct Hne as [Hne| ->]; [done|]. simpl. now rewrite N.add_0_r.
  - rewrite all_chars_cons in H. apply andb_prop in H as [Hc Hs].
    cbn [int_digits]. rewrite Hc. rewrite IH by (try exact Hs; now right).
    cbn [String.length chars list_ascii_of_string fold_left].
    do 2 f_equal. apply (f_equal (fun n => (fold_left
      (fun acc c => (10 * acc + (Z.of_N (ord c) - 48))%Z)
      (list_ascii_of_string s) (10 * acc + (Z.of_N (ord c) - 48))%Z, n))).
    lia.
Qed.

Lemma int_of_str_decimal s :
  s <> EmptyString -> all_chars is_digit s = true ->
  (Z.of_nat (String.length s) <= 4300)%Z ->
  int_of_str s = inr (decimal s).
Proof.
  intros Hne H Hlen. unfold int_of_str.
  destruct s as [|c r]; [done|].
  pose proof H as H'. rewrite all_chars_cons in H'.
  apply andb_prop in H' as [Hc _].
  assert (Hsp : int_space c = false).
  { revert Hc. clear. destruct c as [[] [] [] [] [] [] [] []]; intros H;
      solve [discriminate H | reflexivity]. }
  apply digit_plain in Hc as (_ & Hplus & Hminus & _).
  cbn [int_lstrip]. rewrite Hsp, Hplus, Hminus.
  rewrite (int_digits_decimal _ 0%Z 0%N false H) by now left.
  assert (Hle : (int_max_str_digits <? 0 + N.of_nat (String.length (String c r)))%N
                = false).
  { apply N.ltb_ge. unfold int_max_str_digits. lia. }
  rewrite Hle. reflexivity.
Qed.

Lemma re_search_digits_after prefix digits :
  all_chars (fun c => negb (is_digit c)) prefix = true ->
  digits <> EmptyString -> all_chars is_digit digits = true ->
  re_search_plus is_digit (prefix ++ digits)%string = Some digits.
Proof.
  intros Hp Hne Hd.
  assert (Hrun : re_plus is_digit (fun m _ => Some m) EmptyString digits
                 = Some digits).
  { rewrite <- (append_nil_r digits) at 1.
    apply re_plus_longest; [exact Hne|exact Hd|reflexivity|].
    intros q rest' Hq _ H. destruct q; [done|discriminate]. }
  induction prefix as [|c prefix IH].
  - rewrite append_nil_l. destruct digits; [done|].
    unfold re_search_plus. now rewrite Hrun.
  - rewrite all_chars_cons in Hp. apply andb_prop in Hp as [Hc Hp].
    rewrite append_cons. simpl. apply negb_true_iff in Hc. rewrite Hc.
    apply IH. exact Hp.
Qed.

Lemma str_split_head sep item tail :
  all_chars (fun c => negb (ord c =? ord sep)%N) item = true ->
  tail = EmptyString \/ (exists r, tail = String sep r) ->
  exists more, str_split sep (item ++ tail)%string = item :: more.
Proof.
  intros Hi Ht. unfold str_split.
  rewrite re_split_class_item by exact Hi. rewrite append_nil_l.
  destruct Ht as [->|[r ->]].
  - now exists [].
  - simpl. rewrite N.eqb_refl. eauto.
Qed.

Lemma percent_format_suffix (a b : ascii) (arg : string) :
  (ord a =? 37)%N = false -> (ord b =? 37)%N = false ->
  percent_format (String a (String b "%s")) arg
  = inr (String a (String b arg)).
Proof.
  intros Ha Hb. unfold percent_format. simpl. rewrite Ha, Hb.
  now rewrite append_nil_r.
Qed.

(** X30: on a machine whose [/etc/os-release] gives a VERSION_ID that
    begins with a decimal number of at most 4300 digits, alone or
    followed by a dot, and an ID_LIKE that mentions [rhel],
    [get_local_machine_dver] is [el] followed by that number and
    [get_local_machine_release] is the number. *)
Theorem local_machine_release_rhel (read_file : string -> exn + string)
    (contents major tail : string) :
  read_file "/etc/os-release"%string = inr contents ->
  let os_release :=
    os_release_loop (str_split (ascii_of_N 10) contents) ∅ in
  os_release !! "VERSION_ID"%string = Some (major ++ tail)%string ->
  major <> EmptyString -> all_chars is_digit major = true ->
  (Z.of_nat (String.length major) <= 4300)%Z ->
  tail = EmptyString \/ (exists r, tail = String "." r) ->
  str_contains "rhel" (default EmptyString (os_release !! "ID_LIKE"%string))
    = true ->
  get_local_machine_dver read_file = inr ("el" ++ major)%string
  /\ get_local_machine_release read_file = inr (decimal major).
Proof.
  intros Hread os_release Hv Hne Hd Hlen Ht Hlike.
  assert (Hdver : get_local_machine_dver read_file = inr ("el" ++ major)%string).
  { unfold get_local_machine_dver, slurp. rewrite Hread.
    destruct (String.eqb_spec contents "") as [->|_].
    { vm_compute in Hv. discriminate Hv. }
    fold os_release. rewrite Hv. cbn [default from_option id].
    destruct (String.eqb_spec (major ++ tail)%string "") as [He|_].
    { destruct major; [done|discriminate He]. }
    destruct (str_split_head "." major tail) as [more ->]; [|exact Ht|].
    { apply (all_chars_impl is_digit); [|exact Hd].
      intros c Hc. apply digit_plain in Hc as (_ & _ & _ & Hc).
      change (ord ".") with 46%N. now rewrite Hc. }
    rewrite Hlike. now apply percent_format_suffix. }
  split; [exact Hdver|].
  unfold get_local_machine_release. rewrite Hdver.
  rewrite (re_search_digits_after "el" major) by (try reflexivity; assumption).
  now apply int_of_str_decimal.
Qed.

Lemma local_machine_release_rhel_witness :
  get_local_machine_dver el8_files = inr ("el" ++ "8")%string
  /\ get_local_machine_release el8_files = inr (decimal "8").
Proof.
  apply (local_machine_release_rhel el8_files os_release_el8 "8" ".6").
  - reflexivity.
  - vm_compute. reflexivity.
  - discriminate.
  - reflexivity.
  - simpl. lia.
  - right. now exists "6"%string.
  - vm_compute. reflexivity.
Defined.

(** Without a readable, non-empty [/etc/os-release] the answers are
    the empty text and zero. *)
Lemma local_machine_release_unknown (read_file : string -> exn + string) :
  (exists e, read_file "/etc/os-release"%string = inl e /\ is_OSError e = true)
  \/ read_file "/etc/os-release"%string = inr EmptyString ->
  get_local_machine_dver read_file = inr EmptyString
  /\ get_local_machine_release read_file = inr 0%Z.
Proof.
  intros H.
  assert (Hd : get_local_machine_dver read_file = inr EmptyString).
  { unfold get_local_machine_dver, slurp.
    destruct H as [(e & -> & ->)| ->]; reflexivity. }
  split; [exact Hd|]. unfold get_local_machine_release. now rewrite Hd.
Qed.

(** ** The child [checked_backtick] asks for *)

Lemma percent_s_ok cmd w :
  (forall l, cmd = PTuple l -> length l = 1) ->
  percent_s cmd w = (Return tt, w).
Proof.
  intros H. unfold percent_s. destruct cmd; try reflexivity.
  now rewrite bool_decide_eq_true_2 by (apply H; reflexivity).
Qed.

Lemma backtick_tail_refused os args kwargs nostrip cmd d params e w :
  percent_s cmd (with_copy d w) = (Return tt, with_copy d w) ->
  Popen_bind (cmd :: tail args) d = inr params ->
  os_spawn os (at_request d params w) params = inl e ->
  backtick_tail os args kwargs nostrip cmd (length (dicts w)) (with_copy d w)
  = (Raise e, at_request d params w).
Proof.
  intros Hfmt Hb Hs. unfold backtick_tail.
  erewrite bind_return by exact Hfmt.
  erewrite bind_return by apply dict_load_copy.
  erewrite bind_raise by (eapply Popen_spawn_fails; eassumption).
  reflexivity.
Qed.

(** Once the command is prepared and the parameters bind, the request
    is made, whatever the operating system then answers. *)
Lemma checked_backtick_asks os a0 rest kwargs kw w cmd d params :
  dicts w !! kwargs = Some kw ->
  backtick_cmd a0 kw = inr cmd ->
  (forall l, cmd = PTuple l -> length l = 1) ->
  sp_kwargs_of w kw = inr d ->
  Popen_bind (cmd :: rest) d = inr params ->
  let r := checked_backtick os (a0 :: rest) kwargs w in
  requests r.2 = requests w ++ [params]
  /\ match os_spawn os (at_request d params w) params with
     | inr c => r.2 = after_call params c (with_copy d w)
     | inl e => r = (Raise e, at_request d params w)
     end.
Proof.
  intros Hkw Hcmd Htup Hd Hb r.
  pose proof (percent_s_ok cmd (with_copy d w) Htup) as Hfmt.
  destruct (os_spawn os (at_request d params w) params) as [e|c] eqn:Hs.
  - assert (Hr : r = (Raise e, at_request d params w)).
    { subst r. rewrite (checked_backtick_unfold _ _ _ _ _ _ Hkw), Hcmd.
      cbv zeta. unfold sp_kwargs_of in Hd. destruct (clocale_on kw).
      - destruct (dict_from _ _) as [|env]; [discriminate|].
        injection Hd as <-. now apply backtick_tail_refused.
      - injection Hd as <-. now apply backtick_tail_refused. }
    rewrite Hr. split; reflexivity.
  - assert (Hr : r.2 = after_call params c (with_copy d w)).
    { subst r.
      now rewrite (checked_backtick_run os a0 rest kwargs kw w cmd d params c). }
    rewrite Hr. split; [|reflexivity].
    unfold after_call. destruct (is_PIPE (params !! "stdout")); reflexivity.
Qed.

Lemma after_call_captured params c d w :
  params !! "stdout" = Some subprocess_PIPE ->
  procs (after_call params c (with_copy d w)) = with_captured_child params c w.
Proof.
  intros Ho. unfold after_call, spawned, with_captured_child.
  rewrite Ho. reflexivity.
Qed.

Lemma sp_kwargs_other w kw d k :
  sp_kwargs_of w kw = inr d ->
  k <> "nostrip" -> k <> "stdout" -> k <> "err2out" -> k <> "stderr" ->
  k <> "clocale" -> k <> "env" ->
  d !! k = kw !! k.
Proof.
  intros Hd ? ? ? ? ? ?. unfold sp_kwargs_of in Hd. destruct (clocale_on kw).
  - destruct (dict_from _ _); [discriminate|]. injection Hd as <-.
    rewrite sp_final_lookup by done. now apply sp_clocale_lookup.
  - injection Hd as <-. now apply sp_clocale_lookup.
Qed.

(** What the request and the process table are, given the command and
    the dictionary handed to Popen. *)
Lemma checked_backtick_child os a0 kwargs kw w cmd d :
  dicts w !! kwargs = Some kw ->
  popen_options (without_own_options kw) ->
  backtick_cmd a0 kw = inr cmd ->
  (forall l, cmd = PTuple l -> length l = 1) ->
  sp_kwargs_of w kw = inr d ->
  let r := checked_backtick os [a0] kwargs w in
  let params := {["args" := cmd]} ∪ d ∪ Popen_defaults in
  requests r.2 = requests w ++ [params]
  /\ params !! "args" = Some cmd
  /\ (forall k, k <> "args" -> params !! k = (d ∪ Popen_defaults) !! k)
  /\ match os_spawn os (at_request d params w) params with
     | inr c => procs r.2 = with_captured_child params c w
     | inl e => r.1 = Raise e /\ procs r.2 = procs w
     end.
Proof.
  intros Hkw Hopt Hcmd Htup Hd r params.
  pose proof (sp_kwargs_options w kw d Hopt Hd) as Hpo.
  pose proof (Popen_bind_cmd cmd d Hpo) as Hb. fold params in Hb.
  destruct (checked_backtick_asks os a0 [] kwargs kw w cmd d params
              Hkw Hcmd Htup Hd Hb) as (Hreq & Hsp).
  fold r in Hreq, Hsp.
  assert (Hother : forall k, k <> "args" ->
            params !! k = (d ∪ Popen_defaults) !! k).
  { intros k Hk. subst params. rewrite <- assoc_L by apply _.
    apply lookup_union_r. now apply lookup_singleton_ne. }
  split; [exact Hreq|]. split; [|split; [exact Hother|]].
  - subst params. rewrite <- assoc_L by apply _.
    apply lookup_union_Some_l, lookup_singleton_eq.
  - destruct (os_spawn os (at_request d params w) params) as [e|c].
    + rewrite Hsp. split; reflexivity.
    + rewrite Hsp. apply after_call_captured.
      rewrite Hother by done. apply lookup_union_Some_l.
      exact (sp_kwargs_stdout w kw d Hd).
Qed.

(** C3: a command given as one string, with no [shell] option, with
    options Popen accepts and an [env] that is a mapping if there is
    one: when the string does not tokenize, [checked_backtick] raises
    the tokenizer's error and asks for nothing; when it does,
    [checked_backtick] asks the operating system for exactly one
    child, whose argument vector is the list of tokens [shlex.split]
    makes of the string and whose [shell] parameter is False, and the
    child the operating system answers with is the one it then runs.
    The string "echo hello world" has the three tokens echo, hello and
    world. *)
Theorem checked_backtick_tokenizes (os : os_model) (s : string)
    (kwargs : nat) (kw : gmap string pyval) (w : world) :
  dicts w !! kwargs = Some kw ->
  "shell" ∉ dom kw ->
  popen_options (without_own_options kw) ->
  (forall v, kw !! "env" = Some v -> exists m, v = PDict m) ->
  let r := checked_backtick os [PStr s] kwargs w in
  match shlex_split s with
  | inl e => r = (Raise e, w)
  | inr toks =>
      exists d params,
        sp_kwargs_of w kw = inr d
        /\ requests r.2 = requests w ++ [params]
        /\ params !! "args" = Some (PList (PStr <$> toks))
        /\ params !! "shell" = Some (PBool false)
        /\ match os_spawn os (at_request d params w) params with
           | inr c => procs r.2 = with_captured_child params c w
           | inl e => r.1 = Raise e /\ procs r.2 = procs w
           end
  end
  /\ shlex_split "echo hello world" = inr ["echo"; "hello"; "world"]%string.
Proof.
  intros Hkw Hsh Hopt Henv r. split; [|reflexivity].
  assert (Hcmd : backtick_cmd (PStr s) kw
                 = match shlex_split s with
                   | inr toks => inr (PList (PStr <$> toks))
                   | inl e => inl e
                   end).
  { unfold backtick_cmd. now rewrite bool_decide_eq_true_2. }
  destruct (shlex_split s) as [e|toks] eqn:Hsplit.
  - subst r. rewrite (checked_backtick_unfold _ _ _ _ _ _ Hkw), Hcmd.
    reflexivity.
  - destruct (sp_kwargs_mapping w kw Henv) as (d & Hd).
    destruct (checked_backtick_child os (PStr s) kwargs kw w _ d
                Hkw Hopt Hcmd ltac:(discriminate) Hd)
      as (Hreq & Hargs & Hother & Hsp).
    exists d, ({["args" := PList (PStr <$> toks)]} ∪ d ∪ Popen_defaults).
    split; [exact Hd|]. split; [exact Hreq|]. split; [exact Hargs|].
    split; [|exact Hsp].
    rewrite Hother by done. rewrite lookup_union_r; [reflexivity|].
    rewrite (sp_kwargs_other w kw d "shell" Hd) by done.
    now apply not_elem_of_dom.
Qed.

Lemma without_own_options_empty : popen_options (without_own_options ∅).
Proof.
  unfold without_own_options. rewrite !delete_empty.
  exact popen_options_empty.
Qed.

Lemma checked_backtick_tokenizes_witness :
  let r := checked_backtick (constant_os (inr tty_child))
             [PStr "echo hello world"] 0 world_german in
  (exists d params,
     sp_kwargs_of world_german ∅ = inr d
     /\ requests r.2 = requests world_german ++ [params]
     /\ params !! "args"
        = Some (PList [PStr "echo"; PStr "hello"; PStr "world"])
     /\ params !! "shell" = Some (PBool false)
     /\ procs r.2 = with_captured_child params tty_child world_german)
  /\ shlex_split "echo hello world" = inr ["echo"; "hello"; "world"]%string.
Proof.
  apply (checked_backtick_tokenizes (constant_os (inr tty_child))
           "echo hello world" 0 ∅ world_german).
  - reflexivity.
  - apply not_elem_of_empty.
  - exact without_own_options_empty.
  - intros v H. rewrite lookup_empty in H. discriminate H.
Defined.

(** C6: with [clocale] enabled, a base environment that is a mapping
    (the [env] option when given, else [os.environ]), options Popen
    accepts and a command that can be prepared, [checked_backtick]
    asks the operating system for exactly one child, and the
    environment that child is given is the base overlaid with LC_ALL=C
    and LANG=C: the two are set to C and every other variable of the
    base is in it unchanged.  The child the operating system answers
    with is the one it then runs. *)
Theorem checked_backtick_forces_locale (os : os_model) (a0 cmd : pyval)
    (kwargs : nat) (kw base : gmap string pyval) (w : world) :
  dicts w !! kwargs = Some kw ->
  truthy (default (PBool true) (kw !! "clocale")) = true ->
  default (environ_value w) (kw !! "env") = PDict base ->
  popen_options (without_own_options kw) ->
  backtick_cmd a0 kw = inr cmd ->
  (forall l, cmd = PTuple l -> length l = 1) ->
  let r := checked_backtick os [a0] kwargs w in
  exists d params env,
    sp_kwargs_of w kw = inr d
    /\ requests r.2 = requests w ++ [params]
    /\ params !! "env" = Some (PDict env)
    /\ child_environment r.2 params = PDict env
    /\ env = <["LANG" := PStr "C"]> (<["LC_ALL" := PStr "C"]> base)
    /\ env !! "LC_ALL" = Some (PStr "C")
    /\ env !! "LANG" = Some (PStr "C")
    /\ (forall k, k <> "LC_ALL" -> k <> "LANG" -> env !! k = base !! k)
    /\ match os_spawn os (at_request d params w) params with
       | inr c => procs r.2 = with_captured_child params c w
       | inl e => r.1 = Raise e /\ procs r.2 = procs w
       end.
Proof.
  intros Hkw Hcl Hbase Hopt Hcmd Htup r.
  set (env := <["LANG" := PStr "C"]> (<["LC_ALL" := PStr "C"]> base)).
  assert (Hd : sp_kwargs_of w kw = inr (sp_final env kw)).
  { unfold sp_kwargs_of. rewrite clocale_on_kw, Hcl, sp_base_env_kw, Hbase.
    reflexivity. }
  destruct (checked_backtick_child os a0 kwargs kw w cmd (sp_final env kw)
              Hkw Hopt Hcmd Htup Hd)
    as (Hreq & Hargs & Hother & Hsp).
  set (params := {["args" := cmd]} ∪ sp_final env kw ∪ Popen_defaults) in *.
  assert (Hp : params !! "env" = Some (PDict env)).
  { rewrite Hother by done. apply lookup_union_Some_l.
    unfold sp_final. apply lookup_insert_eq. }
  exists (sp_final env kw), params, env.
  split; [exact Hd|]. split; [exact Hreq|]. split; [exact Hp|].
  split; [unfold child_environment; now rewrite Hp|].
  split; [reflexivity|]. subst env.
  split; [now rewrite lookup_insert_ne, lookup_insert_eq|].
  split; [apply lookup_insert_eq|].
  split; [|exact Hsp].
  intros k ? ?. now rewrite !lookup_insert_ne.
Qed.

Lemma checked_backtick_forces_locale_witness :
  let r := checked_backtick (constant_os (inr tty_child))
             [PList [PStr "locale"]] 0 world_german in
  exists d params env,
    sp_kwargs_of world_german ∅ = inr d
    /\ requests r.2 = requests world_german ++ [params]
    /\ params !! "env" = Some (PDict env)
    /\ child_environment r.2 params = PDict env
    /\ env = <["LANG" := PStr "C"]>
               (<["LC_ALL" := PStr "C"]>
                  (PStr <$> {["LANG" := "de_DE.UTF-8"%string]}))
    /\ env !! "LC_ALL" = Some (PStr "C")
    /\ env !! "LANG" = Some (PStr "C")
    /\ (forall k, k <> "LC_ALL" -> k <> "LANG" ->
          env !! k
          = (PStr <$> ({["LANG" := "de_DE.UTF-8"%string]} : gmap string string))
              !! k)
    /\ procs r.2 = with_captured_child params tty_child world_german.
Proof.
  apply (checked_backtick_forces_locale (constant_os (inr tty_child))
           (PList [PStr "locale"]) (PList [PStr "locale"]) 0 ∅
           (PStr <$> {["LANG" := "de_DE.UTF-8"%string]}) world_german).
  - reflexivity.
  - reflexivity.
  - reflexivity.
  - exact without_own_options_empty.
  - reflexivity.
  - discriminate.
Defined.

(** C10, as stated, fails: the process can change to /tmp, but from
    there the directory it started in cannot be entered again; [popd]
    raises the OSError, the process stays in /tmp, and the stack has
    been popped all the same. *)
Lemma pushd_popd_no_way_back :
  os_chdir one_way_os (cwd world0) "/tmp" = Some "/tmp"%string
  /\ (pushd one_way_os "/tmp" ;; popd one_way_os) world0
     = (Raise (OSError "chdir"), set_cwd "/tmp" world0)
  /\ cwd (set_cwd "/tmp" world0) <> cwd world0.
Proof.
  split; [reflexivity|]. split; [vm_compute; reflexivity|discriminate].
Qed.
